(** * Latent ODE example (examples/latent_ode.py): a shallow embedding

    The example trains a variational autoencoder whose decoder integrates a
    learned vector field.  This development embeds the example's own code:
    the encoder [_latent], the decoder [_sample], the loss [_loss], [train],
    [sample], the minibatch generator [dataloader] and the training loop of
    [main].

    Conventions.
    - jnp float arrays are lists of real numbers ([vec] for rank 1, [mat]
      for rank 2): float32 arithmetic is idealised as exact arithmetic on
      [R].  Stdlib's [ln] is total (it is 0 outside the positive reals,
      where jnp.log gives nan or -inf).
    - Python ints (steps, save_every, batch_size, slice bounds) are [Z];
      [//] and [%] are [Z.div] and [Z.modulo], which floor like Python's.
    - A Python exception is a [Raise]; a loop that never comes back is the
      exhaustion of a fuel argument, [OutOfFuel].
    - The effects a run leaves behind (PRNG keys handed to jax.random,
      optimizer updates, plots) are collected in an event log.
    - Of matplotlib only the iterator over the axes is kept: [num_plots]
      axes, handed out one by one by [next]. *)

From Stdlib Require Import Reals List ZArith Lia Lra Bool Arith.
From Stdlib Require Import Permutation Sorted.
Import ListNotations.

Set Implicit Arguments.

(** ** Exceptions and the error monad *)

Inductive exn : Type :=
| ShapeError         (* jnp/equinox: operands of incompatible shapes *)
| IndexError
| SolveFailure       (* the ODE solve did not produce a solution *)
| AssertionError
| ZeroDivisionError
| StopIteration.

Inductive result (A : Type) : Type :=
| Ok (a : A)
| Raise (e : exn)
| OutOfFuel.

Arguments Ok {A} a.
Arguments Raise {A} e.
Arguments OutOfFuel {A}.

Definition bind {A B} (r : result A) (k : A -> result B) : result B :=
  match r with
  | Ok a => k a
  | Raise e => Raise e
  | OutOfFuel => OutOfFuel
  end.

Notation "x <- c ;; k" := (bind c (fun x => k))
  (at level 100, c at next level, right associativity).

Definition of_option {A} (e : exn) (o : option A) : result A :=
  match o with
  | Some a => Ok a
  | None => Raise e
  end.

Fixpoint mapM {A B} (f : A -> result B) (l : list A) : result (list B) :=
  match l with
  | [] => Ok []
  | a :: l' => b <- f a ;; bs <- mapM f l' ;; Ok (b :: bs)
  end.

Fixpoint mapM2 {A B C} (f : A -> B -> result C) (xs : list A) (ys : list B)
  : result (list C) :=
  match xs, ys with
  | [], [] => Ok []
  | x :: xs', y :: ys' => c <- f x y ;; cs <- mapM2 f xs' ys' ;; Ok (c :: cs)
  | _, _ => Raise ShapeError
  end.

(** ** Arrays *)

Definition vec := list R.
Definition mat := list vec.

Open Scope R_scope.

(** numpy broadcasting of a binary operation along one axis: equal extents
    are paired off, an extent of 1 is stretched, anything else is an error. *)
Definition broadcast {A B C} (f : A -> B -> result C) (xs : list A) (ys : list B)
  : result (list C) :=
  if Nat.eqb (length xs) (length ys) then mapM2 f xs ys
  else match xs, ys with
       | [x], _ => mapM (f x) ys
       | _, [y] => mapM (fun x => f x y) xs
       | _, _ => Raise ShapeError
       end.

Definition elementwise (op : R -> R -> R) (u v : vec) : result vec :=
  broadcast (fun a b => Ok (op a b)) u v.

Definition elementwise2 (op : R -> R -> R) (a b : mat) : result mat :=
  broadcast (elementwise op) a b.

Definition jnp_sum (v : vec) : R := fold_right Rplus 0 v.

(** jnp.sum of a rank-2 array: every element, no axis kept. *)
Definition jnp_sum2 (a : mat) : R := jnp_sum (concat a).

Definition jnp_zeros (n : nat) : vec := repeat 0 n.

(** [a[0]] and [a[-1]] of a rank-1 array. *)
Definition first_elt (v : vec) : result R := of_option IndexError (hd_error v).
Definition last_elt (v : vec) : result R := of_option IndexError (hd_error (rev v)).

(** jnp.concatenate([ts[:, None], ys], axis=1): the time is put in front of
    each observation row; the two arrays must have as many rows. *)
Definition concatenate_time (ts : vec) (ys : mat) : result mat :=
  mapM2 (fun t y => Ok (t :: y)) ts ys.

(** jax.vmap of a one-argument function over the leading axis. *)
Definition vmap {A B} (f : A -> result B) (xs : list A) : result (list B) :=
  mapM f xs.

(** ** Layers (equinox) *)

(** eqx.nn.Linear: [weight] has one row per output feature. *)
Record Linear : Type := { weight : mat; bias : vec }.

Definition dot (u v : vec) : result R :=
  if Nat.eqb (length u) (length v)
  then Ok (jnp_sum (map (fun p => fst p * snd p) (combine u v)))
  else Raise ShapeError.

Definition Linear_call (l : Linear) (x : vec) : result vec :=
  wx <- mapM (fun row => dot row x) (weight l) ;;
  elementwise Rplus wx (bias l).

(** eqx.nn.MLP: every layer but the last is followed by [activation], the
    last one by [final_activation]. *)
Record MLP : Type :=
  { layers : list Linear; activation : R -> R; final_activation : R -> R }.

Fixpoint MLP_layers (ls : list Linear) (act fin : R -> R) (x : vec) : result vec :=
  match ls with
  | [] => Raise IndexError
  | l :: rest =>
      y <- Linear_call l x ;;
      match rest with
      | [] => Ok (map fin y)
      | _ :: _ => MLP_layers rest act fin (map act y)
      end
  end.

Definition MLP_call (m : MLP) (x : vec) : result vec :=
  MLP_layers (layers m) (activation m) (final_activation m) x.

Definition relu (x : R) : R := Rmax 0 x.
Definition identity (x : R) : R := x.

(** eqx.nn.GRUCell, kept as the callable it is: input, hidden state, new
    hidden state; [None] when equinox rejects the shapes. *)
Definition GRUCell := vec -> vec -> option vec.

(** ** The ODE solve primitive *)

(** Modelled from the spec: diffrax's solver objects and [diffeqsolve] are
    code of the repository outside this example.  The spec gives them the
    contract [solve(field, t_start, t_end, y0, initial_step_hint,
    outputTimes) -> sequence of states at outputTimes], with adaptive
    internal stepping, dense output at the requested times, and a solve
    failure when the method does not converge or runs out of steps.  A
    solver is therefore the numerical method with its vector field built
    in: [solve_at t0 t1 y0 dt0 t] is the state it reports at output time
    [t] for the problem started at [(t0, y0)] and integrated to [t1] with
    first step [dt0], or [None] when the solve fails. *)
Record AbstractSolver : Type :=
  { solve_at : R -> R -> vec -> R -> R -> option vec }.

Record SaveAt : Type := { saveat_ts : vec }.
Record Solution : Type := { sol_ys : mat }.

(** Modelled from the spec: one state per requested output time, in the
    order of the time grid; a failure at any of them fails the solve. *)
Definition diffeqsolve (solver : AbstractSolver) (t0 t1 : R) (y0 : vec) (dt0 : R)
  (saveat : SaveAt) : result Solution :=
  states <- mapM (fun t => of_option SolveFailure (solve_at solver t0 t1 y0 dt0 t))
                 (saveat_ts saveat) ;;
  Ok {| sol_ys := states |}.

(** ** Randomness and the event log *)

(** jax.random as the example uses it.  The children of a split and the
    components of a draw are functions of the key, the requested count and
    the position, so [split] and [normal] return exactly as many items as
    asked for; a permutation permutes. *)
Class PRNG (key : Type) : Type :=
  { split_child : key -> nat -> nat -> key;
    normal_at : key -> nat -> nat -> R;
    permutation : key -> list nat -> list nat;
    permutation_permutes : forall k l, Permutation (permutation k l) l }.

Inductive event (key : Type) : Type :=
| KeySplit (k : key) (n : nat)      (* jrandom.split(k, n) *)
| KeyNormal (k : key) (n : nat)     (* jrandom.normal(k, (n,)) *)
| KeyPermutation (k : key)          (* jrandom.permutation(k, _) *)
| OptimUpdate (step : Z)            (* optim.update in iteration [step] *)
| Plot (ax : nat) (step : Z).       (* the two ax.plot calls on axis [ax] *)

Arguments KeySplit {key} k n.
Arguments KeyNormal {key} k n.
Arguments KeyPermutation {key} k.
Arguments OptimUpdate {key} step.
Arguments Plot {key} ax step.

(** The key an event hands to jax.random, if any. *)
Definition consumed_key {key} (e : event key) : option key :=
  match e with
  | KeySplit k _ | KeyNormal k _ | KeyPermutation k => Some k
  | OptimUpdate _ | Plot _ _ => None
  end.

Fixpoint consumed_keys {key} (log : list (event key)) : list key :=
  match log with
  | [] => []
  | e :: log' =>
      match consumed_key e with
      | Some k => k :: consumed_keys log'
      | None => consumed_keys log'
      end
  end.

Definition is_update {key} (e : event key) : bool :=
  match e with OptimUpdate _ => true | _ => false end.

(** Computations that leave events behind: a result and the log so far. *)
Definition M (key A : Type) : Type := (result A * list (event key))%type.

Definition retM {key A} (a : A) : M key A := (Ok a, []).
Definition lift {key A} (r : result A) : M key A := (r, []).
Definition raiseM {key A} (e : exn) : M key A := (Raise e, []).
Definition emit {key} (e : event key) : M key unit := (Ok tt, [e]).

Definition bindM {key A B} (c : M key A) (k : A -> M key B) : M key B :=
  match c with
  | (Ok a, log) => let (r, log') := k a in (r, log ++ log')
  | (Raise e, log) => (Raise e, log)
  | (OutOfFuel, log) => (OutOfFuel, log)
  end.

Notation "x <~ c ;; k" := (bindM c (fun x => k))
  (at level 100, c at next level, right associativity).
Notation "' p <~ c ;; k" := (bindM c (fun x => let p := x in k))
  (at level 100, p pattern, c at next level, right associativity).

Fixpoint mapMM {key A B} (f : A -> M key B) (l : list A) : M key (list B) :=
  match l with
  | [] => retM []
  | a :: l' => b <~ f a ;; bs <~ mapMM f l' ;; retM (b :: bs)
  end.

Fixpoint for_loop {S A} (body : S -> A -> result S) (l : list A) (s : S) : result S :=
  match l with
  | [] => Ok s
  | a :: l' => s' <- body s a ;; for_loop body l' s'
  end.

Fixpoint for_loopM {key S A} (body : A -> S -> M key S) (l : list A) (s : S) : M key S :=
  match l with
  | [] => retM s
  | a :: l' => s' <~ body a s ;; for_loopM body l' s'
  end.

Section Random.
Context {key : Type} `{PRNG key}.

Definition jrandom_split (k : key) (n : nat) : M key (list key) :=
  (Ok (map (split_child k n) (seq 0 n)), [KeySplit k n]).

Definition jrandom_normal (k : key) (n : nat) : M key vec :=
  (Ok (map (normal_at k n) (seq 0 n)), [KeyNormal k n]).

Definition jrandom_permutation (k : key) (l : list nat) : M key (list nat) :=
  (Ok (permutation k l), [KeyPermutation k]).

(** [(k,) = jrandom.split(k, 1)]: the unpacking wants exactly one child. *)
Definition split_one (k : key) : M key key :=
  ks <~ jrandom_split k 1 ;;
  match ks with
  | [k'] => retM k'
  | _ => raiseM ShapeError
  end.
End Random.

(** ** The model *)

Record LatentODE : Type :=
  { solver : AbstractSolver;
    rnn_cell : GRUCell;
    hidden_to_latent : Linear;
    latent_to_hidden : MLP;
    hidden_to_data : Linear;
    hidden_size : nat;
    latent_size : nat }.

(** [_loss]: both terms are sums over every element. *)
Definition reconstruction_loss (ys pred_ys : mat) : result R :=
  diff <- elementwise2 Rminus ys pred_ys ;;
  Ok (/ 2 * jnp_sum2 (map (map (fun d => d ^ 2)) diff)).

Definition variational_loss (mean std : vec) : result R :=
  a <- elementwise Rplus (map (fun m => m ^ 2) mean) (map (fun s => s ^ 2) std) ;;
  b <- elementwise Rminus a (map (fun l => 2 * l) (map ln std)) ;;
  Ok (/ 2 * jnp_sum (map (fun x => x - 1) b)).

Definition _loss (ys pred_ys : mat) (mean std : vec) : result R :=
  reconstruction_loss <- reconstruction_loss ys pred_ys ;;
  variational_loss <- variational_loss mean std ;;
  Ok (reconstruction_loss + variational_loss).

(** Decoder of the VAE. *)
Definition _sample (self : LatentODE) (ts : vec) (latent : vec) : result mat :=
  y0 <- MLP_call (latent_to_hidden self) latent ;;
  t0 <- first_elt ts ;;
  t1 <- last_elt ts ;;
  sol <- diffeqsolve (solver self) t0 t1 y0 (4 / 10) {| saveat_ts := ts |} ;;
  vmap (Linear_call (hidden_to_data self)) (sol_ys sol).

(** Encoder of the VAE, first half of [_latent]: the rows of [data] go
    through the recurrent cell, last row first. *)
Definition _latent_hidden (self : LatentODE) (ts : vec) (ys : mat) : result vec :=
  data <- concatenate_time ts ys ;;
  for_loop (fun hidden data_i => of_option ShapeError (rnn_cell self data_i hidden))
           (rev data) (jnp_zeros (hidden_size self)).

Section Model.
Context {key : Type} `{PRNG key}.

(** Second half of [_latent]: projection and reparameterised draw. *)
Definition _latent_draw (self : LatentODE) (hidden : vec) (k : key)
  : M key (vec * vec * vec) :=
  context <~ lift (Linear_call (hidden_to_latent self) hidden) ;;
  let mean := firstn (latent_size self) context in
  let logstd := skipn (latent_size self) context in
  let std := map exp logstd in
  noise <~ jrandom_normal k (latent_size self) ;;
  scaled <~ lift (elementwise Rmult noise std) ;;
  latent <~ lift (elementwise Rplus mean scaled) ;;
  retM (latent, mean, std).

Definition _latent (self : LatentODE) (ts : vec) (ys : mat) (k : key)
  : M key (vec * vec * vec) :=
  hidden <~ lift (_latent_hidden self ts ys) ;;
  _latent_draw self hidden k.

(** Run both encoder and decoder during training. *)
Definition train (self : LatentODE) (ts : vec) (ys : mat) (k : key) : M key R :=
  ' (latent, mean, std) <~ _latent self ts ys k ;;
  pred_ys <~ lift (_sample self ts latent) ;;
  lift (_loss ys pred_ys mean std).

(** Run just the decoder during inference. *)
Definition sample (self : LatentODE) (ts : vec) (k : key) : M key mat :=
  latent <~ jrandom_normal k (latent_size self) ;;
  lift (_sample self ts latent).

(** jax.vmap of [model.train] over the batch axis of its three arguments:
    the axes must agree before anything is run. *)
Definition vmap_train (self : LatentODE) (ts_i : list vec) (ys_i : list mat)
  (keys : list key) : M key (list R) :=
  if Nat.eqb (length ts_i) (length ys_i) && Nat.eqb (length ys_i) (length keys)
  then mapMM (fun a => train self (fst (fst a)) (snd (fst a)) (snd a))
             (combine (combine ts_i ys_i) keys)
  else raiseM ShapeError.

(** jnp.mean of a rank-1 array (of an empty one jnp gives nan). *)
Definition jnp_mean (v : vec) : R := jnp_sum v / INR (length v).

(** The minibatch loss of [main] (the value [eqx.filter_value_and_grad]
    returns next to the gradient). *)
Definition loss (model : LatentODE) (ts_i : list vec) (ys_i : list mat) (key_i : key)
  : M key R :=
  let batch_size := length ts_i in
  key_i <~ jrandom_split key_i batch_size ;;
  loss <~ vmap_train model ts_i ys_i key_i ;;
  retM (jnp_mean loss).
End Model.

(** What [LatentODE.__init__] establishes about the shapes of the layers. *)
Definition Linear_shape (in_features out_features : nat) (l : Linear) : Prop :=
  length (weight l) = out_features /\
  Forall (fun row => length row = in_features) (weight l) /\
  length (bias l) = out_features.

(** [depth] hidden layers of [width_size] units between [in_size] and
    [out_size]. *)
Fixpoint MLP_layers_shape (in_size out_size width_size depth : nat)
  (ls : list Linear) : Prop :=
  match depth, ls with
  | O, [l] => Linear_shape in_size out_size l
  | S d, l :: rest =>
      Linear_shape in_size width_size l /\
      MLP_layers_shape width_size out_size width_size d rest
  | _, _ => False
  end.

Record LatentODE_shape (data_size hidden_size' latent_size' width_size depth : nat)
  (self : LatentODE) : Prop :=
  { shape_hidden_size : hidden_size self = hidden_size';
    shape_latent_size : latent_size self = latent_size';
    shape_hidden_to_latent :
      Linear_shape hidden_size' (2 * latent_size') (hidden_to_latent self);
    shape_latent_to_hidden :
      MLP_layers_shape latent_size' hidden_size' width_size depth
                       (layers (latent_to_hidden self));
    shape_hidden_to_data : Linear_shape hidden_size' data_size (hidden_to_data self) }.

(** ** The minibatch generator *)

(** Python's [l[start:stop]] for int bounds: a negative bound counts from
    the end, both bounds are clipped to the list. *)
Definition slice_bound (len i : Z) : Z :=
  if (i <? 0)%Z then Z.max 0 (i + len) else Z.min i len.

Definition py_slice {A} (l : list A) (start stop : Z) : list A :=
  let len := Z.of_nat (length l) in
  let lo := slice_bound len start in
  let hi := slice_bound len stop in
  firstn (Z.to_nat (hi - lo)) (skipn (Z.to_nat lo) l).

(** [array[batch_perm]]: the rows of [array] at the positions listed. *)
Definition take_rows {A} (array : list A) (batch_perm : list nat) : result (list A) :=
  mapM (fun i => of_option IndexError (nth_error array i)) batch_perm.

(** Where the generator [dataloader] stands between two calls of [next]. *)
Inductive loader_state (key : Type) : Type :=
| LoaderStart (k : key)
    (* created, body not entered *)
| LoaderEpoch (k : key)
    (* at the head of [while True] *)
| LoaderBatch (k : key) (perm : list nat) (start end_ : Z).
    (* at the test of [while start < dataset_size] *)

Arguments LoaderStart {key} k.
Arguments LoaderEpoch {key} k.
Arguments LoaderBatch {key} k perm start end_.

Section Dataloader.
Context {key : Type} `{PRNG key} {A B : Type}.
Variable arrays : list A * list B.
Variable batch_size : Z.

Definition dataset_size : nat := length (fst arrays).

(** One call of [next]: run the generator to its next [yield].  The two
    assignments that follow the [yield] are done before the state is
    stored.  Each move between loop heads that yields nothing costs one
    unit of fuel. *)
Fixpoint dataloader_next (fuel : nat) (st : loader_state key)
  : M key ((list A * list B) * loader_state key) :=
  match fuel with
  | O => (OutOfFuel, [])
  | S fuel' =>
      match st with
      | LoaderStart k =>
          if Nat.eqb (length (snd arrays)) dataset_size
          then dataloader_next fuel' (LoaderEpoch k)
          else raiseM AssertionError
      | LoaderEpoch k =>
          perm <~ jrandom_permutation k (seq 0 dataset_size) ;;
          k' <~ split_one k ;;
          dataloader_next fuel' (LoaderBatch k' perm 0%Z batch_size)
      | LoaderBatch k perm start end_ =>
          if (start <? Z.of_nat dataset_size)%Z
          then
            let batch_perm := py_slice perm start end_ in
            ts_b <~ lift (take_rows (fst arrays) batch_perm) ;;
            ys_b <~ lift (take_rows (snd arrays) batch_perm) ;;
            retM ((ts_b, ys_b), LoaderBatch k perm end_ (end_ + batch_size)%Z)
          else dataloader_next fuel' (LoaderEpoch k)
      end
  end.

(** The first [n] items of the generator. *)
Fixpoint dataloader_take (fuel : nat) (n : nat) (st : loader_state key)
  : M key (list (list A * list B) * loader_state key) :=
  match n with
  | O => retM ([], st)
  | S n' =>
      ' (batch, st') <~ dataloader_next fuel st ;;
      ' (batches, st'') <~ dataloader_take fuel n' st' ;;
      retM (batch :: batches, st'')
  end.
End Dataloader.

(** ** The training loop of [main] *)

Definition py_floordiv (a b : Z) : result Z :=
  if (b =? 0)%Z then Raise ZeroDivisionError else Ok (a / b)%Z.

Definition py_mod (a b : Z) : result Z :=
  if (b =? 0)%Z then Raise ZeroDivisionError else Ok (a mod b)%Z.

Definition range (n : Z) : list Z := map Z.of_nat (seq 0 (Z.to_nat n)).

Definition jnp_linspace (start stop : R) (num : nat) : vec :=
  map (fun i => start + INR i * ((stop - start) / INR (num - 1))) (seq 0 num).

(** [num_plots] as [main] computes it before the loop. *)
Definition num_plots (steps save_every : Z) : result Z :=
  q <- py_floordiv (steps - 1) save_every ;;
  r <- py_mod (steps - 1) save_every ;;
  Ok (if (r =? 0)%Z then 1 + q else 1 + q + 1)%Z.

(** The test that guards the plotting branch. *)
Definition plot_step (steps save_every step : Z) : bool :=
  ((step mod save_every =? 0) || (step =? steps - 1))%Z.

Section Main.
Context {key : Type} `{PRNG key}.

(** Gradients, optimizer (optax.adam) and parameter update are outside
    the example and enter as they are called. *)
Variables Grads OptState : Type.
Variable loss_grad : LatentODE -> list vec -> list mat -> key -> Grads.
Variable optim_update : Grads -> OptState -> Grads * OptState.
Variable apply_updates : LatentODE -> Grads -> LatentODE.

Variable dataset : list vec * list mat.
Variable batch_size : Z.
Variables steps save_every : Z.
Variable sample_key : key.

(** The variables the loop body reassigns. *)
Record loop_state : Type :=
  { model : LatentODE;
    opt_state : OptState;
    train_key : key;
    axs : list nat;                 (* the iterator over the axes *)
    loader : loader_state key }.    (* the generator zip draws from *)

(** One iteration: [zip] draws the minibatch, then the body runs. *)
Definition main_step (fuel : nat) (step : Z) (st : loop_state) : M key loop_state :=
  ' (batch, loader') <~ dataloader_next dataset batch_size fuel (loader st) ;;
  let ts_i := fst batch in
  let ys_i := snd batch in
  value <~ loss (model st) ts_i ys_i (train_key st) ;;
  let grads := loss_grad (model st) ts_i ys_i (train_key st) in
  train_key' <~ split_one (train_key st) ;;
  let (updates, opt_state') := optim_update grads (opt_state st) in
  _ <~ emit (OptimUpdate step) ;;
  let model' := apply_updates (model st) updates in
  if plot_step steps save_every step
  then
    match axs st with
    | [] => raiseM StopIteration
    | ax :: axs' =>
        let sample_t := jnp_linspace 0 12 300 in
        sample_y <~ sample model' sample_t sample_key ;;
        _ <~ emit (Plot ax step) ;;
        retM {| model := model'; opt_state := opt_state'; train_key := train_key';
                axs := axs'; loader := loader' |}
    end
  else
    retM {| model := model'; opt_state := opt_state'; train_key := train_key';
            axs := axs st; loader := loader' |}.

(** From the computation of [num_plots] to the end of the [for] loop. *)
Definition main_loop (fuel : nat) (model0 : LatentODE) (opt_state0 : OptState)
  (loader_key train_key0 : key) : M key loop_state :=
  n <~ lift (num_plots steps save_every) ;;
  let axs0 := seq 0 (Z.to_nat n) in
  for_loopM (main_step fuel) (range steps)
    {| model := model0; opt_state := opt_state0; train_key := train_key0;
       axs := axs0; loader := LoaderStart loader_key |}.
End Main.

(** ** Specification-side definitions *)

Definition zip_with {A B C} (f : A -> B -> C) (xs : list A) (ys : list B) : list C :=
  map (fun p => f (fst p) (snd p)) (combine xs ys).

(** A sum over the paired-off elements of two vectors, and of two arrays
    of rank 2. *)
Fixpoint sum_over (f : R -> R -> R) (u v : vec) : R :=
  match u, v with
  | a :: u', b :: v' => f a b + sum_over f u' v'
  | _, _ => 0
  end.

Fixpoint sum_over2 (f : R -> R -> R) (a b : mat) : R :=
  match a, b with
  | r :: a', s :: b' => sum_over f r s + sum_over2 f a' b'
  | _, _ => 0
  end.

Definition same_shape (a b : mat) : Prop :=
  Forall2 (fun r s => length r = length s) a b.

(** The loss as the spec words it. *)
Definition squared_error (y pred : R) : R := (y - pred) ^ 2.
Definition kl_term (mean std : R) : R := mean ^ 2 + std ^ 2 - 2 * ln std - 1.

Definition loss_spec (ys pred_ys : mat) (mean std : vec) : R :=
  / 2 * sum_over2 squared_error ys pred_ys + / 2 * sum_over kl_term mean std.

(** The encoder as the spec words it: the summary of a trajectory is the
    cell applied to its first (time, observation) pair, time in front, and
    to the summary of the pairs after it; with no pair left it is the
    initial state.  The last pair is thus the first to meet the cell. *)
Fixpoint encoder_spec (cell : GRUCell) (h0 : vec) (ts : vec) (ys : mat) : result vec :=
  match ts, ys with
  | [], [] => Ok h0
  | t :: ts', y :: ys' =>
      later <- encoder_spec cell h0 ts' ys' ;;
      of_option ShapeError (cell (t :: y) later)
  | _, _ => Raise ShapeError
  end.

(** The solver side of the decoder's guarantee: on a strictly increasing
    grid the solve succeeds and its states have the dimension of [y0]. *)
Definition solver_succeeds (s : AbstractSolver) : Prop :=
  forall t0 t1 y0 dt0 ts,
    StronglySorted Rlt ts -> first_elt ts = Ok t0 -> last_elt ts = Ok t1 ->
    Forall (fun t => exists y, solve_at s t0 t1 y0 dt0 t = Some y /\ length y = length y0) ts.

(** The [i]-th batch of an epoch shuffled as [perm]. *)
Definition chunk_at {A} (b : nat) (perm : list A) (i : nat) : list A :=
  firstn b (skipn (i * b) perm).

Definition batches_per_epoch (n b : nat) : nat := (n + b - 1) / b.

Definition chunks {A} (b : nat) (perm : list A) : list (list A) :=
  map (chunk_at b perm) (seq 0 (batches_per_epoch (length perm) b)).

(** The states from which the next item drawn opens the epoch shuffled
    with key [k]: the generator has not started, or stands at the head of
    its outer loop, or its last epoch has no batch left. *)
Definition epoch_boundary {key A B} (arrays : list A * list B)
  (st : loader_state key) (k : key) : Prop :=
  match st with
  | LoaderStart k' | LoaderEpoch k' => k' = k
  | LoaderBatch k' _ start _ => k' = k /\ (Z.of_nat (dataset_size arrays) <= start)%Z
  end.

(** A yielded batch holds the rows of both arrays at the positions [idx]. *)
Definition batch_rows {A B} (arrays : list A * list B) (batch : list A * list B)
  (idx : list nat) : Prop :=
  take_rows (fst arrays) idx = Ok (fst batch) /\
  take_rows (snd arrays) idx = Ok (snd batch).

(** A result that is neither a divergence nor a [StopIteration]; a log
    that records nothing but uses of keys. *)
Definition benign {A} (r : result A) : Prop :=
  match r with
  | Ok _ => True
  | Raise e => e <> StopIteration
  | OutOfFuel => False
  end.

Definition only_keys {key} (log : list (event key)) : Prop :=
  Forall (fun e => consumed_key e <> None) log.

Definition benignM {key A} (c : M key A) : Prop :=
  benign (fst c) /\ only_keys (snd c).

(** A computation that does not raise [StopIteration] (it may run out of
    fuel) and logs nothing but uses of keys. *)
Definition never_stops {key A} (c : M key A) : Prop :=
  fst c <> Raise StopIteration /\ only_keys (snd c).

(** The optimizer updates a log records, in order. *)
Definition updates_of {key} (log : list (event key)) : list (event key) :=
  filter is_update log.

(** ** Concrete instances *)

(** Keys as paths in the tree of splits: a child records the width of the
    split and its position.  Distinct paths are distinct keys. *)
Definition path_key : Type := list (nat * nat).

#[export] Instance path_prng : PRNG path_key :=
  {| split_child k n i := (n, i) :: k;
     normal_at k n i := match k with (_, j) :: _ => INR j | [] => 0 end;
     permutation k l := rev l;
     permutation_permutes k l := Permutation_sym (Permutation_rev l) |}.

(** The solver of the zero vector field: the state never moves. *)
Definition constant_solver : AbstractSolver :=
  {| solve_at _ _ y0 _ _ := Some y0 |}.

(** A model with one unit everywhere: posterior mean 0 and log-std 0
    whatever the summary, identity decoder. *)
Definition small_model : LatentODE :=
  {| solver := constant_solver;
     rnn_cell := fun _ hidden => Some hidden;
     hidden_to_latent := {| weight := [[0]; [0]]; bias := [0; 0] |};
     latent_to_hidden :=
       {| layers := [ {| weight := [[1]]; bias := [0] |} ];
          activation := relu; final_activation := identity |};
     hidden_to_data := {| weight := [[1]]; bias := [0] |};
     hidden_size := 1;
     latent_size := 1 |}.

(** A frozen optimizer: the gradient carries nothing and the update
    leaves the model as it is (a learning rate of 0). *)
Definition frozen_grad (_ : LatentODE) (_ : list vec) (_ : list mat) (_ : path_key)
  : unit := tt.
Definition frozen_update (g s : unit) : unit * unit := (g, s).
Definition frozen_apply (m : LatentODE) (_ : unit) : LatentODE := m.

(** One trajectory of two observations of dimension 1. *)
Definition small_dataset : list vec * list mat := ([[0; 1]], [[[0]; [0]]]).

(** The training loop on [small_model] with batches of one trajectory;
    the three keys are the children [main] takes from its five-way split
    of the root key. *)
Definition small_run (dataset : list vec * list mat) (steps save_every : Z)
  (fuel : nat) : M path_key (loop_state unit) :=
  main_loop frozen_grad frozen_update frozen_apply dataset 1 steps save_every
            [(5, 4)%nat] fuel small_model tt [(5, 2)%nat] [(5, 3)%nat].

(** The variables of the loop before the first iteration of [small_run]
    with two axes. *)
Definition small_state : loop_state unit :=
  {| model := small_model; opt_state := tt; train_key := [(5, 3)%nat];
     axs := [0; 1]%nat; loader := LoaderStart [(5, 2)%nat] |}.

(** ** The rest of the example *)

(** *** The vector field *)

(** jax.nn.softplus. *)
Definition softplus (x : R) : R := ln (1 + exp x).

Record Func : Type := { scale : R; mlp : MLP }.

(** [Func.__call__]: neither the time nor [args] is looked at. *)
Definition Func_call (self : Func) (t : R) (y : vec) (args : unit) : result vec :=
  out <- MLP_call (mlp self) y ;;
  Ok (map (fun v => scale self * v) out).

(** *** Building the model *)

(** A recurrent cell that takes inputs of [input_size] entries and keeps
    a hidden state of [hidden_size'] entries. *)
Definition cell_keeps_shape (cell : GRUCell) (input_size hidden_size' : nat) : Prop :=
  forall x h,
    length x = input_size -> length h = hidden_size' ->
    exists h', cell x h = Some h' /\ length h' = hidden_size'.

Section Init.
Context {key : Type} `{PRNG key}.

(** The constructors of equinox, as [__init__] calls them. *)
Variable Linear_init : nat -> nat -> key -> Linear.
Variable MLP_init : nat -> nat -> nat -> nat -> (R -> R) -> (R -> R) -> key -> MLP.
Variable GRUCell_init : nat -> nat -> key -> GRUCell.

(** Modelled from the spec: [diffrax.dopri5], the order-5 Dormand-Prince
    solver of a vector field, is code of the repository outside this
    example; it enters as the map from the field to its solver. *)
Variable dopri5 : Func -> AbstractSolver.

(** [LatentODE.__init__]. *)
Definition LatentODE_init (data_size hidden_size latent_size width_size depth : nat)
  (k : key) : M key LatentODE :=
  ks <~ jrandom_split k 5 ;;
  match ks with
  | [mkey; gkey; hlkey; lhkey; hdkey] =>
      let scale := 1 in
      let mlp := MLP_init hidden_size hidden_size width_size depth softplus tanh mkey in
      retM {| solver := dopri5 {| scale := scale; mlp := mlp |};
              rnn_cell := GRUCell_init (data_size + 1) hidden_size gkey;
              hidden_to_latent := Linear_init hidden_size (2 * latent_size) hlkey;
              latent_to_hidden :=
                MLP_init latent_size hidden_size width_size depth relu identity lhkey;
              hidden_to_data := Linear_init hidden_size data_size hdkey;
              hidden_size := hidden_size;
              latent_size := latent_size |}
  | _ => raiseM ShapeError
  end.

(** What the constructors of equinox promise about shapes. *)
Definition Linear_init_shapes : Prop :=
  forall i o k, Linear_shape i o (Linear_init i o k).

Definition MLP_init_shapes : Prop :=
  forall i o w d act fin k,
    MLP_layers_shape i o w d (layers (MLP_init i o w d act fin k))
    /\ activation (MLP_init i o w d act fin k) = act
    /\ final_activation (MLP_init i o w d act fin k) = fin.

Definition GRUCell_init_shapes : Prop :=
  forall i h k, cell_keeps_shape (GRUCell_init i h k) i h.
End Init.

(** *** The toy dataset *)

(** jax.random.uniform with its default range: every draw is in [0, 1). *)
Class Uniform (key : Type) : Type :=
  { uniform_at : key -> nat -> nat -> R;
    uniform_range : forall k n i, 0 <= uniform_at k n i < 1 }.

(** jnp.sort along the last axis, as an insertion sort. *)
Fixpoint sort_insert (x : R) (l : vec) : vec :=
  match l with
  | [] => [x]
  | y :: l' => if Rle_dec x y then x :: y :: l' else y :: sort_insert x l'
  end.

Definition jnp_sort (v : vec) : vec := fold_right sort_insert [] v.

(** The field of the decaying oscillator, [A @ y]. *)
Definition func (t : R) (y : vec) (args : unit) : result vec :=
  mapM (fun row => dot row y) [[- (1 / 10); 13 / 10]; [- 1; - (1 / 10)]].

Section GetData.
Context {key : Type} `{PRNG key} `{Uniform key}.

(** Modelled from the spec: [diffrax.tsit5], the cheaper order-5 solver
    used for the synthetic data, is code of the repository outside this
    example; it enters as the map from the field to its solver. *)
Variable tsit5 : (R -> vec -> unit -> result vec) -> AbstractSolver.

(** A draw of shape (rows, cols) is the flat draw of [rows * cols] items,
    one row after the other. *)
Definition draw2 (at_ : key -> nat -> nat -> R) (k : key) (rows cols : nat) : mat :=
  map (fun i => map (fun j => at_ k (rows * cols)%nat (i * cols + j)%nat) (seq 0 cols))
      (seq 0 rows).

Definition solve (ts : vec) (y0 : vec) : result mat :=
  t_first <- first_elt ts ;;
  t_last <- last_elt ts ;;
  sol <- diffeqsolve (tsit5 func) t_first t_last y0 (1 / 10) {| saveat_ts := ts |} ;;
  Ok (sol_ys sol).

(** [get_data]; the keys it hands to jax.random are not logged. *)
Definition get_data (dataset_size : nat) (k : key) : result (list vec * list mat) :=
  match map (split_child k 3) (seq 0 3) with
  | [ykey; tkey1; tkey2] =>
      let y0 := draw2 normal_at ykey dataset_size 2 in
      let t0 := 0 in
      let t1 := map (fun i => 2 + uniform_at tkey1 dataset_size i) (seq 0 dataset_size) in
      scaled <- elementwise2 Rmult (draw2 uniform_at tkey2 dataset_size 20)
                             (map (fun t => [t - t0]) t1) ;;
      let ts := map (map (fun x => x + t0)) scaled in
      let ts := map jnp_sort ts in
      ys <- mapM2 solve ts y0 ;;
      Ok (ts, ys)
  | _ => Raise ShapeError
  end.
End GetData.

(** *** More specification-side definitions *)

(** What makes a solve of [get_data] fail: the solver reports no state at
    some output time. *)
Definition solver_gives_up (s : AbstractSolver) : Prop :=
  exists t0 t1 y0 dt0 t, solve_at s t0 t1 y0 dt0 t = None.

Definition is_plot {key} (e : event key) : bool :=
  match e with Plot _ _ => true | _ => false end.

(** The plots a log records, in order. *)
Definition plots_of {key} (log : list (event key)) : list (event key) :=
  filter is_plot log.

(** What holds of the generator between any two calls of [next] when
    [batch_size] is positive: the permutation of the current epoch is one
    of the positions of the dataset, and the next block starts at a
    multiple of [batch_size]. *)
Definition loader_inv {key A B} (arrays : list A * list B) (batch_size : Z)
  (st : loader_state key) : Prop :=
  match st with
  | LoaderStart _ | LoaderEpoch _ => True
  | LoaderBatch _ perm start end_ =>
      Permutation perm (seq 0 (dataset_size arrays))
      /\ (exists i, start = Z.of_nat (i * Z.to_nat batch_size))
      /\ end_ = (start + batch_size)%Z
  end.

(** A batch of between 1 and [batch_size] distinct rows of the dataset,
    the same ones from both arrays. *)
Definition proper_batch {A B} (arrays : list A * list B) (batch_size : Z)
  (batch : list A * list B) : Prop :=
  exists idx,
    batch_rows arrays batch idx
    /\ NoDup idx
    /\ Forall (fun j => (j < dataset_size arrays)%nat) idx
    /\ (1 <= length idx)%nat
    /\ (Z.of_nat (length idx) <= batch_size)%Z.

(** The solve of [_sample] on the grid [ts] succeeds from every initial
    state of dimension [n], with the first step [dt0], and gives states of
    dimension [n].  Nothing is asked of the solver on a state of another
    dimension, another first step or another grid. *)
Definition solves_on (s : AbstractSolver) (n : nat) (dt0 : R) (ts : vec) : Prop :=
  forall t0 t1 y0,
    first_elt ts = Ok t0 -> last_elt ts = Ok t1 -> length y0 = n ->
    Forall (fun t => exists y, solve_at s t0 t1 y0 dt0 t = Some y /\ length y = n) ts.

(** One example of the dataset as [train] needs it: at least one time and
    as many observations of dimension [data_size]. *)
Definition trajectory (data_size : nat) (ts : vec) (ys : mat) : Prop :=
  ts <> [] /\ length ys = length ts /\ Forall (fun y => length y = data_size) ys.

(** A model every method of which can run on the grids [grids]:
    consistent shapes, a cell that keeps them, and a solver whose solves
    from states of dimension [hidden_size] succeed on these grids with the
    first step 0.4 of [_sample]. *)
Definition model_ready (data_size hidden_size' latent_size' width_size depth : nat)
  (grids : vec -> Prop) (m : LatentODE) : Prop :=
  LatentODE_shape data_size hidden_size' latent_size' width_size depth m
  /\ cell_keeps_shape (rnn_cell m) (S data_size) hidden_size'
  /\ forall ts, grids ts -> solves_on (solver m) hidden_size' (4 / 10) ts.

(** The grids a run of [main] solves on: the rows of times of the dataset
    and the grid of the plots. *)
Definition main_grids (dataset : list vec * list mat) (ts : vec) : Prop :=
  In ts (fst dataset) \/ ts = jnp_linspace 0 12 300.

(** [a[:, j]] of a rank-2 array with at least one row. *)
Definition column (a : mat) (j : nat) : result vec :=
  mapM (fun row => of_option IndexError (nth_error row j)) a.

(** The keys of the first [e] epochs of a generator created with [k]:
    each epoch leaves the only child of a one-way split of its key to the
    next one. *)
Fixpoint epoch_keys {key} `{PRNG key} (k : key) (e : nat) : list key :=
  match e with
  | O => []
  | S e' => k :: epoch_keys (split_child k 1 0) e'
  end.

(** Where the generator stands after its first item when [batch_size] is
    not positive: inside the first epoch, at a block that is empty. *)
Definition stalled {key} (batch_size : Z) (st : loader_state key) : Prop :=
  match st with
  | LoaderStart _ | LoaderEpoch _ => False
  | LoaderBatch _ _ start end_ =>
      ((start < 0 /\ end_ <= start) \/ (start = 0 /\ end_ = 0 /\ batch_size = 0))%Z
  end.

(** A uniform source for the concrete instances: every draw is 0. *)
#[export] Instance path_uniform : Uniform path_key :=
  {| uniform_at _ _ _ := 0;
     uniform_range _ _ _ := conj (Rle_refl 0) Rlt_0_1 |}.

(** Layers of the requested shapes with all weights 0, a cell that keeps
    its state, and the solver that does not move, for any field. *)
Definition zero_Linear (i o : nat) (_ : path_key) : Linear :=
  {| weight := repeat (repeat 0 i) o; bias := repeat 0 o |}.

Fixpoint zero_layers (i o w d : nat) : list Linear :=
  match d with
  | O => [zero_Linear i o []]
  | S d' => zero_Linear i w [] :: zero_layers w o w d'
  end.

Definition zero_MLP (i o w d : nat) (act fin : R -> R) (_ : path_key) : MLP :=
  {| layers := zero_layers i o w d; activation := act; final_activation := fin |}.

Definition keep_cell (i h : nat) (_ : path_key) : GRUCell :=
  fun x hidden =>
    if Nat.eqb (length x) i && Nat.eqb (length hidden) h then Some hidden else None.

Definition still_solver {F : Type} (_ : F) : AbstractSolver := constant_solver.

(** A solver that evaluates its field at the initial state and then
    does not move: like the solvers of diffrax it fails where its field
    does, on a state of a dimension the field is not built for. *)
Definition field_solver (f : Func) : AbstractSolver :=
  {| solve_at t0 _ y0 _ _ :=
       match Func_call f t0 y0 tt with Ok _ => Some y0 | _ => None end |}.

(** The model [__init__] builds for [data_size = 2], [hidden_size = 2],
    [latent_size = 1], [width_size = 3], [depth = 1] from constructors
    that set every weight to 0, with [field_solver] for the solver. *)
Definition checked_model : LatentODE :=
  {| solver := field_solver {| scale := 1; mlp := zero_MLP 2 2 3 1 softplus tanh [] |};
     rnn_cell := keep_cell 3 2 [];
     hidden_to_latent := zero_Linear 2 2 [];
     latent_to_hidden := zero_MLP 1 2 3 1 relu identity [];
     hidden_to_data := zero_Linear 2 2 [];
     hidden_size := 2;
     latent_size := 1 |}.

(** One trajectory of two observations of dimension 2. *)
Definition checked_dataset : list vec * list mat := ([[0; 1]], [[[0; 0]; [0; 0]]]).

(** ** float32 at the ends of the range of [exp] *)

(** What a float32 operation returns: a finite value, kept as the real it
    stands for, an infinity or a nan. *)
Inductive float32 : Type :=
| Finite (x : R)
| Infinity (negative : bool)
| NaN.

(** [0 < s] on float32. *)
Definition positive32 (s : float32) : Prop :=
  match s with
  | Finite x => 0 < x
  | Infinity negative => negative = false
  | NaN => False
  end.

(** [jnp.exp] on float32, kept as the library function it is, with what
    the binary32 format fixes of it.  The smallest positive float32 is
    2^-149, about 1.4e-45, and [exp (-104)] is below half of it: from
    -104 down the result is 0.0.  The largest finite float32 is about
    3.4e38, below [exp 89]: from 89 up the result is inf.  From -87 up the
    result is at least the smallest normal number, and up to 88 it is
    finite. *)
Class Exp32 : Type :=
  { exp32 : R -> float32;
    exp32_underflow : forall x, x <= -104 -> exp32 x = Finite 0;
    exp32_overflow : forall x, 89 <= x -> exp32 x = Infinity false;
    exp32_positive : forall x, -87 <= x -> positive32 (exp32 x);
    exp32_finite : forall x, x <= 88 -> exists y, exp32 x = Finite y /\ 0 <= y }.

(** [a * b] and [a + b] on float32 for a finite [a]: zero times an
    infinity is a nan, anything else times an infinity an infinity of the
    product's sign; an infinity or a nan added to a finite value stays. *)
Definition mul32 (a : R) (b : float32) : float32 :=
  match b with
  | Finite y => Finite (a * y)
  | Infinity negative =>
      if Req_dec_T a 0 then NaN
      else Infinity (if Rlt_dec a 0 then negb negative else negative)
  | NaN => NaN
  end.

Definition add32 (a : R) (b : float32) : float32 :=
  match b with
  | Finite y => Finite (a + y)
  | Infinity negative => Infinity negative
  | NaN => NaN
  end.

(** The last two assignments of [_latent] on float32:
    [std = jnp.exp(logstd)] and [latent = mean + noise * std]. *)
Definition std32 `{Exp32} (logstd : vec) : list float32 := map exp32 logstd.

Definition latent32 (mean noise : vec) (std : list float32) : list float32 :=
  zip_with add32 mean (zip_with mul32 noise std).

(** An [exp] that is exact between the two ends. *)
Definition threshold_exp (x : R) : float32 :=
  if Rle_dec x (-104) then Finite 0
  else if Rle_dec 89 x then Infinity false
  else Finite (exp x).

#[export] Instance threshold_exp32 : Exp32.
Proof.
  refine {| exp32 := threshold_exp |}; intros x Hx; unfold threshold_exp.
  - destruct (Rle_dec x (-104)); [reflexivity|contradiction].
  - destruct (Rle_dec x (-104)); [lra|].
    destruct (Rle_dec 89 x); [reflexivity|contradiction].
  - destruct (Rle_dec x (-104)); [lra|].
    destruct (Rle_dec 89 x); [reflexivity|apply exp_pos].
  - destruct (Rle_dec x (-104)); [exists 0; split; [reflexivity|lra]|].
    destruct (Rle_dec 89 x); [lra|].
    exists (exp x). split; [reflexivity|]. left. apply exp_pos.
Defined.

(** A projection to mean 0 and log-std [b], whatever the summary. *)
Definition biased_projection (b : R) : Linear :=
  {| weight := [[0]; [0]]; bias := [0; b] |}.

(** * Properties *)

(** ** Arrays: elementwise operations on operands of equal shape *)

Lemma length_zip_with {A B C} (f : A -> B -> C) xs ys :
  length xs = length ys -> length (zip_with f xs ys) = length xs.
Proof.
  intros E. unfold zip_with. rewrite length_map, length_combine, <- E.
  apply Nat.min_id.
Qed.

Lemma mapM2_pure {A B C} (g : A -> B -> C) xs ys :
  length xs = length ys ->
  mapM2 (fun a b => Ok (g a b)) xs ys = Ok (zip_with g xs ys).
Proof.
  revert ys. induction xs as [|x xs IH]; intros [|y ys] E; try discriminate.
  - reflexivity.
  - simpl in *. rewrite IH by congruence. reflexivity.
Qed.

Lemma elementwise_same_length op u v :
  length u = length v -> elementwise op u v = Ok (zip_with op u v).
Proof.
  intros E. unfold elementwise, broadcast.
  rewrite (proj2 (Nat.eqb_eq _ _) E). now apply mapM2_pure.
Qed.

Lemma same_shape_length a b : same_shape a b -> length a = length b.
Proof. induction 1; simpl; congruence. Qed.

Lemma elementwise2_same_shape op a b :
  same_shape a b -> elementwise2 op a b = Ok (zip_with (zip_with op) a b).
Proof.
  intros S. unfold elementwise2, broadcast.
  rewrite (proj2 (Nat.eqb_eq _ _) (same_shape_length S)).
  induction S as [|r s a b E S IH]; [reflexivity|].
  simpl. rewrite (elementwise_same_length op _ _ E). simpl.
  rewrite IH. reflexivity.
Qed.

Lemma jnp_sum_app u v : jnp_sum (u ++ v) = jnp_sum u + jnp_sum v.
Proof.
  induction u as [|a u IH]; simpl.
  - lra.
  - unfold jnp_sum in *. simpl. rewrite IH. lra.
Qed.

Lemma jnp_sum_zip_with (f : R -> R -> R) (g : R -> R) u v :
  jnp_sum (map g (zip_with f u v)) = sum_over (fun a b => g (f a b)) u v.
Proof.
  revert v. induction u as [|a u IH]; intros [|b v]; try reflexivity.
  unfold zip_with, jnp_sum in *. simpl. now rewrite IH.
Qed.

Lemma jnp_sum2_zip_with (f : R -> R -> R) (g : R -> R) a b :
  jnp_sum2 (map (map g) (zip_with (zip_with f) a b))
  = sum_over2 (fun x y => g (f x y)) a b.
Proof.
  revert b. induction a as [|r a IH]; intros [|s b]; try reflexivity.
  unfold jnp_sum2 in *. unfold zip_with at 1. simpl.
  rewrite jnp_sum_app. fold (zip_with f r s).
  rewrite jnp_sum_zip_with. f_equal. apply IH.
Qed.

Lemma reconstruction_loss_eq ys pred_ys :
  same_shape ys pred_ys ->
  reconstruction_loss ys pred_ys = Ok (/ 2 * sum_over2 squared_error ys pred_ys).
Proof.
  intros S. unfold reconstruction_loss.
  rewrite (elementwise2_same_shape Rminus S). simpl.
  now rewrite jnp_sum2_zip_with.
Qed.

Lemma sum_over_ext (f g : R -> R -> R) u v :
  (forall a b, f a b = g a b) -> sum_over f u v = sum_over g u v.
Proof.
  intros E. revert v. induction u as [|a u IH]; intros [|b v]; try reflexivity.
  simpl. now rewrite E, IH.
Qed.

Lemma variational_loss_eq mean std :
  length mean = length std ->
  variational_loss mean std = Ok (/ 2 * sum_over kl_term mean std).
Proof.
  intros E. unfold variational_loss.
  rewrite elementwise_same_length by (now rewrite !length_map). simpl.
  rewrite elementwise_same_length
    by (rewrite length_zip_with; rewrite !length_map; congruence). simpl.
  do 2 f_equal.
  revert std E. induction mean as [|m mean IH]; intros [|s std] E;
    try discriminate; [reflexivity|].
  unfold zip_with, jnp_sum in *. simpl.
  rewrite IH by (simpl in E; congruence). unfold kl_term. lra.
Qed.

(** C4: on operands of matching shapes, [_loss] returns half the sum of
    the squared errors over every element of the trajectory plus half the
    sum of [mean^2 + std^2 - 2 log std - 1] over every latent component;
    both are sums, not averages. *)
Theorem _loss_sums ys pred_ys mean std :
  same_shape ys pred_ys -> length mean = length std ->
  _loss ys pred_ys mean std = Ok (loss_spec ys pred_ys mean std).
Proof.
  intros S E. unfold _loss.
  rewrite (reconstruction_loss_eq S), (variational_loss_eq _ _ E).
  reflexivity.
Qed.

Lemma _loss_sums_witness :
  _loss [[1; 2]; [3; 4]] [[1; 1]; [1; 1]] [0; 1] [1; 1]
  = Ok (loss_spec [[1; 2]; [3; 4]] [[1; 1]; [1; 1]] [0; 1] [1; 1])
  /\ loss_spec [[1; 2]; [3; 4]] [[1; 1]; [1; 1]] [0; 1] [1; 1] = 15 / 2.
Proof.
  split.
  - apply _loss_sums.
    + repeat constructor.
    + reflexivity.
  - unfold loss_spec, squared_error, kl_term. simpl. rewrite ln_1. lra.
Defined.

(** C5: with a zero posterior mean and a unit posterior standard deviation
    in every component, the KL term is exactly 0. *)
Theorem variational_loss_standard_normal (n : nat) :
  variational_loss (jnp_zeros n) (repeat 1 n) = Ok 0.
Proof.
  rewrite variational_loss_eq by (unfold jnp_zeros; now rewrite !repeat_length).
  f_equal. enough (sum_over kl_term (jnp_zeros n) (repeat 1 n) = 0) as -> by lra.
  induction n as [|n IH]; [reflexivity|].
  unfold jnp_zeros in *. simpl. rewrite IH. unfold kl_term. rewrite ln_1. lra.
Qed.

(** ** The encoder *)

Lemma for_loop_app {S A} (body : S -> A -> result S) l1 l2 s :
  for_loop body (l1 ++ l2) s = (s' <- for_loop body l1 s ;; for_loop body l2 s').
Proof.
  revert s. induction l1 as [|a l1 IH]; intros s; simpl; [reflexivity|].
  destruct (body s a); simpl; auto.
Qed.

Lemma bind_Ok_r {A} (r : result A) : (a <- r ;; Ok a) = r.
Proof. now destruct r. Qed.

Lemma concatenate_time_cons t ts y ys :
  concatenate_time (t :: ts) (y :: ys)
  = (data <- concatenate_time ts ys ;; Ok ((t :: y) :: data)).
Proof. reflexivity. Qed.

Lemma _latent_hidden_cons self t ts y ys :
  _latent_hidden self (t :: ts) (y :: ys)
  = (later <- _latent_hidden self ts ys ;;
     of_option ShapeError (rnn_cell self (t :: y) later)).
Proof.
  unfold _latent_hidden. rewrite concatenate_time_cons.
  destruct (concatenate_time ts ys) as [data| |]; simpl; try reflexivity.
  rewrite for_loop_app. simpl.
  destruct (for_loop _ (rev data) _); simpl; try reflexivity.
  apply bind_Ok_r.
Qed.

(** C7: the encoder feeds the cell the rows [time :: observation], starts
    from the zero vector of dimension [hidden_size], meets the pairs from
    the last to the first, and hands the final hidden state to the latent
    projection as the summary of the trajectory. *)
Theorem _latent_encoder {key} `{PRNG key} (self : LatentODE) (ts : vec) (ys : mat) :
  _latent_hidden self ts ys
  = encoder_spec (rnn_cell self) (repeat 0 (hidden_size self)) ts ys
  /\ forall k : key,
      _latent self ts ys k
      = (summary <~ lift (encoder_spec (rnn_cell self) (repeat 0 (hidden_size self)) ts ys) ;;
         _latent_draw self summary k).
Proof.
  assert (E : _latent_hidden self ts ys
              = encoder_spec (rnn_cell self) (repeat 0 (hidden_size self)) ts ys).
  { revert ys. induction ts as [|t ts IH]; intros [|y ys]; try reflexivity.
    rewrite _latent_hidden_cons, IH. reflexivity. }
  split; [exact E|]. intros k. unfold _latent. now rewrite E.
Qed.

(** ** Layers on inputs of the right dimension *)

Lemma mapM_length {A B} (f : A -> result B) l out :
  mapM f l = Ok out -> length out = length l.
Proof.
  revert out. induction l as [|a l IH]; simpl; intros out E.
  - now inversion E.
  - destruct (f a); simpl in E; try discriminate.
    destruct (mapM f l); simpl in E; try discriminate.
    inversion E; subst. simpl. f_equal. now apply IH.
Qed.

Lemma mapM_Forall_ok {A B} (f : A -> result B) (P : B -> Prop) l :
  Forall (fun a => exists b, f a = Ok b /\ P b) l ->
  exists out, mapM f l = Ok out /\ length out = length l /\ Forall P out.
Proof.
  induction 1 as [|a l (b & Eb & Pb) _ (out & Eo & Lo & Po)].
  - exists []. repeat split; constructor.
  - exists (b :: out). simpl. rewrite Eb, Eo. simpl. repeat split; auto.
Qed.

Lemma Linear_call_shape n_in n_out l x :
  Linear_shape n_in n_out l -> length x = n_in ->
  exists y, Linear_call l x = Ok y /\ length y = n_out.
Proof.
  intros (Hw & Hrows & Hb) Hx. unfold Linear_call.
  destruct (@mapM_Forall_ok vec R (fun row => dot row x) (fun _ => True) (weight l))
    as (wx & Ewx & Lwx & _).
  { eapply Forall_impl; [|exact Hrows]. intros row Hrow. unfold dot.
    rewrite (proj2 (Nat.eqb_eq _ _)) by congruence. eauto. }
  rewrite Ewx. simpl.
  rewrite elementwise_same_length by congruence.
  eexists; split; [reflexivity|]. rewrite length_zip_with; congruence.
Qed.

Lemma MLP_layers_call_shape act fin depth :
  forall n_in n_out width ls x,
    MLP_layers_shape n_in n_out width depth ls -> length x = n_in ->
    exists y, MLP_layers ls act fin x = Ok y /\ length y = n_out.
Proof.
  induction depth as [|d IH]; intros n_in n_out width ls x S Hx.
  - destruct ls as [|l [|l' rest]]; simpl in S; try contradiction.
    destruct (Linear_call_shape x S Hx) as (y & Ey & Ly).
    simpl. rewrite Ey. simpl. eexists; split; [reflexivity|].
    now rewrite length_map.
  - destruct ls as [|l rest]; simpl in S; try contradiction.
    destruct S as (Sl & Srest).
    destruct (Linear_call_shape x Sl Hx) as (y & Ey & Ly).
    simpl. rewrite Ey. simpl.
    destruct rest as [|l' rest'].
    + destruct d; simpl in Srest; contradiction.
    + apply (IH width n_out width); [exact Srest|]. now rewrite length_map.
Qed.

(** ** The reparameterised draw *)

Lemma zero_noise_keeps_mean (mean noise std : vec) :
  length noise = length mean -> length std = length mean ->
  Forall (fun z => z = 0) noise ->
  zip_with Rplus mean (zip_with Rmult noise std) = mean.
Proof.
  revert noise std.
  induction mean as [|m mean IH]; intros [|z noise] [|s std] Ln Ls Z;
    try discriminate; [reflexivity|].
  inversion Z; subst. unfold zip_with in *. simpl. f_equal.
  - lra.
  - apply IH; simpl in *; congruence.
Qed.

Lemma exp_positive (v : vec) : Forall (fun s => 0 < s) (map exp v).
Proof. induction v; simpl; constructor; auto using exp_pos. Qed.

Lemma std32_positive `{Exp32} (logstd : vec) :
  Forall (fun l => -87 <= l) logstd -> Forall positive32 (std32 logstd).
Proof.
  unfold std32. induction 1 as [|l logstd Hl _ IH]; simpl; constructor.
  - now apply exp32_positive.
  - exact IH.
Qed.

(** On float32 a zero noise gives the mean back as long as every
    standard deviation is finite. *)
Lemma zero_noise_keeps_mean32 `{Exp32} (mean noise logstd : vec) :
  length noise = length mean -> length logstd = length mean ->
  Forall (fun l => l <= 88) logstd ->
  Forall (fun z => z = 0) noise ->
  latent32 mean noise (std32 logstd) = map Finite mean.
Proof.
  revert noise logstd.
  induction mean as [|m mean IH]; intros [|z noise] [|l logstd] Ln Ll R Z;
    try discriminate; [reflexivity|].
  inversion Z as [|? ? Z0 Z']; inversion R as [|? ? R0 R']; subst.
  unfold latent32, std32, zip_with in *. simpl.
  destruct (@exp32_finite _ l R0) as (y & -> & _). simpl. f_equal.
  - f_equal. lra.
  - apply IH; simpl in *; congruence.
Qed.

(** C6, amended: the projection has [2 * latent_size] components; the
    mean is its first [latent_size] components and the log-std the
    remaining ones; the standard deviation is [exp] of the log-std and the
    latent is [mean + noise * std].  The standard deviation is strictly
    positive when no log-std is below -87 (over the reals, and on float32,
    where it may be inf), and the latent is the mean itself when the noise
    drawn is zero and no log-std is above 88 (over the reals, and on
    float32, where every standard deviation is then finite). *)
Theorem _latent_draw_reparameterised {key} `{PRNG key} `{Exp32}
  (self : LatentODE) (hidden : vec) (k : key) :
  Linear_shape (hidden_size self) (2 * latent_size self) (hidden_to_latent self) ->
  length hidden = hidden_size self ->
  exists context,
    Linear_call (hidden_to_latent self) hidden = Ok context /\
    length context = (2 * latent_size self)%nat /\
    let mean := firstn (latent_size self) context in
    let logstd := skipn (latent_size self) context in
    let std := map exp logstd in
    let noise := map (normal_at k (latent_size self)) (seq 0 (latent_size self)) in
    length mean = latent_size self /\
    length logstd = latent_size self /\
    _latent_draw self hidden k
    = (Ok (zip_with Rplus mean (zip_with Rmult noise std), mean, std),
       [KeyNormal k (latent_size self)]) /\
    (Forall (fun l => -87 <= l) logstd ->
     Forall (fun s => 0 < s) std /\ Forall positive32 (std32 logstd)) /\
    (Forall (fun l => l <= 88) logstd ->
     Forall (fun z => z = 0) noise ->
     zip_with Rplus mean (zip_with Rmult noise std) = mean
     /\ latent32 mean noise (std32 logstd) = map Finite mean).
Proof.
  intros S Hh.
  destruct (Linear_call_shape hidden S Hh) as (context & Ec & Lc).
  exists context. split; [exact Ec|]. split; [exact Lc|].
  cbv zeta.
  assert (Lm : length (firstn (latent_size self) context) = latent_size self)
    by (rewrite length_firstn; lia).
  assert (Ll : length (skipn (latent_size self) context) = latent_size self)
    by (rewrite length_skipn; lia).
  assert (Ln : length (map (normal_at k (latent_size self)) (seq 0 (latent_size self)))
               = latent_size self)
    by now rewrite length_map, length_seq.
  split; [exact Lm|]. split; [exact Ll|]. split; [|split].
  - unfold _latent_draw. rewrite Ec. cbn.
    assert (Ls : length (map exp (skipn (latent_size self) context)) = latent_size self)
      by now rewrite length_map.
    rewrite elementwise_same_length by congruence. cbn.
    rewrite elementwise_same_length by (rewrite length_zip_with; congruence).
    reflexivity.
  - intros Hlow. split; [apply exp_positive|now apply std32_positive].
  - intros Hhigh Z. split.
    + apply zero_noise_keeps_mean;
        [congruence | rewrite length_map; congruence | exact Z].
    + apply zero_noise_keeps_mean32; [congruence | congruence | exact Hhigh | exact Z].
Qed.

Lemma _latent_draw_reparameterised_witness :
  exists latent mean std,
    fst (_latent_draw small_model [0] ([] : path_key)) = Ok (latent, mean, std)
    /\ latent = mean /\ Forall (fun s => 0 < s) std
    /\ Forall positive32 (std32 [0])
    /\ latent32 [0] [0] (std32 [0]) = [Finite 0].
Proof.
  destruct (@_latent_draw_reparameterised path_key path_prng threshold_exp32
              small_model [0] [])
    as (context & Ec & _ & _ & _ & E & P & Z).
  - repeat constructor.
  - reflexivity.
  - assert (Hc : context = [0; 0]).
    { revert Ec. lazy -[Rplus Rmult Rminus Ropp IZR]. intros Ec. inversion Ec. f_equal; [lra|f_equal; lra]. }
    subst context. cbn [small_model latent_size skipn firstn] in P, Z.
    destruct P as [P P32]; [repeat constructor; lra|].
    destruct Z as [Z Z32]; [repeat constructor; lra|repeat constructor|].
    eexists _, _, _. rewrite E. split; [reflexivity|].
    split; [exact Z|]. split; [exact P|]. split; [exact P32|exact Z32].
Defined.

(** C6 as stated fails on float32 at both ends of the range of [exp]: a
    projection whose log-std is -104 gives the standard deviation 0.0,
    which is not positive, and one whose log-std is 89 gives inf, so that
    a zero noise gives [0 * inf = nan] and not the mean. *)
Lemma exp32_leaves_the_range :
  (exists context,
      Linear_call (biased_projection (-104)) [0] = Ok context
      /\ length context = 2%nat
      /\ forall E : Exp32,
           std32 (skipn 1 context) = [Finite 0]
           /\ ~ Forall positive32 (std32 (skipn 1 context)))
  /\ (exists context,
         Linear_call (biased_projection 89) [0] = Ok context
         /\ length context = 2%nat
         /\ forall E : Exp32,
              latent32 (firstn 1 context) [0] (std32 (skipn 1 context)) = [NaN]
              /\ latent32 (firstn 1 context) [0] (std32 (skipn 1 context))
                 <> map Finite (firstn 1 context)).
Proof.
  split.
  - eexists. split; [lazy -[Rplus Rmult Rminus Ropp IZR]; reflexivity|]. split; [reflexivity|].
    intros E. cbn [skipn std32 map].
    rewrite exp32_underflow by lra.
    split; [reflexivity|]. intros P. inversion P as [|? ? P0 _]. simpl in P0. lra.
  - eexists. split; [lazy -[Rplus Rmult Rminus Ropp IZR]; reflexivity|]. split; [reflexivity|].
    intros E. cbn [skipn firstn std32 map].
    rewrite exp32_overflow by lra.
    unfold latent32, zip_with. cbn [combine map fst snd mul32 add32].
    destruct (Req_dec_T 0 0) as [_|N]; [|now contradiction N].
    split; [reflexivity|discriminate].
Qed.

(** ** The decoder *)

Lemma first_elt_ok (ts : vec) : ts <> [] -> exists t0, first_elt ts = Ok t0.
Proof. destruct ts; [congruence|]. intros _. eexists. reflexivity. Qed.

Lemma last_elt_ok (ts : vec) : ts <> [] -> exists t1, last_elt ts = Ok t1.
Proof.
  intros N. unfold last_elt. destruct (rev ts) eqn:E.
  - apply (f_equal (@rev R)) in E. rewrite rev_involutive in E. now subst.
  - eexists. reflexivity.
Qed.

Lemma constant_solver_succeeds : solver_succeeds constant_solver.
Proof.
  intros t0 t1 y0 dt0 ts _ _ _. apply Forall_forall. intros t _.
  exists y0. split; reflexivity.
Qed.

Lemma mapM_Forall_out {A B} (f : A -> result B) (P : B -> Prop) l out :
  mapM f l = Ok out -> (forall a b, f a = Ok b -> P b) -> Forall P out.
Proof.
  intros E Hf. revert out E. induction l as [|a l IH]; simpl; intros out E.
  - inversion E. constructor.
  - destruct (f a) as [b| |] eqn:Ea; simpl in E; try discriminate.
    destruct (mapM f l) as [bs| |]; simpl in E; try discriminate.
    inversion E; subst. constructor; eauto.
Qed.

Lemma Linear_call_out n_in n_out l x y :
  Linear_shape n_in n_out l -> Linear_call l x = Ok y -> length y = n_out.
Proof.
  intros (Hw & _ & Hb). unfold Linear_call.
  destruct (mapM (fun row => dot row x) (weight l)) as [wx| |] eqn:Ewx;
    simpl; try discriminate.
  apply mapM_length in Ewx.
  rewrite elementwise_same_length by congruence.
  intros E. inversion E. rewrite length_zip_with; congruence.
Qed.

(** Whatever the solver does, what [_sample] returns has the shape of the
    time grid and of the data. *)
Lemma _sample_output_shape (data_size hidden_size' : nat) (self : LatentODE)
  (ts latent : vec) (out : mat) :
  Linear_shape hidden_size' data_size (hidden_to_data self) ->
  _sample self ts latent = Ok out ->
  length out = length ts /\ Forall (fun y => length y = data_size) out.
Proof.
  intros Sdata. unfold _sample, diffeqsolve, vmap.
  destruct (MLP_call (latent_to_hidden self) latent) as [y0| |]; simpl;
    try discriminate.
  destruct (first_elt ts) as [t0| |]; simpl; try discriminate.
  destruct (last_elt ts) as [t1| |]; simpl; try discriminate.
  destruct (mapM _ ts) as [states| |] eqn:Es; simpl; try discriminate.
  intros Eo. split.
  - rewrite (mapM_length _ _ Eo). exact (mapM_length _ _ Es).
  - eapply mapM_Forall_out; [exact Eo|]. intros h y.
    now apply Linear_call_out with (n_in := hidden_size').
Qed.

(** On a grid on which the solve succeeds, [_sample] returns. *)
Lemma _sample_returns (data_size hidden_size' latent_size' width_size depth : nat)
  (self : LatentODE) (ts latent : vec) :
  LatentODE_shape data_size hidden_size' latent_size' width_size depth self ->
  solver_succeeds (solver self) ->
  StronglySorted Rlt ts -> ts <> [] ->
  length latent = latent_size' ->
  exists out, _sample self ts latent = Ok out.
Proof.
  intros [_ _ _ Smlp Sdata] Hsolver Hsorted Hne Hlatent. unfold _sample.
  destruct (@MLP_layers_call_shape (activation (latent_to_hidden self))
              (final_activation (latent_to_hidden self)) depth _ _ _ _ _ Smlp Hlatent)
    as (y0 & Ey0 & Ly0).
  unfold MLP_call. rewrite Ey0. simpl.
  destruct (first_elt_ok Hne) as (t0 & Et0).
  destruct (last_elt_ok Hne) as (t1 & Et1).
  rewrite Et0, Et1. simpl.
  destruct (@mapM_Forall_ok R vec
              (fun t => of_option SolveFailure
                          (solve_at (solver self) t0 t1 y0 (4 / 10) t))
              (fun y => length y = hidden_size') ts)
    as (states & Es & Ls & Ps).
  { eapply Forall_impl; [|exact (Hsolver t0 t1 y0 (4 / 10) ts Hsorted Et0 Et1)].
    intros t (y & Ey & Ly). exists y. rewrite Ey. split; [reflexivity|congruence]. }
  unfold diffeqsolve. simpl. rewrite Es. simpl.
  destruct (@mapM_Forall_ok vec vec (Linear_call (hidden_to_data self))
              (fun y => length y = data_size) states)
    as (out & Eo & Lo & Po).
  { eapply Forall_impl; [|exact Ps]. intros h Lh.
    exact (Linear_call_shape h Sdata Lh). }
  exists out. exact Eo.
Qed.

(** C1: for a model of any configuration [(hidden_size, latent_size,
    width_size, depth)], a latent code of dimension [latent_size] and a
    strictly increasing time grid of length [L >= 2], what [_sample]
    returns is a sequence of exactly [L] vectors, each of dimension
    [data_size]; and it does return whenever the solve succeeds (a failed
    solve is raised, not returned). *)
Theorem _sample_shape (data_size hidden_size' latent_size' width_size depth : nat)
  (self : LatentODE) (ts latent : vec) :
  LatentODE_shape data_size hidden_size' latent_size' width_size depth self ->
  StronglySorted Rlt ts -> (2 <= length ts)%nat ->
  length latent = latent_size' ->
  (forall out,
      _sample self ts latent = Ok out ->
      length out = length ts /\ Forall (fun y => length y = data_size) out)
  /\ (solver_succeeds (solver self) ->
      exists out,
        _sample self ts latent = Ok out /\
        length out = length ts /\
        Forall (fun y => length y = data_size) out).
Proof.
  intros S Hsorted HL Hlatent.
  assert (Hne : ts <> []) by (intros ->; simpl in HL; lia).
  assert (Hshape : forall out,
             _sample self ts latent = Ok out ->
             length out = length ts /\ Forall (fun y => length y = data_size) out).
  { intros out. apply _sample_output_shape with (hidden_size' := hidden_size').
    apply S. }
  split; [exact Hshape|].
  intros Hsolver.
  destruct (@_sample_returns _ _ _ _ _ self ts latent S Hsolver Hsorted Hne Hlatent)
    as (out & Eo).
  exists out. split; [exact Eo|]. now apply Hshape.
Qed.

Lemma _sample_shape_witness :
  exists out,
    _sample small_model [0; 1; 3] [5] = Ok out /\
    length out = 3%nat /\
    Forall (fun y => length y = 1%nat) out.
Proof.
  destruct (@_sample_shape 1 1 1 16 0 small_model [0; 1; 3] [5]) as (_ & H).
  - constructor; simpl; repeat constructor.
  - repeat constructor; lra.
  - simpl. lia.
  - reflexivity.
  - exact (H constant_solver_succeeds).
Defined.

(** ** Batches of a shuffled epoch *)

Lemma batches_per_epoch_bounds n b :
  (1 <= b)%nat ->
  (n <= batches_per_epoch n b * b /\ batches_per_epoch n b * b < n + b)%nat.
Proof.
  intros Hb. unfold batches_per_epoch.
  pose proof (Nat.div_mod_eq (n + b - 1) b) as E.
  assert (Hb0 : b <> 0%nat) by lia.
  pose proof (Nat.mod_upper_bound (n + b - 1) b Hb0) as U.
  set (q := ((n + b - 1) / b)%nat) in *. set (r := ((n + b - 1) mod b)%nat) in *.
  clearbody q r. rewrite (Nat.mul_comm q b). lia.
Qed.

Lemma batches_per_epoch_lt n b i :
  (1 <= b)%nat -> (i < batches_per_epoch n b <-> i * b < n)%nat.
Proof.
  intros Hb. destruct (batches_per_epoch_bounds n Hb) as [L U]. split; nia.
Qed.

Lemma batches_per_epoch_exact n b :
  (1 <= b)%nat -> (n mod b = 0 <-> batches_per_epoch n b * b = n)%nat.
Proof.
  intros Hb. destruct (batches_per_epoch_bounds n Hb) as [L U]. split.
  - intros Z. pose proof (Nat.div_mod_eq n b) as E. rewrite Z in E.
    unfold batches_per_epoch.
    rewrite <- (Nat.div_unique (n + b - 1) b (n / b) (b - 1)); lia.
  - intros E. rewrite <- E. apply Nat.Div0.mod_mul.
Qed.

Lemma firstn_plus {A} (a c : nat) (l : list A) :
  firstn (a + c) l = firstn a l ++ firstn c (skipn a l).
Proof.
  revert l. induction a as [|a IH]; intros [|x l]; simpl; try reflexivity.
  - now destruct c.
  - now rewrite IH.
Qed.

Lemma concat_chunks_prefix {A} (b n : nat) (l : list A) :
  concat (map (chunk_at b l) (seq 0 n)) = firstn (n * b) l.
Proof.
  induction n as [|n IH]; [reflexivity|].
  rewrite seq_S, map_app, concat_app, IH. simpl.
  rewrite app_nil_r. unfold chunk_at.
  replace (b + n * b)%nat with (n * b + b)%nat by lia.
  now rewrite firstn_plus.
Qed.

Lemma concat_chunks {A} (b : nat) (l : list A) :
  (1 <= b)%nat -> concat (chunks b l) = l.
Proof.
  intros Hb. unfold chunks. rewrite concat_chunks_prefix.
  apply firstn_all2. now destruct (batches_per_epoch_bounds (length l) Hb).
Qed.

Lemma length_chunk_at {A} (b i : nat) (l : list A) :
  length (chunk_at b l i) = Nat.min b (length l - i * b).
Proof. unfold chunk_at. now rewrite length_firstn, length_skipn. Qed.

Lemma chunk_at_incl {A} (b i : nat) (l : list A) x :
  In x (chunk_at b l i) -> In x l.
Proof.
  unfold chunk_at. intros I.
  rewrite <- (firstn_skipn (i * b) l). apply in_or_app. right.
  rewrite <- (firstn_skipn b (skipn (i * b) l)). apply in_or_app. now left.
Qed.

(** ** The generator within an epoch *)

Lemma bindM_unfold {key A B} (c : M key A) (k : A -> M key B) :
  bindM c k
  = match fst c with
    | Ok a => (fst (k a), snd c ++ snd (k a))
    | Raise e => (Raise e, snd c)
    | OutOfFuel => (OutOfFuel, snd c)
    end.
Proof.
  destruct c as [[a|e|] log]; simpl; try reflexivity. now destruct (k a).
Qed.

Lemma firstn_min_length {A} (n : nat) (l : list A) :
  firstn (Nat.min n (length l)) l = firstn n l.
Proof.
  destruct (Nat.le_gt_cases n (length l)).
  - now rewrite Nat.min_l.
  - rewrite Nat.min_r by lia. rewrite !firstn_all2; auto; lia.
Qed.

Lemma py_slice_chunk {A} (l : list A) (s b : nat) :
  py_slice l (Z.of_nat s) (Z.of_nat s + Z.of_nat b) = firstn b (skipn s l).
Proof.
  unfold py_slice, slice_bound.
  rewrite (proj2 (Z.ltb_ge _ _)) by lia.
  rewrite (proj2 (Z.ltb_ge _ _)) by lia.
  destruct (Nat.le_gt_cases (length l) s) as [Hs|Hs].
  - rewrite (skipn_all2 l Hs), firstn_nil.
    replace (Z.to_nat (Z.min (Z.of_nat s) (Z.of_nat (length l)))) with (length l) by lia.
    now rewrite skipn_all, firstn_nil.
  - replace (Z.to_nat (Z.min (Z.of_nat s) (Z.of_nat (length l)))) with s by lia.
    rewrite <- (firstn_min_length b (skipn s l)), length_skipn. f_equal. lia.
Qed.

Lemma take_rows_ok {A} (array : list A) (idx : list nat) :
  Forall (fun i => (i < length array)%nat) idx ->
  exists rows, take_rows array idx = Ok rows.
Proof.
  intros F.
  destruct (@mapM_Forall_ok nat A (fun i => of_option IndexError (nth_error array i))
              (fun _ => True) idx) as (rows & E & _).
  - eapply Forall_impl; [|exact F]. intros i Hi.
    destruct (nth_error array i) eqn:E.
    + simpl. eauto.
    + apply nth_error_None in E. cbv beta in Hi. lia.
  - now exists rows.
Qed.

Section DataloaderFacts.
Context {key : Type} `{PRNG key} {A B : Type}.
Variable arrays : list A * list B.
Variable batch_size : Z.
Hypothesis batch_size_pos : (1 <= batch_size)%Z.
Hypothesis same_rows : length (snd arrays) = dataset_size arrays.

Lemma batch_rows_chunk (perm : list nat) (i : nat) :
  Forall (fun j => (j < dataset_size arrays)%nat) perm ->
  exists batch, batch_rows arrays batch (chunk_at (Z.to_nat batch_size) perm i).
Proof.
  intros F.
  assert (F' : Forall (fun j => (j < dataset_size arrays)%nat)
                 (chunk_at (Z.to_nat batch_size) perm i)).
  { apply Forall_forall. intros j Hj. apply chunk_at_incl in Hj.
    now apply (proj1 (Forall_forall _ _) F). }
  destruct (take_rows_ok (fst arrays) F') as (ts_b & Et).
  destruct (take_rows_ok (snd arrays)) with (idx := chunk_at (Z.to_nat batch_size) perm i)
    as (ys_b & Ey).
  { now rewrite same_rows. }
  exists (ts_b, ys_b). split; assumption.
Qed.

Lemma dataloader_next_in_epoch (fuel : nat) (k : key) (perm : list nat)
  (i : nat) (start end_ : Z) :
  start = Z.of_nat (i * Z.to_nat batch_size) -> end_ = (start + batch_size)%Z ->
  (i * Z.to_nat batch_size < dataset_size arrays)%nat ->
  Forall (fun j => (j < dataset_size arrays)%nat) perm ->
  exists batch,
    dataloader_next arrays batch_size (S fuel) (LoaderBatch k perm start end_)
    = (Ok (batch, LoaderBatch k perm end_ (end_ + batch_size)%Z), [])
    /\ batch_rows arrays batch (chunk_at (Z.to_nat batch_size) perm i).
Proof.
  intros Es Ee Hi F.
  destruct (@batch_rows_chunk perm i F) as (batch & Et & Ey).
  exists batch. split; [|split; assumption].
  simpl. rewrite (proj2 (Z.ltb_lt _ _)) by lia.
  replace (py_slice perm start end_) with (chunk_at (Z.to_nat batch_size) perm i).
  - rewrite Et, Ey. simpl. now destruct batch.
  - subst. unfold chunk_at. rewrite <- py_slice_chunk. f_equal. lia.
Qed.

Lemma dataloader_take_in_epoch (fuel : nat) (k : key) (perm : list nat) (n : nat) :
  forall (i : nat) (start end_ : Z),
    start = Z.of_nat (i * Z.to_nat batch_size) -> end_ = (start + batch_size)%Z ->
    (i + n <= batches_per_epoch (dataset_size arrays) (Z.to_nat batch_size))%nat ->
    Forall (fun j => (j < dataset_size arrays)%nat) perm ->
    exists batches start' end',
      dataloader_take arrays batch_size (S fuel) n (LoaderBatch k perm start end_)
      = (Ok (batches, LoaderBatch k perm start' end'), [])
      /\ start' = Z.of_nat ((i + n) * Z.to_nat batch_size)
      /\ end' = (start' + batch_size)%Z
      /\ Forall2 (batch_rows arrays) batches
                 (map (chunk_at (Z.to_nat batch_size) perm) (seq i n)).
Proof.
  induction n as [|n IH]; intros i start end_ Es Ee Hn F.
  - exists [], start, end_. simpl. rewrite Nat.add_0_r. repeat split; auto.
  - assert (Hi : (i * Z.to_nat batch_size < dataset_size arrays)%nat).
    { apply batches_per_epoch_lt; lia. }
    destruct (@dataloader_next_in_epoch fuel k perm i start end_ Es Ee Hi F)
      as (batch & En & Rb).
    destruct (IH (S i) end_ (end_ + batch_size)%Z) as (batches & s' & e' & Et & Es' & Ee' & Rs);
      [subst; lia | reflexivity | lia | exact F |].
    exists (batch :: batches), s', e'.
    cbn [dataloader_take]. rewrite En. rewrite bindM_unfold. cbn [fst snd].
    rewrite Et. cbn. split; [reflexivity|]. split; [subst s'; f_equal; lia|].
    split; [assumption|]. constructor; assumption.
Qed.
End DataloaderFacts.

Lemma permutation_in_range {key} `{PRNG key} (n : nat) (k : key) :
  Forall (fun j => (j < n)%nat) (permutation k (seq 0 n)).
Proof.
  apply Forall_forall. intros j Hj.
  apply (Permutation_in _ (permutation_permutes k _)) in Hj.
  apply in_seq in Hj. lia.
Qed.

Section DataloaderEpoch.
Context {key : Type} `{PRNG key} {A B : Type}.
Variable arrays : list A * list B.
Variable batch_size : Z.
Hypothesis batch_size_pos : (1 <= batch_size)%Z.
Hypothesis same_rows : length (snd arrays) = dataset_size arrays.

Lemma dataloader_next_epoch_head (fuel : nat) (k : key) :
  (0 < dataset_size arrays)%nat ->
  exists batch,
    dataloader_next arrays batch_size (S (S fuel)) (LoaderEpoch k)
    = (Ok (batch, LoaderBatch (split_child k 1 0)
                    (permutation k (seq 0 (dataset_size arrays)))
                    batch_size (batch_size + batch_size)%Z),
       [KeyPermutation k; KeySplit k 1])
    /\ batch_rows arrays batch
         (chunk_at (Z.to_nat batch_size)
                   (permutation k (seq 0 (dataset_size arrays))) 0).
Proof.
  intros HN.
  destruct (@dataloader_next_in_epoch key _ A B arrays batch_size batch_size_pos
              same_rows fuel (split_child k 1 0)
              (permutation k (seq 0 (dataset_size arrays))) 0 0%Z batch_size)
    as (batch & En & Rb); [reflexivity | reflexivity | simpl; lia
                          | apply permutation_in_range |].
  exists batch. split; [|exact Rb].
  cbn [dataloader_next]. unfold jrandom_permutation, split_one, jrandom_split.
  cbn [bindM map seq retM app]. cbn [dataloader_next] in En. rewrite En.
  reflexivity.
Qed.

Lemma dataloader_next_boundary (fuel : nat) (st : loader_state key) (k : key) :
  (3 <= fuel)%nat -> epoch_boundary arrays st k -> (0 < dataset_size arrays)%nat ->
  exists batch,
    dataloader_next arrays batch_size fuel st
    = (Ok (batch, LoaderBatch (split_child k 1 0)
                    (permutation k (seq 0 (dataset_size arrays)))
                    batch_size (batch_size + batch_size)%Z),
       [KeyPermutation k; KeySplit k 1])
    /\ batch_rows arrays batch
         (chunk_at (Z.to_nat batch_size)
                   (permutation k (seq 0 (dataset_size arrays))) 0).
Proof.
  intros Hf Hst HN.
  replace fuel with (S (S (S (fuel - 3)))) by lia.
  destruct st as [k0|k0|k0 perm0 start0 end0]; simpl in Hst.
  - subst k0. cbn [dataloader_next]. rewrite same_rows, Nat.eqb_refl.
    now apply dataloader_next_epoch_head.
  - subst k0. now apply dataloader_next_epoch_head.
  - destruct Hst as [-> Hs]. cbn [dataloader_next].
    rewrite (proj2 (Z.ltb_ge _ _)) by lia.
    now apply dataloader_next_epoch_head.
Qed.
End DataloaderEpoch.

Lemma chunks_lengths {A} (b : nat) (perm : list A) :
  (1 <= b)%nat ->
  Forall (fun idx => (length idx <= b)%nat) (chunks b perm)
  /\ (forall i, (S i < batches_per_epoch (length perm) b)%nat ->
                length (chunk_at b perm i) = b)
  /\ ((0 < length perm)%nat ->
      let last := chunk_at b perm (batches_per_epoch (length perm) b - 1) in
      (0 < length last)%nat
      /\ ((length last < b)%nat <-> (length perm mod b)%nat <> 0%nat)).
Proof.
  intros Hb. set (n := length perm).
  destruct (batches_per_epoch_bounds n Hb) as [L U].
  pose proof (batches_per_epoch_exact n Hb) as X.
  split; [|split].
  - apply Forall_forall. intros idx Hi. unfold chunks in Hi.
    apply in_map_iff in Hi. destruct Hi as (i & <- & _).
    rewrite length_chunk_at. lia.
  - intros i Hi. rewrite length_chunk_at. fold n.
    apply (batches_per_epoch_lt n (S i) Hb) in Hi. simpl in Hi. lia.
  - intros Hn. cbv zeta. rewrite length_chunk_at. fold n.
    destruct (batches_per_epoch n b) as [|m] eqn:Em; [simpl in L; lia|].
    replace (S m - 1)%nat with m by lia.
    assert (Hm : (m * b < n)%nat) by (apply (batches_per_epoch_lt n m Hb); lia).
    simpl in L, U, X. split; [lia|]. split.
    + intros Hlt Z. apply X in Z. lia.
    + intros Hnz. destruct (Nat.eq_dec (b + m * b) n) as [E|E].
      * apply X in E. contradiction.
      * lia.
Qed.

Lemma batch_rows_lengths {A B} (arrays : list A * list B) (b : nat) batches idxs :
  Forall2 (batch_rows arrays) batches idxs ->
  Forall (fun idx => (length idx <= b)%nat) idxs ->
  Forall (fun batch => (length (fst batch) <= b)%nat
                       /\ length (snd batch) = length (fst batch)) batches.
Proof.
  induction 1 as [|batch idx batches idxs [Et Ey] _ IH]; intros F; [constructor|].
  inversion F; subst. constructor; [|now apply IH].
  apply mapM_length in Et, Ey. lia.
Qed.

(** C9: from any state at which an epoch is about to begin, the batches
    the generator yields next are the rows at the successive blocks of
    [batch_size] positions of that epoch's permutation.  Their index lists
    concatenate to the permutation, a rearrangement of [0 .. N-1], so
    every index is in exactly one batch; no batch has more than
    [batch_size] elements, every batch but the last has exactly that
    many, and the last one is short exactly when [batch_size] does not
    divide [N].  The generator is then at the beginning of the next
    epoch, with the split child as its key. *)
Theorem dataloader_epoch {key} `{PRNG key} {A B : Type}
  (arrays : list A * list B) (batch_size : Z) (fuel : nat)
  (st : loader_state key) (k : key) :
  (1 <= batch_size)%Z ->
  length (snd arrays) = dataset_size arrays ->
  (3 <= fuel)%nat ->
  epoch_boundary arrays st k ->
  let N := dataset_size arrays in
  let b := Z.to_nat batch_size in
  let perm := permutation k (seq 0 N) in
  exists batches st' log,
    dataloader_take arrays batch_size fuel (batches_per_epoch N b) st
    = (Ok (batches, st'), log)
    /\ Forall2 (batch_rows arrays) batches (chunks b perm)
    /\ Forall (fun batch => (length (fst batch) <= b)%nat
                            /\ length (snd batch) = length (fst batch)) batches
    /\ concat (chunks b perm) = perm
    /\ Permutation (concat (chunks b perm)) (seq 0 N)
    /\ Forall (fun idx => (length idx <= b)%nat) (chunks b perm)
    /\ (forall i, (S i < batches_per_epoch N b)%nat -> length (chunk_at b perm i) = b)
    /\ ((0 < N)%nat ->
        let last := chunk_at b perm (batches_per_epoch N b - 1) in
        (0 < length last)%nat /\ ((length last < b)%nat <-> (N mod b)%nat <> 0%nat))
    /\ ((0 < N)%nat ->
        epoch_boundary arrays st' (split_child k 1 0)
        /\ log = [KeyPermutation k; KeySplit k 1]).
Proof.
  intros Hbs Hrows Hfuel Hst N b perm.
  assert (Hb : (1 <= b)%nat) by (unfold b; lia).
  assert (Lp : length perm = N).
  { unfold perm. rewrite (Permutation_length (permutation_permutes k _)).
    apply length_seq. }
  destruct (chunks_lengths perm Hb) as (C1 & C2 & C3). rewrite Lp in C2, C3.
  assert (Hrun : exists batches st' log,
    dataloader_take arrays batch_size fuel (batches_per_epoch N b) st
    = (Ok (batches, st'), log)
    /\ Forall2 (batch_rows arrays) batches (chunks b perm)
    /\ ((0 < N)%nat ->
        epoch_boundary arrays st' (split_child k 1 0)
        /\ log = [KeyPermutation k; KeySplit k 1])).
  { unfold chunks. rewrite Lp.
    destruct (batches_per_epoch_bounds N Hb) as [L U].
    destruct (batches_per_epoch N b) as [|m] eqn:Em.
    - exists [], st, []. split; [reflexivity|]. split; [constructor|].
      simpl in L. lia.
    - assert (HN : (0 < N)%nat) by (destruct N; simpl in U; lia).
      destruct (@dataloader_next_boundary key _ A B arrays batch_size Hbs Hrows
                  fuel st k Hfuel Hst HN) as (batch & En & Rb).
      destruct (@dataloader_take_in_epoch key _ A B arrays batch_size Hbs Hrows
                  (fuel - 1) (split_child k 1 0) perm m 1%nat batch_size
                  (batch_size + batch_size)%Z)
        as (batches & s' & e' & Et & Es' & Ee' & Rs).
      { fold b. lia. }
      { reflexivity. }
      { fold N b. lia. }
      { apply permutation_in_range. }
      replace (S (fuel - 1)) with fuel in Et by lia.
      exists (batch :: batches), (LoaderBatch (split_child k 1 0) perm s' e'),
        [KeyPermutation k; KeySplit k 1].
      split; [|split].
      + cbn [dataloader_take]. fold N perm in En. rewrite En.
        rewrite bindM_unfold. cbn [fst snd]. rewrite Et. reflexivity.
      + simpl. constructor; assumption.
      + intros _. split; [|reflexivity]. simpl. split; [reflexivity|].
        subst s'. fold N b. simpl in L. lia. }
  destruct Hrun as (batches & st' & log & Et & Rs & Hend).
  exists batches, st', log.
  split; [exact Et|]. split; [exact Rs|].
  split; [exact (batch_rows_lengths Rs C1)|].
  split; [now apply concat_chunks|]. split.
  { rewrite (concat_chunks perm Hb). apply permutation_permutes. }
  split; [exact C1|]. split; [exact C2|]. split; [exact C3|exact Hend].
Qed.

Lemma dataloader_epoch_witness :
  exists st' log,
    dataloader_take ([10; 11; 12; 13; 14]%nat, [20; 21; 22; 23; 24]%nat) 2 3 3
      (LoaderStart ([] : path_key))
    = (Ok ([([14; 13], [24; 23]); ([12; 11], [22; 21]); ([10], [20])]%nat, st'), log)
    /\ concat (chunks 2 (rev (seq 0 5))) = rev (seq 0 5)
    /\ epoch_boundary ([10; 11; 12; 13; 14]%nat, [20; 21; 22; 23; 24]%nat) st' [(1, 0)]%nat.
Proof.
  destruct (@dataloader_epoch path_key path_prng nat nat
              ([10; 11; 12; 13; 14]%nat, [20; 21; 22; 23; 24]%nat) 2 3
              (LoaderStart []) [])
    as (batches & st' & log & Et & _ & _ & Cc & _ & _ & _ & _ & Hend);
    [lia | reflexivity | lia | reflexivity |].
  exists st', log. split; [|split].
  - vm_compute in Et. inversion Et; subst. vm_compute. reflexivity.
  - exact Cc.
  - apply Hend. vm_compute. lia.
Defined.

(** ** What the numerical pipeline can and cannot do

    Nothing below the training loop diverges or raises [StopIteration],
    and nothing below it logs anything but the keys it uses. *)

Create HintDb benign.

Lemma benign_Ok {A} (a : A) : benign (Ok a).
Proof. exact I. Qed.

Lemma benign_bind {A B} (r : result A) (k : A -> result B) :
  benign r -> (forall a, benign (k a)) -> benign (bind r k).
Proof. destruct r; simpl; auto. Qed.

Lemma benign_of_option {A} (e : exn) (o : option A) :
  e <> StopIteration -> benign (of_option e o).
Proof. destruct o; simpl; auto. Qed.

Lemma benign_mapM {A B} (f : A -> result B) l :
  (forall a, benign (f a)) -> benign (mapM f l).
Proof.
  intros Hf. induction l; simpl; [exact I|].
  apply benign_bind; [auto|]. intros b. apply benign_bind; [auto|]. intros; exact I.
Qed.

Lemma benign_mapM2 {A B C} (f : A -> B -> result C) xs ys :
  (forall a b, benign (f a b)) -> benign (mapM2 f xs ys).
Proof.
  intros Hf. revert ys. induction xs as [|x xs IH]; intros [|y ys]; simpl;
    try exact I; try discriminate.
  apply benign_bind; [auto|]. intros c. apply benign_bind; [auto|]. intros; exact I.
Qed.

Lemma benign_broadcast {A B C} (f : A -> B -> result C) xs ys :
  (forall a b, benign (f a b)) -> benign (broadcast f xs ys).
Proof.
  intros Hf. unfold broadcast. destruct (Nat.eqb _ _).
  - now apply benign_mapM2.
  - destruct xs as [|x [|x' xs]]; destruct ys as [|y [|y' ys]];
      first [ apply benign_mapM; intros; apply Hf | simpl; discriminate ].
Qed.

Lemma benign_elementwise op u v : benign (elementwise op u v).
Proof. apply benign_broadcast. intros; exact I. Qed.

Lemma benign_elementwise2 op a b : benign (elementwise2 op a b).
Proof. apply benign_broadcast. intros; apply benign_elementwise. Qed.

Lemma benign_dot u v : benign (dot u v).
Proof. unfold dot. destruct (Nat.eqb _ _); simpl; [exact I|discriminate]. Qed.

Lemma benign_Linear_call l x : benign (Linear_call l x).
Proof.
  unfold Linear_call. apply benign_bind.
  - apply benign_mapM. intros; apply benign_dot.
  - intros; apply benign_elementwise.
Qed.

Lemma benign_MLP_layers ls act fin x : benign (MLP_layers ls act fin x).
Proof.
  revert x. induction ls as [|l rest IH]; intros x; simpl; [discriminate|].
  apply benign_bind; [apply benign_Linear_call|]. intros y.
  destruct rest; [exact I|apply IH].
Qed.

Lemma benign_diffeqsolve s t0 t1 y0 dt0 saveat :
  benign (diffeqsolve s t0 t1 y0 dt0 saveat).
Proof.
  unfold diffeqsolve. apply benign_bind; [|intros; exact I].
  apply benign_mapM. intros. now apply benign_of_option.
Qed.

Lemma benign__sample self ts latent : benign (_sample self ts latent).
Proof.
  unfold _sample, MLP_call, first_elt, last_elt, vmap.
  apply benign_bind; [apply benign_MLP_layers|]. intros y0.
  apply benign_bind; [now apply benign_of_option|]. intros t0.
  apply benign_bind; [now apply benign_of_option|]. intros t1.
  apply benign_bind; [apply benign_diffeqsolve|]. intros sol.
  apply benign_mapM. intros; apply benign_Linear_call.
Qed.

Lemma benign__loss ys pred_ys mean std : benign (_loss ys pred_ys mean std).
Proof.
  unfold _loss. apply benign_bind; [|intros r; apply benign_bind; [|intros; exact I]].
  - unfold reconstruction_loss.
    apply benign_bind; [apply benign_elementwise2|intros; exact I].
  - unfold variational_loss.
    apply benign_bind; [apply benign_elementwise|]. intros a.
    apply benign_bind; [apply benign_elementwise|intros; exact I].
Qed.

Lemma benign_for_loop {S A} (body : S -> A -> result S) l s :
  (forall s a, benign (body s a)) -> benign (for_loop body l s).
Proof.
  intros Hb. revert s. induction l; intros s; simpl; [exact I|].
  apply benign_bind; auto.
Qed.

Lemma benign__latent_hidden self ts ys : benign (_latent_hidden self ts ys).
Proof.
  unfold _latent_hidden, concatenate_time. apply benign_bind.
  - apply benign_mapM2. intros; exact I.
  - intros data. apply benign_for_loop. intros. now apply benign_of_option.
Qed.

#[local] Hint Resolve benign_Ok benign_elementwise benign_elementwise2
  benign_Linear_call benign__sample benign__loss benign__latent_hidden : benign.

Lemma benignM_ret {key A} (a : A) : benignM (@retM key A a).
Proof. split; [exact I|constructor]. Qed.

Lemma benignM_lift {key A} (r : result A) : benign r -> benignM (@lift key A r).
Proof. intros Hr. split; [exact Hr|constructor]. Qed.

Lemma benignM_raise {key A} (e : exn) :
  e <> StopIteration -> benignM (@raiseM key A e).
Proof. intros He. split; [exact He|constructor]. Qed.

Lemma benignM_bind {key A B} (c : M key A) (k : A -> M key B) :
  benignM c -> (forall a, benignM (k a)) -> benignM (bindM c k).
Proof.
  intros [Hc Lc] Hk. rewrite bindM_unfold.
  destruct c as [[a|e|] log]; simpl in *; try (split; assumption); try contradiction.
  destruct (Hk a) as [Hr Lk]. split; [exact Hr|].
  apply Forall_app. split; assumption.
Qed.

#[local] Hint Resolve benignM_ret benignM_lift benignM_raise : benign.

Section BenignModel.
Context {key : Type} `{PRNG key}.

Lemma benignM_jrandom_split (k : key) n : benignM (jrandom_split k n).
Proof. split; [exact I|]. repeat constructor. discriminate. Qed.

Lemma benignM_jrandom_normal (k : key) n : benignM (jrandom_normal k n).
Proof. split; [exact I|]. repeat constructor. discriminate. Qed.

Lemma benignM_jrandom_permutation (k : key) l : benignM (jrandom_permutation k l).
Proof. split; [exact I|]. repeat constructor. discriminate. Qed.

Lemma benignM_split_one (k : key) : benignM (split_one k).
Proof. split; [exact I|]. repeat constructor. discriminate. Qed.

Lemma benignM__latent_draw self hidden (k : key) : benignM (_latent_draw self hidden k).
Proof.
  unfold _latent_draw.
  apply benignM_bind; [auto with benign|]. intros context.
  apply benignM_bind; [apply benignM_jrandom_normal|]. intros noise.
  apply benignM_bind; [auto with benign|]. intros scaled.
  apply benignM_bind; auto with benign.
Qed.

Lemma benignM__latent self ts ys (k : key) : benignM (_latent self ts ys k).
Proof.
  unfold _latent. apply benignM_bind; [auto with benign|].
  intros; apply benignM__latent_draw.
Qed.

Lemma benignM_train self ts ys (k : key) : benignM (train self ts ys k).
Proof.
  unfold train. apply benignM_bind; [apply benignM__latent|].
  intros [[latent mean] std].
  apply benignM_bind; auto with benign.
Qed.

Lemma benignM_sample self ts (k : key) : benignM (sample self ts k).
Proof.
  unfold sample. apply benignM_bind; [apply benignM_jrandom_normal|].
  auto with benign.
Qed.

Lemma benignM_mapMM {A B} (f : A -> M key B) l :
  (forall a, benignM (f a)) -> benignM (mapMM f l).
Proof.
  intros Hf. induction l; simpl; [apply benignM_ret|].
  apply benignM_bind; [auto|]. intros b.
  apply benignM_bind; [auto|]. intros; apply benignM_ret.
Qed.

Lemma benignM_vmap_train self ts_i ys_i (keys : list key) :
  benignM (vmap_train self ts_i ys_i keys).
Proof.
  unfold vmap_train. destruct (_ && _).
  - apply benignM_mapMM. intros; apply benignM_train.
  - now apply benignM_raise.
Qed.

Lemma benignM_loss model ts_i ys_i (k : key) : benignM (loss model ts_i ys_i k).
Proof.
  unfold loss. apply benignM_bind; [apply benignM_jrandom_split|]. intros keys.
  apply benignM_bind; [apply benignM_vmap_train|]. intros; apply benignM_ret.
Qed.
End BenignModel.

(** ** The generator as the training loop sees it *)

Lemma benignM_never_stops {key A} (c : M key A) : benignM c -> never_stops c.
Proof.
  intros [Hb Hl]. split; [|exact Hl].
  destruct c as [[a|e|] log]; simpl in *; congruence.
Qed.

Lemma never_stops_bind {key A B} (c : M key A) (k : A -> M key B) :
  never_stops c -> (forall a, never_stops (k a)) -> never_stops (bindM c k).
Proof.
  intros [Hc Lc] Hk. rewrite bindM_unfold.
  destruct c as [[a|e|] log]; simpl in *;
    try (split; [simpl; intros E; inversion E; subst; now apply Hc|assumption]).
  destruct (Hk a) as [Hr Lk]. split; [exact Hr|].
  apply Forall_app. split; assumption.
Qed.

Lemma benign_take_rows {A} (array : list A) idx : benign (take_rows array idx).
Proof. apply benign_mapM. intros. now apply benign_of_option. Qed.

Section DataloaderRun.
Context {key : Type} `{PRNG key} {A B : Type}.
Variable arrays : list A * list B.
Variable batch_size : Z.

Lemma benignM_yield (k : key) perm (start end_ : Z) :
  @benignM key _
    (ts_b <~ lift (take_rows (fst arrays) (py_slice perm start end_)) ;;
     ys_b <~ lift (take_rows (snd arrays) (py_slice perm start end_)) ;;
     retM ((ts_b, ys_b), LoaderBatch k perm end_ (end_ + batch_size)%Z)).
Proof.
  apply benignM_bind; [apply benignM_lift, benign_take_rows|]. intros ts_b.
  apply benignM_bind; [apply benignM_lift, benign_take_rows|]. intros ys_b.
  apply benignM_ret.
Qed.

Lemma dataloader_next_never_stops (fuel : nat) :
  forall st, never_stops (dataloader_next arrays batch_size fuel st).
Proof.
  induction fuel as [|fuel IH]; intros st.
  - split; [discriminate|constructor].
  - destruct st as [k|k|k perm start end_]; cbn [dataloader_next].
    + destruct (Nat.eqb _ _); [apply IH|].
      apply benignM_never_stops. now apply benignM_raise.
    + apply never_stops_bind;
        [apply benignM_never_stops, benignM_jrandom_permutation|]. intros perm.
      apply never_stops_bind; [apply benignM_never_stops, benignM_split_one|].
      intros k'. apply IH.
    + destruct (Z.ltb _ _); [|apply IH].
      apply benignM_never_stops, benignM_yield.
Qed.

(** With at least one row in the dataset, [next] comes back. *)
Lemma dataloader_next_returns (fuel : nat) (st : loader_state key) :
  (0 < dataset_size arrays)%nat -> (3 <= fuel)%nat ->
  benignM (dataloader_next arrays batch_size fuel st).
Proof.
  intros HN Hf.
  assert (Hepoch : forall f k,
            benignM (dataloader_next arrays batch_size (S (S f)) (LoaderEpoch k))).
  { intros f k. cbn [dataloader_next].
    apply benignM_bind; [apply benignM_jrandom_permutation|]. intros perm.
    apply benignM_bind; [apply benignM_split_one|]. intros k'.
    rewrite (proj2 (Z.ltb_lt _ _)) by lia. apply benignM_yield. }
  replace fuel with (S (S (S (fuel - 3)))) by lia.
  destruct st as [k|k|k perm start end_].
  - cbn [dataloader_next]. destruct (Nat.eqb _ _); [apply Hepoch|].
    now apply benignM_raise.
  - apply Hepoch.
  - cbn [dataloader_next]. destruct (Z.ltb _ _); [apply benignM_yield|apply Hepoch].
Qed.

(** With no row in the dataset, [next] never comes back. *)
Lemma dataloader_next_empty (fuel : nat) :
  dataset_size arrays = 0%nat -> length (snd arrays) = 0%nat ->
  forall st,
    match st with LoaderBatch _ _ start _ => (0 <= start)%Z | _ => True end ->
    fst (dataloader_next arrays batch_size fuel st) = OutOfFuel.
Proof.
  intros HN Hys. induction fuel as [|fuel IH]; intros st Hst; [reflexivity|].
  destruct st as [k|k|k perm start end_]; cbn [dataloader_next].
  - rewrite Hys, HN. simpl. now apply IH.
  - unfold jrandom_permutation, split_one, jrandom_split.
    cbn [bindM map seq retM].
    specialize (IH (LoaderBatch (split_child k 1 0)
                      (permutation k (seq 0 (dataset_size arrays))) 0%Z batch_size)).
    cbv beta iota in IH.
    destruct (dataloader_next arrays batch_size fuel _) as [r l].
    simpl in *. apply IH. lia.
  - rewrite (proj2 (Z.ltb_ge _ _)) by lia. now apply IH.
Qed.
End DataloaderRun.

(** ** One iteration of the training loop *)

Section MainFacts.
Context {key : Type} `{PRNG key}.
Variables Grads OptState : Type.
Variable loss_grad : LatentODE -> list vec -> list mat -> key -> Grads.
Variable optim_update : Grads -> OptState -> Grads * OptState.
Variable apply_updates : LatentODE -> Grads -> LatentODE.
Variable dataset : list vec * list mat.
Variable batch_size : Z.
Variables steps save_every : Z.
Variable sample_key : key.

Local Notation "'body'" :=
  (main_step loss_grad optim_update apply_updates dataset batch_size
             steps save_every sample_key).

(** The iteration spelled out by cases on what its three calls return. *)
Lemma main_step_eq (fuel : nat) (step : Z) (st : loop_state OptState) :
  body fuel step st
  = match dataloader_next dataset batch_size fuel (loader st) with
    | (Ok (batch, loader'), ll) =>
        match loss (model st) (fst batch) (snd batch) (train_key st) with
        | (Ok _, lv) =>
            let grads := loss_grad (model st) (fst batch) (snd batch) (train_key st) in
            let model' := apply_updates (model st) (fst (optim_update grads (opt_state st))) in
            let opt_state' := snd (optim_update grads (opt_state st)) in
            let train_key' := split_child (train_key st) 1 0 in
            let pre := ll ++ lv ++ [KeySplit (train_key st) 1; OptimUpdate step] in
            if plot_step steps save_every step
            then
              match axs st with
              | [] => (Raise StopIteration, pre)
              | ax :: axs' =>
                  match sample model' (jnp_linspace 0 12 300) sample_key with
                  | (Ok _, ls) =>
                      (Ok {| model := model'; opt_state := opt_state';
                             train_key := train_key'; axs := axs'; loader := loader' |},
                       pre ++ ls ++ [Plot ax step])
                  | (Raise e, ls) => (Raise e, pre ++ ls)
                  | (OutOfFuel, ls) => (OutOfFuel, pre ++ ls)
                  end
              end
            else
              (Ok {| model := model'; opt_state := opt_state';
                     train_key := train_key'; axs := axs st; loader := loader' |},
               pre)
        | (Raise e, lv) => (Raise e, ll ++ lv)
        | (OutOfFuel, lv) => (OutOfFuel, ll ++ lv)
        end
    | (Raise e, ll) => (Raise e, ll)
    | (OutOfFuel, ll) => (OutOfFuel, ll)
    end.
Proof.
  unfold main_step. generalize (jnp_linspace 0 12 300). intros sample_t.
  destruct (dataloader_next dataset batch_size fuel (loader st))
    as [[[batch loader']|e|] ll]; try reflexivity.
  cbn [bindM fst snd].
  destruct (loss (model st) (fst batch) (snd batch) (train_key st))
    as [[value|e|] lv]; try reflexivity.
  unfold split_one, jrandom_split, emit. cbn [bindM map seq retM raiseM].
  destruct (optim_update _ (opt_state st)) as [updates opt_state'].
  cbn [fst snd].
  destruct (plot_step steps save_every step).
  - destruct (axs st) as [|ax axs'].
    + cbn. rewrite ?app_nil_r. reflexivity.
    + destruct (sample (apply_updates (model st) updates) sample_t sample_key)
        as [[sample_y|e|] ls]; cbn; rewrite <- ?app_assoc; cbn;
        rewrite <- ?app_assoc; reflexivity.
  - cbn. rewrite ?app_nil_r. reflexivity.
Qed.
Lemma updates_of_app (l1 l2 : list (event key)) :
  updates_of (l1 ++ l2) = updates_of l1 ++ updates_of l2.
Proof. apply filter_app. Qed.

Lemma updates_of_only_keys (log : list (event key)) :
  only_keys log -> updates_of log = [].
Proof.
  unfold updates_of. induction 1 as [|e log He _ IH]; [reflexivity|].
  destruct e; simpl in *; auto; congruence.
Qed.

(** An iteration that comes back has made exactly one update; one that
    raises has made at most one; with a row in the dataset none hangs. *)
Lemma main_step_outcome (fuel : nat) (step : Z) (st : loop_state OptState) :
  (0 < dataset_size dataset)%nat -> (3 <= fuel)%nat ->
  match fst (body fuel step st) with
  | Ok _ => updates_of (snd (body fuel step st)) = [OptimUpdate step]
  | Raise _ => updates_of (snd (body fuel step st)) = []
               \/ updates_of (snd (body fuel step st)) = [OptimUpdate step]
  | OutOfFuel => False
  end.
Proof.
  intros HN Hf. rewrite main_step_eq.
  destruct (dataloader_next_returns dataset batch_size (loader st) HN Hf) as [Bl Kl].
  destruct (dataloader_next dataset batch_size fuel (loader st))
    as [[[batch loader']|e|] ll]; cbn [fst snd] in *;
    try (left; exact (updates_of_only_keys Kl)); try contradiction.
  destruct (benignM_loss (model st) (fst batch) (snd batch) (train_key st)) as [Bv Kv].
  destruct (loss (model st) (fst batch) (snd batch) (train_key st))
    as [[value|e|] lv]; cbn [fst snd] in *;
    try (left; now rewrite updates_of_app, (updates_of_only_keys Kl),
                 (updates_of_only_keys Kv));
    try contradiction.
  cbv zeta.
  assert (Hpre : updates_of (ll ++ lv ++ [KeySplit (train_key st) 1; OptimUpdate step])
                 = [OptimUpdate step]).
  { rewrite !updates_of_app, (updates_of_only_keys Kl), (updates_of_only_keys Kv).
    reflexivity. }
  destruct (plot_step steps save_every step); [|cbn [fst snd]; exact Hpre].
  destruct (axs st) as [|ax axs']; [cbn [fst snd]; now right|].
  match goal with
  | |- context [sample ?m ?t ?k] =>
      destruct (benignM_sample m t k) as [Bs Ks]; destruct (sample m t k) as [[y|e|] ls]
  end; cbn [fst snd] in *; try contradiction;
    rewrite (updates_of_app (ll ++ lv ++ _)), Hpre, ?updates_of_app,
      (updates_of_only_keys Ks); cbn; auto.
Qed.

Lemma for_loopM_cons {S A} (f : A -> S -> M key S) a l s :
  for_loopM f (a :: l) s = (s' <~ f a s ;; for_loopM f l s').
Proof. reflexivity. Qed.

(** The loop over a list of steps: one update per step, in order, up to
    the step that raises, if any. *)
Lemma for_loop_outcome (fuel : nat) (l : list Z) :
  (0 < dataset_size dataset)%nat -> (3 <= fuel)%nat ->
  forall st : loop_state OptState,
    match fst (for_loopM (body fuel) l st) with
    | Ok _ => updates_of (snd (for_loopM (body fuel) l st)) = map OptimUpdate l
    | Raise _ =>
        exists n, updates_of (snd (for_loopM (body fuel) l st))
                  = map OptimUpdate (firstn n l)
    | OutOfFuel => False
    end.
Proof.
  intros HN Hf. induction l as [|step l IH]; intros st; [reflexivity|].
  rewrite for_loopM_cons, bindM_unfold.
  pose proof (main_step_outcome step st HN Hf) as Hs.
  destruct (body fuel step st) as [[st'|e|] log]; cbn [fst snd] in *;
    [| |contradiction].
  - specialize (IH st'). rewrite updates_of_app, Hs.
    destruct (fst (for_loopM (body fuel) l st')); [| |contradiction].
    + now rewrite IH.
    + destruct IH as (n & IH). exists (S n). now rewrite IH.
  - destruct Hs as [Hs|Hs]; [exists 0%nat|exists 1%nat]; rewrite Hs; reflexivity.
Qed.

Lemma range_first (n : Z) : (1 <= n)%Z -> exists l, range n = 0%Z :: l.
Proof.
  intros Hn. unfold range. destruct (Z.to_nat n) as [|m] eqn:E; [lia|].
  simpl. eauto.
Qed.

(** Without a row in the dataset the first iteration never begins. *)
Lemma main_loop_hangs (fuel : nat) (model0 : LatentODE) (opt_state0 : OptState)
  (loader_key train_key0 : key) :
  dataset_size dataset = 0%nat -> length (snd dataset) = 0%nat -> (1 <= steps)%Z ->
  forall st,
    fst (main_loop loss_grad optim_update apply_updates dataset batch_size
                   steps save_every sample_key fuel model0 opt_state0
                   loader_key train_key0) <> Ok st.
Proof.
  intros HN Hys Hsteps st. unfold main_loop. rewrite bindM_unfold.
  destruct (num_plots steps save_every) as [n|e|]; cbn [lift fst snd];
    try discriminate.
  destruct (range_first Hsteps) as (l & ->).
  rewrite for_loopM_cons, bindM_unfold, main_step_eq. cbn [loader].
  pose proof (dataloader_next_empty dataset batch_size fuel HN Hys
                (LoaderStart loader_key) I) as D.
  destruct (dataloader_next dataset batch_size fuel (LoaderStart loader_key))
    as [[[batch loader']|e|] ll]; simpl in D; try discriminate.
Qed.

(** The axes iterator: an iteration that plots takes one axis, and only
    [next(axs)] on an exhausted iterator raises [StopIteration]. *)
Lemma main_step_axs (fuel : nat) (step : Z) (st st' : loop_state OptState) :
  fst (body fuel step st) = Ok st' ->
  axs st' = if plot_step steps save_every step then tl (axs st) else axs st.
Proof.
  rewrite main_step_eq.
  destruct (dataloader_next dataset batch_size fuel (loader st))
    as [[[batch loader']|e|] ll]; try discriminate.
  destruct (loss (model st) (fst batch) (snd batch) (train_key st))
    as [[value|e|] lv]; try discriminate.
  cbv zeta. destruct (plot_step steps save_every step).
  - destruct (axs st) as [|ax axs']; [discriminate|].
    match goal with
    | |- context [sample ?m ?t ?k] => destruct (sample m t k) as [[y|e|] ls]
    end; try discriminate.
    cbn [fst]. intros E. inversion E. reflexivity.
  - cbn [fst]. intros E. inversion E. reflexivity.
Qed.

Lemma main_step_no_stop (fuel : nat) (step : Z) (st : loop_state OptState) :
  (plot_step steps save_every step = true -> axs st <> []) ->
  fst (body fuel step st) <> Raise StopIteration.
Proof.
  intros Hax. rewrite main_step_eq.
  destruct (dataloader_next_never_stops dataset batch_size fuel (loader st)) as [Bl _].
  destruct (dataloader_next dataset batch_size fuel (loader st))
    as [[[batch loader']|e|] ll]; cbn [fst] in *; try discriminate;
    [|intros E; apply Bl; inversion E; reflexivity].
  destruct (benignM_loss (model st) (fst batch) (snd batch) (train_key st)) as [Bv _].
  destruct (loss (model st) (fst batch) (snd batch) (train_key st))
    as [[value|e|] lv]; cbn [fst] in *; try discriminate;
    [|intros E; apply Bv; inversion E; reflexivity].
  cbv zeta. destruct (plot_step steps save_every step); [|discriminate].
  destruct (axs st) as [|ax axs']; [now specialize (Hax eq_refl)|].
  match goal with
  | |- context [sample ?m ?t ?k] =>
      destruct (benignM_sample m t k) as [Bs _]; destruct (sample m t k) as [[y|e|] ls]
  end; cbn [fst] in *; try discriminate.
  intros E. apply Bs. inversion E. reflexivity.
Qed.

Lemma for_loop_no_stop (fuel : nat) (l : list Z) :
  forall st : loop_state OptState,
    (length (filter (plot_step steps save_every) l) <= length (axs st))%nat ->
    fst (for_loopM (body fuel) l st) <> Raise StopIteration.
Proof.
  induction l as [|step l IH]; intros st Hax; [discriminate|].
  rewrite for_loopM_cons, bindM_unfold.
  pose proof (@main_step_no_stop fuel step st) as Hs.
  pose proof (@main_step_axs fuel step st) as Ha.
  cbn [filter] in Hax.
  destruct (body fuel step st) as [[st'|e|] log]; cbn [fst snd] in *;
    [| |discriminate].
  - apply IH. rewrite (Ha st' eq_refl).
    destruct (plot_step steps save_every step); [|exact Hax].
    destruct (axs st); simpl in *; lia.
  - intros E. apply Hs; [|congruence].
    intros Hp. rewrite Hp in Hax. destruct (axs st); [simpl in Hax; lia|discriminate].
Qed.
End MainFacts.

(** ** The training loop *)

Ltac run_eval :=
  lazy -[Rplus Rmult Rminus Ropp Rinv Rdiv exp ln pow INR IZR Rmax relu identity].

Lemma length_range (n : Z) : length (range n) = Z.to_nat n.
Proof. unfold range. now rewrite length_map, length_seq. Qed.

(** C8, amended: on a dataset with at least one row the training loop
    never hangs on the generator; a run that raises nothing makes exactly
    [steps] optimizer updates, one in each of the iterations
    [0 .. steps - 1], and stops; a run that raises has made one update in
    each of its first iterations and none after. *)
Theorem main_loop_terminates {key} `{PRNG key} (Grads OptState : Type)
  (loss_grad : LatentODE -> list vec -> list mat -> key -> Grads)
  (optim_update : Grads -> OptState -> Grads * OptState)
  (apply_updates : LatentODE -> Grads -> LatentODE)
  (dataset : list vec * list mat) (batch_size steps save_every : Z)
  (sample_key : key) (fuel : nat) (model0 : LatentODE) (opt_state0 : OptState)
  (loader_key train_key0 : key) :
  (0 < dataset_size dataset)%nat -> (3 <= fuel)%nat ->
  let run := main_loop loss_grad optim_update apply_updates dataset batch_size
                       steps save_every sample_key fuel model0 opt_state0
                       loader_key train_key0 in
  fst run <> OutOfFuel
  /\ (forall st, fst run = Ok st ->
       updates_of (snd run) = map OptimUpdate (range steps)
       /\ length (updates_of (snd run)) = Z.to_nat steps)
  /\ (forall e, fst run = Raise e ->
       exists n, updates_of (snd run) = map OptimUpdate (firstn n (range steps))).
Proof.
  intros HN Hf run.
  assert (Hrun : match fst run with
                 | Ok _ => updates_of (snd run) = map OptimUpdate (range steps)
                 | Raise _ =>
                     exists n, updates_of (snd run)
                               = map OptimUpdate (firstn n (range steps))
                 | OutOfFuel => False
                 end).
  { unfold run, main_loop. rewrite bindM_unfold.
    destruct (num_plots steps save_every) as [n|e|] eqn:En; cbn [lift fst snd].
    - cbn [app]. apply for_loop_outcome; assumption.
    - exists 0%nat. reflexivity.
    - unfold num_plots, py_floordiv, py_mod in En.
      destruct (Z.eqb save_every 0); discriminate. }
  destruct (fst run) as [st|e|]; [| |contradiction].
  - split; [discriminate|]. split; [|discriminate].
    intros _ _. split; [exact Hrun|].
    now rewrite Hrun, length_map, length_range.
  - split; [discriminate|]. split; [discriminate|intros; exact Hrun].
Qed.

Lemma main_loop_terminates_witness :
  exists st,
    fst (small_run small_dataset 2 1 3) = Ok st
    /\ updates_of (snd (small_run small_dataset 2 1 3))
       = [OptimUpdate 0; OptimUpdate 1].
Proof.
  destruct (@main_loop_terminates path_key path_prng unit unit frozen_grad
              frozen_update frozen_apply small_dataset 1 2 1 [(5, 4)%nat] 3
              small_model tt [(5, 2)%nat] [(5, 3)%nat])
    as (_ & Hok & _); [vm_compute; lia | lia |].
  assert (E : exists st, fst (small_run small_dataset 2 1 3) = Ok st)
    by (eexists; run_eval; reflexivity).
  destruct E as (st & E). exists st. split; [exact E|].
  exact (proj1 (Hok st E)).
Defined.

(** C8 as stated fails on an empty dataset: the generator finds no batch
    to yield in any epoch, so not even the first iteration begins. *)
Lemma main_loop_empty_dataset_hangs :
  ~ exists fuel st log, small_run ([], []) 2 1 fuel = (Ok st, log).
Proof.
  intros (fuel & st & log & E).
  apply (f_equal fst) in E. revert E.
  apply main_loop_hangs; [reflexivity | reflexivity | lia].
Qed.

(** ** Plotting steps and preallocated axes *)

Lemma div_step (n k : Z) :
  (1 <= n)%Z -> (1 <= k)%Z ->
  (n / k = (n - 1) / k + (if n mod k =? 0 then 1 else 0))%Z.
Proof.
  intros Hn Hk.
  pose proof (Z.div_mod n k ltac:(lia)) as E.
  pose proof (Z.mod_pos_bound n k ltac:(lia)) as Bm.
  destruct (Z.eqb_spec (n mod k) 0) as [Z0|NZ].
  - rewrite <- (Z.div_unique (n - 1) k (n / k - 1) (k - 1)); lia.
  - rewrite <- (Z.div_unique (n - 1) k (n / k) (n mod k - 1)); lia.
Qed.

Lemma multiples_count (k : Z) (n : nat) :
  (1 <= k)%Z -> (1 <= n)%nat ->
  length (filter (fun s => (s mod k =? 0)%Z) (map Z.of_nat (seq 0 n)))
  = Z.to_nat (1 + (Z.of_nat n - 1) / k).
Proof.
  intros Hk Hn. induction n as [|n IH]; [lia|].
  destruct (Nat.eq_dec n 0) as [->|Hn0].
  - reflexivity.
  - rewrite seq_S, map_app, filter_app, length_app, IH by lia.
    cbn [Nat.add map filter].
    replace (Z.of_nat (S n) - 1)%Z with (Z.of_nat n) by lia.
    rewrite (div_step (n := Z.of_nat n) (k := k)) by lia.
    pose proof (Z.div_pos (Z.of_nat n - 1) k ltac:(lia) ltac:(lia)).
    destruct (Z.of_nat n mod k =? 0)%Z; cbn [length]; lia.
Qed.

Lemma num_plots_eq (steps save_every : Z) :
  save_every <> 0%Z ->
  num_plots steps save_every
  = Ok (1 + (steps - 1) / save_every
        + (if (steps - 1) mod save_every =? 0 then 0 else 1))%Z.
Proof.
  intros Hk. unfold num_plots, py_floordiv, py_mod.
  rewrite (proj2 (Z.eqb_neq save_every 0) Hk). cbn [bind].
  destruct ((steps - 1) mod save_every =? 0)%Z; f_equal; lia.
Qed.

Lemma plot_steps_count (steps save_every n : Z) :
  (1 <= steps)%Z -> (1 <= save_every)%Z ->
  num_plots steps save_every = Ok n ->
  length (filter (plot_step steps save_every) (range steps)) = Z.to_nat n.
Proof.
  intros Hs Hk En. rewrite num_plots_eq in En by lia.
  assert (En' : n = (1 + (steps - 1) / save_every
                     + (if (steps - 1) mod save_every =? 0 then 0 else 1))%Z)
    by congruence.
  clear En. subst n. unfold range. set (m := Z.to_nat (steps - 1)).
  replace (Z.to_nat steps) with (S m) by lia.
  replace (steps - 1)%Z with (Z.of_nat m) by lia.
  rewrite seq_S, map_app, filter_app, length_app. cbn [Nat.add map filter].
  assert (Hlast : plot_step steps save_every (Z.of_nat m) = true).
  { unfold plot_step. rewrite (proj2 (Z.eqb_eq (Z.of_nat m) (steps - 1))) by lia.
    apply orb_true_r. }
  rewrite Hlast. cbn [length].
  rewrite (filter_ext_in (plot_step steps save_every)
             (fun s => (s mod save_every =? 0)%Z)).
  2:{ intros s Hin. apply in_map_iff in Hin. destruct Hin as (i & <- & Hi).
      apply in_seq in Hi. unfold plot_step.
      rewrite (proj2 (Z.eqb_neq (Z.of_nat i) (steps - 1))) by lia.
      apply orb_false_r. }
  destruct (Nat.eq_dec m 0) as [->|Hm].
  - simpl. reflexivity.
  - rewrite multiples_count by lia.
    rewrite (div_step (n := Z.of_nat m) (k := save_every)) by lia.
    pose proof (Z.div_pos (Z.of_nat m - 1) save_every ltac:(lia) ltac:(lia)).
    destruct (Z.of_nat m mod save_every =? 0)%Z; lia.
Qed.

(** C10: for [steps >= 1] and [save_every >= 1] the iterations that take
    the plotting branch (those with [step % save_every == 0], and the
    last one) are exactly as many as the axes [main] allocates,
    [1 + (steps - 1) // save_every], plus one when [save_every] does not
    divide [steps - 1]; so [next(axs)] never finds the iterator
    exhausted, whatever else the run does. *)
Theorem plot_steps_match_axes (steps save_every : Z) :
  (1 <= steps)%Z -> (1 <= save_every)%Z ->
  exists n,
    num_plots steps save_every = Ok n
    /\ n = (1 + (steps - 1) / save_every
            + (if (steps - 1) mod save_every =? 0 then 0 else 1))%Z
    /\ length (filter (plot_step steps save_every) (range steps)) = Z.to_nat n
    /\ forall (key : Type) (P : PRNG key) (Grads OptState : Type)
         (loss_grad : LatentODE -> list vec -> list mat -> key -> Grads)
         (optim_update : Grads -> OptState -> Grads * OptState)
         (apply_updates : LatentODE -> Grads -> LatentODE)
         (dataset : list vec * list mat) (batch_size : Z) (sample_key : key)
         (fuel : nat) (model0 : LatentODE) (opt_state0 : OptState)
         (loader_key train_key0 : key),
        fst (main_loop loss_grad optim_update apply_updates dataset batch_size
                       steps save_every sample_key fuel model0 opt_state0
                       loader_key train_key0)
        <> Raise StopIteration.
Proof.
  intros Hs Hk.
  assert (En : exists n, num_plots steps save_every = Ok n
                 /\ n = (1 + (steps - 1) / save_every
                         + (if (steps - 1) mod save_every =? 0 then 0 else 1))%Z).
  { eexists. split; [apply num_plots_eq; lia|reflexivity]. }
  destruct En as (n & En & Hn). exists n.
  pose proof (plot_steps_count Hs Hk En) as Hc.
  split; [exact En|]. split; [exact Hn|]. split; [exact Hc|].
  intros. unfold main_loop. rewrite bindM_unfold, En. cbn [lift fst snd].
  apply for_loop_no_stop. cbn [axs]. rewrite length_seq, Hc. lia.
Qed.

Lemma plot_steps_match_axes_witness :
  num_plots 250 50 = Ok 6%Z
  /\ length (filter (plot_step 250 50) (range 250)) = 6%nat.
Proof.
  destruct (@plot_steps_match_axes 250 50) as (n & En & _ & Hc & _); [lia | lia |].
  assert (n = 6%Z) by (vm_compute in En; congruence). subst n.
  split; [exact En|exact Hc].
Defined.

(** ** The keys an iteration hands to jax.random *)

Section KeyLogs.
Context {key : Type} `{PRNG key}.

Lemma sample_log (self : LatentODE) (ts : vec) (k : key) :
  snd (sample self ts k) = [KeyNormal k (latent_size self)].
Proof.
  unfold sample, jrandom_normal. cbn [bindM lift].
  now destruct (_sample self ts _).
Qed.

Lemma _latent_draw_log (self : LatentODE) (hidden : vec) (k : key) r :
  fst (_latent_draw self hidden k) = Ok r ->
  snd (_latent_draw self hidden k) = [KeyNormal k (latent_size self)].
Proof.
  unfold _latent_draw, jrandom_normal.
  destruct (Linear_call (hidden_to_latent self) hidden) as [context| |];
    cbn [bindM lift fst snd]; try discriminate.
  destruct (elementwise Rmult _ _) as [scaled| |]; cbn [bindM fst snd];
    try discriminate.
  destruct (elementwise Rplus _ _) as [latent| |]; cbn [bindM retM fst snd];
    try discriminate.
  reflexivity.
Qed.

Lemma train_log (self : LatentODE) (ts : vec) (ys : mat) (k : key) v :
  fst (train self ts ys k) = Ok v ->
  snd (train self ts ys k) = [KeyNormal k (latent_size self)].
Proof.
  unfold train, _latent.
  destruct (_latent_hidden self ts ys) as [hidden| |]; cbn [bindM lift fst snd];
    try discriminate.
  pose proof (@_latent_draw_log self hidden k) as Hd.
  destruct (_latent_draw self hidden k) as [[[[latent mean] std]| |] log];
    cbn [bindM fst snd] in *; try discriminate.
  rewrite (Hd _ eq_refl).
  destruct (_sample self ts latent) as [pred_ys| |]; cbn [bindM lift fst snd];
    try discriminate.
  destruct (_loss ys pred_ys mean std); cbn [fst snd]; try discriminate.
  reflexivity.
Qed.

Lemma mapMM_ok {A B} (f : A -> M key B) (l : list A) (rs : list B) :
  fst (mapMM f l) = Ok rs ->
  Forall2 (fun a r => fst (f a) = Ok r) l rs
  /\ snd (mapMM f l) = concat (map (fun a => snd (f a)) l).
Proof.
  revert rs. induction l as [|a l IH]; intros rs E.
  - inversion E. split; [constructor|reflexivity].
  - cbn [mapMM] in *. rewrite bindM_unfold in *.
    destruct (f a) as [[b|e|] la] eqn:Ea; cbn [fst snd] in *; try discriminate.
    rewrite bindM_unfold in *.
    destruct (mapMM f l) as [[bs|e|] ll]; cbn [fst snd retM] in *; try discriminate.
    inversion E; subst. destruct (IH bs eq_refl) as [F L].
    split; [constructor; [now rewrite Ea|exact F]|].
    cbn [map concat]. rewrite Ea, L, app_nil_r. reflexivity.
Qed.

Lemma Forall2_ok_mapMM {A B} (f : A -> M key B) (l : list A) (rs : list B) :
  Forall2 (fun a r => fst (f a) = Ok r) l rs -> fst (mapMM f l) = Ok rs.
Proof.
  induction 1 as [|a r l rs E _ IH]; [reflexivity|].
  cbn [mapMM]. rewrite bindM_unfold, E, bindM_unfold, IH. reflexivity.
Qed.

Lemma loss_log (model : LatentODE) (ts_i : list vec) (ys_i : list mat) (k : key) v :
  fst (loss model ts_i ys_i k) = Ok v ->
  snd (loss model ts_i ys_i k)
  = KeySplit k (length ts_i)
    :: map (fun j => KeyNormal (split_child k (length ts_i) j) (latent_size model))
           (seq 0 (length ts_i)).
Proof.
  unfold loss, jrandom_split. cbn [bindM].
  set (keys := map (split_child k (length ts_i)) (seq 0 (length ts_i))).
  unfold vmap_train.
  destruct (Nat.eqb (length ts_i) (length ys_i) && Nat.eqb (length ys_i) (length keys))
    eqn:Hlen; [|cbn; discriminate].
  apply andb_prop in Hlen. destruct Hlen as [L1 L2].
  apply Nat.eqb_eq in L1, L2.
  rewrite bindM_unfold.
  pose proof (@mapMM_ok _ _
                (fun a => train model (fst (fst a)) (snd (fst a)) (snd a))
                (combine (combine ts_i ys_i) keys)) as Hm.
  destruct (mapMM _ (combine (combine ts_i ys_i) keys)) as [[losses|e|] log];
    cbn [fst snd retM] in *; try discriminate.
  intros _. destruct (Hm losses eq_refl) as [F L]. rewrite app_nil_r, L.
  f_equal. clear L Hm.
  assert (Hconcat : forall (items : list (vec * mat * key)) rs,
             Forall2 (fun a r => fst (train model (fst (fst a)) (snd (fst a)) (snd a)) = Ok r)
                     items rs ->
             concat (map (fun a => snd (train model (fst (fst a)) (snd (fst a)) (snd a))) items)
             = map (fun a => KeyNormal (snd a) (latent_size model)) items).
  { induction 1 as [|a r items rs E _ IH]; [reflexivity|].
    cbn [map concat]. rewrite (train_log _ _ _ _ E), IH. reflexivity. }
  rewrite (Hconcat _ _ F).
  rewrite <- (map_map snd (fun kk => KeyNormal kk (latent_size model))).
  assert (Hsnd : map snd (combine (combine ts_i ys_i) keys) = keys).
  { clear F Hconcat. revert L1 L2. generalize keys. clear keys.
    revert ys_i. induction ts_i as [|t ts IH]; intros [|y ys] [|kk keys] L1 L2;
      try discriminate; [reflexivity|].
    cbn [combine map snd]. f_equal. apply IH; simpl in *; congruence. }
  rewrite Hsnd. unfold keys. now rewrite map_map.
Qed.
End KeyLogs.

(** C3, amended: in an iteration that completes, the stored training key
    is handed to [jrandom.split] twice, once by [loss] for the subkeys of
    the batch elements, each of which feeds exactly one normal draw, and
    once by the loop, which stores the child of that one-way split as the
    training key of the next iteration; the sampling key is never split
    or replaced: a plotting step draws the prior sample from [sample_key]
    itself, the same key every time. *)
Theorem main_step_keys {key} `{PRNG key} (Grads OptState : Type)
  (loss_grad : LatentODE -> list vec -> list mat -> key -> Grads)
  (optim_update : Grads -> OptState -> Grads * OptState)
  (apply_updates : LatentODE -> Grads -> LatentODE)
  (dataset : list vec * list mat) (batch_size steps save_every : Z)
  (sample_key : key) (fuel : nat) (step : Z) (st st' : loop_state OptState)
  (log : list (event key)) :
  main_step loss_grad optim_update apply_updates dataset batch_size
            steps save_every sample_key fuel step st = (Ok st', log) ->
  exists batch loader' loader_log,
    dataloader_next dataset batch_size fuel (loader st)
    = (Ok (batch, loader'), loader_log)
    /\ train_key st' = split_child (train_key st) 1 0
    /\ log = loader_log
             ++ KeySplit (train_key st) (length (fst batch))
                :: map (fun j => KeyNormal (split_child (train_key st) (length (fst batch)) j)
                                           (latent_size (model st)))
                       (seq 0 (length (fst batch)))
             ++ [KeySplit (train_key st) 1; OptimUpdate step]
             ++ (if plot_step steps save_every step
                 then [KeyNormal sample_key (latent_size (model st'));
                       Plot (hd 0%nat (axs st)) step]
                 else []).
Proof.
  rewrite main_step_eq.
  destruct (dataloader_next dataset batch_size fuel (loader st))
    as [[[batch loader']|e|] ll]; try discriminate.
  pose proof (@loss_log key _ (model st) (fst batch) (snd batch) (train_key st)) as Hl.
  destruct (loss (model st) (fst batch) (snd batch) (train_key st))
    as [[value|e|] lv]; try discriminate.
  cbn [fst snd] in Hl. rewrite (Hl value eq_refl). clear Hl. cbv zeta.
  intros E. exists batch, loader', ll. split; [reflexivity|].
  destruct (plot_step steps save_every step).
  - destruct (axs st) as [|ax axs']; [discriminate|].
    match type of E with
    | context [sample ?m ?t ?k] =>
        pose proof (sample_log m t k) as Hs; destruct (sample m t k) as [[y|e|] ls]
    end; try discriminate.
    cbn [snd] in Hs. subst ls. inversion E; subst. cbn [train_key model hd].
    split; [reflexivity|].
    rewrite <- ?app_assoc; cbn [app]; rewrite <- ?app_assoc; reflexivity.
  - inversion E; subst. cbn [train_key]. split; [reflexivity|].
    rewrite <- ?app_assoc; cbn [app]; rewrite <- ?app_assoc, ?app_nil_r; reflexivity.
Qed.

Lemma main_step_keys_witness :
  exists st' log,
    main_step frozen_grad frozen_update frozen_apply small_dataset 1 2 1
              [(5, 4)%nat] 3 0 small_state = (Ok st', log)
    /\ train_key st' = [(1, 0); (5, 3)]%nat
    /\ consumed_keys log
       = [[(5, 2)]; [(5, 2)]; [(5, 3)]; [(1, 0); (5, 3)]; [(5, 3)]; [(5, 4)]]%nat.
Proof.
  assert (E : exists st' log,
             main_step frozen_grad frozen_update frozen_apply small_dataset 1 2 1
                       [(5, 4)%nat] 3 0 small_state = (Ok st', log))
    by (eexists _, _; run_eval; reflexivity).
  destruct E as (st' & log & E). exists st', log. split; [exact E|].
  destruct (main_step_keys _ _ _ _ _ _ _ _ _ _ _ E)
    as (batch & loader' & ll & En & Hk & Hlog).
  split; [exact Hk|].
  assert (Eb : length (fst batch) = 1%nat /\ ll = [KeyPermutation [(5, 2)%nat];
                                                   KeySplit [(5, 2)%nat] 1]).
  { revert En. run_eval. intros En. inversion En. split; reflexivity. }
  destruct Eb as [Eb ->]. rewrite Hlog, Eb. reflexivity.
Defined.

(** C3 as stated fails: over two iterations, both of which plot, the
    sampling key is consumed by both prior draws, the training key of
    each iteration by two splits, and the generator's key by the
    permutation and by the split that replaces it. *)
Lemma keys_consumed_twice :
  consumed_keys (snd (small_run small_dataset 2 1 3))
  = [ [(5, 2)]; [(5, 2)]; [(5, 3)]; [(1, 0); (5, 3)]; [(5, 3)]; [(5, 4)];
      [(1, 0); (5, 2)]; [(1, 0); (5, 2)]; [(1, 0); (5, 3)];
      [(1, 0); (1, 0); (5, 3)]; [(1, 0); (5, 3)]; [(5, 4)] ]%nat
  /\ ~ NoDup (consumed_keys (snd (small_run small_dataset 2 1 3))).
Proof.
  assert (E : consumed_keys (snd (small_run small_dataset 2 1 3))
              = [ [(5, 2)]; [(5, 2)]; [(5, 3)]; [(1, 0); (5, 3)]; [(5, 3)]; [(5, 4)];
                  [(1, 0); (5, 2)]; [(1, 0); (5, 2)]; [(1, 0); (5, 3)];
                  [(1, 0); (1, 0); (5, 3)]; [(1, 0); (5, 3)]; [(5, 4)] ]%nat)
    by (run_eval; reflexivity).
  split; [exact E|]. rewrite E. intros ND.
  apply (NoDup_remove_2 [ [(5, 2)]; [(5, 2)]; [(5, 3)]; [(1, 0); (5, 3)]; [(5, 3)] ]%nat
           _ [(5, 4)%nat]) in ND.
  apply ND. apply in_or_app. right. repeat (try (left; reflexivity); right).
Qed.

(** ** The minibatch loss and the order of the batch *)

Lemma jnp_sum_Permutation (u v : vec) : Permutation u v -> jnp_sum u = jnp_sum v.
Proof.
  unfold jnp_sum. induction 1; simpl; lra.
Qed.

Lemma jnp_mean_Permutation (u v : vec) : Permutation u v -> jnp_mean u = jnp_mean v.
Proof.
  intros P. unfold jnp_mean.
  now rewrite (jnp_sum_Permutation P), (Permutation_length P).
Qed.

(** C2, amended: the minibatch loss is the mean of the losses of the
    batch elements, each computed with the subkey of its position; any
    rearrangement of the batch in which every element keeps that subkey
    has the same mean.  (The mean is taken in exact arithmetic.) *)
Theorem loss_permutation_with_keys {key} `{PRNG key} (model : LatentODE)
  (ts_i : list vec) (ys_i : list mat) (key_i : key)
  (ts_i' : list vec) (ys_i' : list mat) (keys' : list key) (v : R) :
  length ts_i' = length ys_i' -> length ys_i' = length keys' ->
  Permutation
    (combine (combine ts_i ys_i)
             (map (split_child key_i (length ts_i)) (seq 0 (length ts_i))))
    (combine (combine ts_i' ys_i') keys') ->
  fst (loss model ts_i ys_i key_i) = Ok v ->
  exists losses losses',
    fst (vmap_train model ts_i ys_i
           (map (split_child key_i (length ts_i)) (seq 0 (length ts_i))))
    = Ok losses
    /\ v = jnp_mean losses
    /\ fst (vmap_train model ts_i' ys_i' keys') = Ok losses'
    /\ Permutation losses losses'
    /\ jnp_mean losses' = v.
Proof.
  intros L1' L2' P. unfold loss, jrandom_split. cbn [bindM].
  set (keys := map (split_child key_i (length ts_i)) (seq 0 (length ts_i))) in *.
  rewrite bindM_unfold.
  destruct (vmap_train model ts_i ys_i keys) as [[losses|e|] log] eqn:Ev;
    cbn [fst snd retM]; try discriminate.
  intros E. inversion E as [Hv]. clear E.
  unfold vmap_train in Ev |- *.
  destruct (Nat.eqb (length ts_i) (length ys_i) && Nat.eqb (length ys_i) (length keys));
    [|discriminate].
  rewrite (proj2 (Nat.eqb_eq _ _) L1'), (proj2 (Nat.eqb_eq _ _) L2'). cbn [andb].
  destruct (@mapMM_ok key _ _
              (fun a => train model (fst (fst a)) (snd (fst a)) (snd a))
              (combine (combine ts_i ys_i) keys) losses) as [F _].
  { now rewrite Ev. }
  destruct (Permutation_Forall2 P F) as (losses' & Pl & F').
  exists losses, losses'. split; [reflexivity|]. split; [reflexivity|].
  split; [now apply Forall2_ok_mapMM|]. split; [exact Pl|].
  symmetry. now apply jnp_mean_Permutation.
Qed.

Ltac real_eval :=
  f_equal; unfold Rdiv, pow, identity; simpl INR;
  replace (0 * 0 + 0 + 0) with 0 by lra; rewrite exp_0, ln_1; lra.

Lemma loss_permutation_with_keys_witness :
  exists losses',
    fst (vmap_train small_model [[0]; [0]] [[[1]]; [[0]]]
           ([[(2, 1)]; [(2, 0)]]%nat : list path_key)) = Ok losses'
    /\ jnp_mean losses' = 0
    /\ fst (loss small_model [[0]; [0]] [[[0]]; [[1]]] ([] : path_key)) = Ok 0.
Proof.
  assert (E : fst (loss small_model [[0]; [0]] [[[0]]; [[1]]] ([] : path_key)) = Ok 0)
    by (run_eval; real_eval).
  destruct (@loss_permutation_with_keys path_key path_prng small_model
              [[0]; [0]] [[[0]]; [[1]]] [] [[0]; [0]] [[[1]]; [[0]]]
              [[(2, 1)]; [(2, 0)]]%nat 0 eq_refl eq_refl)
    as (losses & losses' & _ & _ & E' & _ & Hm); [apply perm_swap | exact E |].
  exists losses'. split; [exact E'|]. split; [exact Hm|exact E].
Defined.

(** C2 as stated fails: the subkeys go with the positions, so swapping
    two elements of a batch hands each the other's noise.  Here the first
    position draws the latent 0 and the second the latent 1, and the
    decoder returns the latent as its prediction. *)
Lemma loss_changes_with_batch_order :
  fst (loss small_model [[0]; [0]] [[[0]]; [[1]]] ([] : path_key)) = Ok 0
  /\ fst (loss small_model [[0]; [0]] [[[1]]; [[0]]] ([] : path_key)) = Ok (/ 2)
  /\ fst (loss small_model [[0]; [0]] [[[0]]; [[1]]] ([] : path_key))
     <> fst (loss small_model [[0]; [0]] [[[1]]; [[0]]] ([] : path_key)).
Proof.
  assert (E1 : fst (loss small_model [[0]; [0]] [[[0]]; [[1]]] ([] : path_key)) = Ok 0)
    by (run_eval; real_eval).
  assert (E2 : fst (loss small_model [[0]; [0]] [[[1]]; [[0]]] ([] : path_key)) = Ok (/ 2))
    by (run_eval; real_eval).
  split; [exact E1|]. split; [exact E2|].
  rewrite E1, E2. intros E. inversion E. lra.
Qed.

(** * Further properties of the example *)

(** ** The encoder on well- and ill-shaped trajectories *)

Lemma concatenate_time_rows_mismatch (ts : vec) (ys : mat) :
  length ts <> length ys -> concatenate_time ts ys = Raise ShapeError.
Proof.
  revert ys. induction ts as [|t ts IH]; intros [|y ys] Hl; simpl in *;
    try reflexivity; try congruence.
  rewrite concatenate_time_cons || fold (concatenate_time ts ys).
  rewrite IH by congruence. reflexivity.
Qed.

(** X1: a trajectory whose times and observations differ in number is
    rejected with a shape error before the cell is called and before the
    key is used. *)
Theorem _latent_rows_mismatch {key} `{PRNG key} (self : LatentODE)
  (ts : vec) (ys : mat) (k : key) :
  length ts <> length ys ->
  _latent self ts ys k = (Raise ShapeError, []).
Proof.
  intros Hl. unfold _latent, _latent_hidden.
  rewrite (concatenate_time_rows_mismatch _ _ Hl). reflexivity.
Qed.

Lemma _latent_rows_mismatch_witness :
  _latent small_model [0; 1; 2] [[0]; [0]] ([] : path_key) = (Raise ShapeError, []).
Proof. apply _latent_rows_mismatch. simpl. lia. Defined.

Lemma _latent_hidden_ok (data_size : nat) (self : LatentODE) (ts : vec) :
  cell_keeps_shape (rnn_cell self) (S data_size) (hidden_size self) ->
  forall ys,
    length ys = length ts ->
    Forall (fun y => length y = data_size) ys ->
    exists summary,
      _latent_hidden self ts ys = Ok summary /\ length summary = hidden_size self.
Proof.
  intros Hcell. induction ts as [|t ts IH]; intros [|y ys] Hl Hy; try discriminate.
  - exists (jnp_zeros (hidden_size self)). split; [reflexivity|].
    apply repeat_length.
  - inversion Hy as [|? ? Hy1 Hy2]; subst.
    destruct (IH ys) as (later & El & Ll); [simpl in Hl; congruence|exact Hy2|].
    destruct (Hcell (t :: y) later) as (h' & Eh & Lh); [reflexivity|exact Ll|].
    exists h'. rewrite _latent_hidden_cons, El. simpl. rewrite Eh.
    split; [reflexivity|exact Lh].
Qed.

(** X2: with a cell that takes inputs of [data_size + 1] entries and
    keeps a state of [hidden_size] entries, every trajectory of
    [data_size]-dimensional observations, the empty one included, is
    encoded into a summary of exactly [hidden_size] entries; the empty
    trajectory gives the zero vector. *)
Theorem _latent_hidden_summary (data_size : nat) (self : LatentODE)
  (ts : vec) (ys : mat) :
  cell_keeps_shape (rnn_cell self) (S data_size) (hidden_size self) ->
  length ys = length ts ->
  Forall (fun y => length y = data_size) ys ->
  (exists summary,
      _latent_hidden self ts ys = Ok summary /\ length summary = hidden_size self)
  /\ _latent_hidden self [] [] = Ok (repeat 0 (hidden_size self)).
Proof.
  intros Hcell Hl Hy. split; [|reflexivity].
  now apply _latent_hidden_ok with (data_size := data_size).
Qed.

Lemma _latent_hidden_summary_witness :
  exists summary,
    _latent_hidden small_model [0; 1] [[5]; [7]] = Ok summary
    /\ length summary = 1%nat.
Proof.
  destruct (@_latent_hidden_summary 1 small_model [0; 1] [[5]; [7]]) as [Hs _].
  - intros x h _ Lh. exists h. split; [reflexivity|exact Lh].
  - reflexivity.
  - repeat constructor.
  - exact Hs.
Defined.

(** ** The sign of the loss *)

Lemma kl_term_nonneg (m s : R) : 0 < s -> 0 <= kl_term m s.
Proof.
  intros Hs. unfold kl_term.
  pose proof (exp_ineq1_le (2 * ln s)) as E.
  replace (2 * ln s) with (ln s + ln s) in E at 2 by lra.
  rewrite exp_plus, (exp_ln s Hs) in E. nra.
Qed.

Lemma kl_term_zero (m s : R) : 0 < s -> kl_term m s = 0 -> m = 0 /\ s = 1.
Proof.
  intros Hs Hz. unfold kl_term in Hz.
  pose proof (exp_ineq1_le (2 * ln s)) as E.
  replace (2 * ln s) with (ln s + ln s) in E at 2 by lra.
  rewrite exp_plus, (exp_ln s Hs) in E.
  assert (Hm : m = 0) by nra. split; [exact Hm|]. subst m.
  destruct (Req_dec (2 * ln s) 0) as [Hl|Hl].
  - assert (Hln : ln s = 0) by lra.
    rewrite <- (exp_ln s Hs), Hln. apply exp_0.
  - pose proof (exp_ineq1 (2 * ln s) Hl) as E'.
    replace (2 * ln s) with (ln s + ln s) in E' at 2 by lra.
    rewrite exp_plus, (exp_ln s Hs) in E'. nra.
Qed.

Lemma sum_over_nonneg (f : R -> R -> R) (u v : vec) :
  (forall a b, In b v -> 0 <= f a b) -> 0 <= sum_over f u v.
Proof.
  revert v. induction u as [|a u IH]; intros [|b v] Hf; simpl; try lra.
  pose proof (Hf a b (or_introl eq_refl)).
  pose proof (IH v (fun a' b' Hb => Hf a' b' (or_intror Hb))). lra.
Qed.

Lemma sum_over2_squared_error_nonneg (a b : mat) : 0 <= sum_over2 squared_error a b.
Proof.
  revert b. induction a as [|r a IH]; intros [|s b]; simpl; try lra.
  pose proof (IH b).
  assert (0 <= sum_over squared_error r s).
  { apply sum_over_nonneg. intros x y _. unfold squared_error. apply pow2_ge_0. }
  lra.
Qed.

(** X3: on operands of matching shapes and a positive standard deviation
    (what [exp] gives), the loss is never negative: the squared errors
    are not, and neither is any term of the KL sum. *)
Theorem _loss_nonnegative (ys pred_ys : mat) (mean std : vec) :
  same_shape ys pred_ys -> length mean = length std ->
  Forall (fun s => 0 < s) std ->
  exists v, _loss ys pred_ys mean std = Ok v /\ 0 <= v.
Proof.
  intros S E P. unfold _loss.
  rewrite (reconstruction_loss_eq S), (variational_loss_eq _ _ E). simpl.
  eexists. split; [reflexivity|].
  pose proof (sum_over2_squared_error_nonneg ys pred_ys).
  assert (0 <= sum_over kl_term mean std).
  { apply sum_over_nonneg. intros m s Hs. apply kl_term_nonneg.
    exact (proj1 (Forall_forall _ _) P s Hs). }
  lra.
Qed.

Lemma _loss_nonnegative_witness :
  exists v, _loss [[1; 2]] [[0; 5]] [1; - 1] [2; / 2] = Ok v /\ 0 <= v.
Proof.
  apply _loss_nonnegative.
  - repeat constructor.
  - reflexivity.
  - repeat constructor; lra.
Defined.

(** X4: for a positive standard deviation the KL term vanishes only at
    the prior: it is 0 exactly when every mean is 0 and every standard
    deviation is 1. *)
Theorem variational_loss_zero_iff (mean std : vec) :
  length mean = length std -> Forall (fun s => 0 < s) std ->
  (variational_loss mean std = Ok 0
   <-> Forall (fun m => m = 0) mean /\ Forall (fun s => s = 1) std).
Proof.
  intros E P. rewrite (variational_loss_eq _ _ E).
  assert (Hiff : sum_over kl_term mean std = 0
                 <-> Forall (fun m => m = 0) mean /\ Forall (fun s => s = 1) std).
  { revert std E P. induction mean as [|m mean IH]; intros [|s std] E P;
      try discriminate.
    - simpl. split; [intros _; split; constructor|reflexivity].
    - inversion P as [|? ? Hs Pstd]; subst. simpl in E.
      specialize (IH std ltac:(congruence) Pstd). simpl.
      pose proof (@kl_term_nonneg m s Hs) as N1.
      assert (N2 : 0 <= sum_over kl_term mean std).
      { apply sum_over_nonneg. intros a b Hb. apply kl_term_nonneg.
        exact (proj1 (Forall_forall _ _) Pstd b Hb). }
      split.
      + intros Hz. assert (Hk : kl_term m s = 0) by lra.
        assert (Hr : sum_over kl_term mean std = 0) by lra.
        destruct (@kl_term_zero m s Hs Hk) as [-> ->].
        destruct (proj1 IH Hr) as [Fm Fs]. split; constructor; auto.
      + intros [Fm Fs]. inversion Fm; inversion Fs; subst.
        rewrite (proj2 IH (conj H2 H6)). unfold kl_term. rewrite ln_1. lra. }
  split.
  - intros Hz. apply Hiff. inversion Hz. lra.
  - intros Hf. apply Hiff in Hf. rewrite Hf. f_equal. lra.
Qed.

Lemma variational_loss_zero_iff_witness :
  variational_loss [0; 0] [1; 1] = Ok 0
  /\ variational_loss [0; 3] [1; 1] <> Ok 0.
Proof.
  destruct (@variational_loss_zero_iff [0; 0] [1; 1]) as [_ H1];
    [reflexivity | repeat constructor; lra |].
  destruct (@variational_loss_zero_iff [0; 3] [1; 1]) as [H2 _];
    [reflexivity | repeat constructor; lra |].
  split.
  - apply H1. split; repeat constructor.
  - intros Hz. destruct (H2 Hz) as [Fm _].
    inversion Fm as [|? ? _ Fm']. inversion Fm' as [|? ? H3 _]. lra.
Defined.

(** ** Encoder, decoder and loss together *)

Lemma _latent_draw_ok {key} `{PRNG key} (self : LatentODE) (hidden : vec) (k : key) :
  Linear_shape (hidden_size self) (2 * latent_size self) (hidden_to_latent self) ->
  length hidden = hidden_size self ->
  exists latent mean std,
    _latent_draw self hidden k = (Ok (latent, mean, std), [KeyNormal k (latent_size self)])
    /\ length latent = latent_size self
    /\ length mean = latent_size self
    /\ length std = latent_size self
    /\ Forall (fun s => 0 < s) std.
Proof.
  intros S Hh.
  destruct (Linear_call_shape hidden S Hh) as (context & Ec & Lc).
  assert (Lm : length (firstn (latent_size self) context) = latent_size self)
    by (rewrite length_firstn; lia).
  assert (Ls : length (map exp (skipn (latent_size self) context)) = latent_size self)
    by (rewrite length_map, length_skipn; lia).
  assert (Ln : length (map (normal_at k (latent_size self)) (seq 0 (latent_size self)))
               = latent_size self)
    by now rewrite length_map, length_seq.
  eexists _, _, _. split; [|split; [|split; [exact Lm|split; [exact Ls|]]]].
  - unfold _latent_draw. rewrite Ec. cbn.
    rewrite elementwise_same_length by congruence. cbn.
    rewrite elementwise_same_length by (rewrite length_zip_with; congruence).
    reflexivity.
  - rewrite length_zip_with; [exact Lm|]. rewrite length_zip_with; congruence.
  - apply exp_positive.
Qed.

Lemma same_shape_rows (n : nat) (a b : mat) :
  length a = length b ->
  Forall (fun r => length r = n) a -> Forall (fun r => length r = n) b ->
  same_shape a b.
Proof.
  revert b. induction a as [|r a IH]; intros [|s b] Hl Fa Fb; try discriminate.
  - constructor.
  - inversion Fa; inversion Fb; subst. constructor; [congruence|].
    apply IH; simpl in Hl; auto.
Qed.

(** On a grid on which the solves from states of dimension
    [hidden_size] succeed, [_sample] returns. *)
Lemma _sample_returns_on (data_size hidden_size' latent_size' width_size depth : nat)
  (self : LatentODE) (ts latent : vec) :
  LatentODE_shape data_size hidden_size' latent_size' width_size depth self ->
  solves_on (solver self) hidden_size' (4 / 10) ts ->
  ts <> [] ->
  length latent = latent_size' ->
  exists out, _sample self ts latent = Ok out.
Proof.
  intros [_ _ _ Smlp Sdata] Hsolves Hne Hlatent. unfold _sample.
  destruct (@MLP_layers_call_shape (activation (latent_to_hidden self))
              (final_activation (latent_to_hidden self)) depth _ _ _ _ _ Smlp Hlatent)
    as (y0 & Ey0 & Ly0).
  unfold MLP_call. rewrite Ey0. simpl.
  destruct (first_elt_ok Hne) as (t0 & Et0).
  destruct (last_elt_ok Hne) as (t1 & Et1).
  rewrite Et0, Et1. simpl.
  destruct (@mapM_Forall_ok R vec
              (fun t => of_option SolveFailure
                          (solve_at (solver self) t0 t1 y0 (4 / 10) t))
              (fun y => length y = hidden_size') ts)
    as (states & Es & Ls & Ps).
  { eapply Forall_impl; [|exact (Hsolves t0 t1 y0 Et0 Et1 Ly0)].
    intros t (y & Ey & Ly). exists y. rewrite Ey. split; [reflexivity|exact Ly]. }
  unfold diffeqsolve. simpl. rewrite Es. simpl.
  destruct (@mapM_Forall_ok vec vec (Linear_call (hidden_to_data self))
              (fun y => length y = data_size) states)
    as (out & Eo & Lo & Po).
  { eapply Forall_impl; [|exact Ps]. intros h Lh.
    exact (Linear_call_shape h Sdata Lh). }
  exists out. exact Eo.
Qed.

(** The encoder returns whatever the solver does. *)
Lemma _latent_returns {key} `{PRNG key}
  (data_size hidden_size' latent_size' width_size depth : nat)
  (self : LatentODE) (ts : vec) (ys : mat) (k : key) :
  LatentODE_shape data_size hidden_size' latent_size' width_size depth self ->
  cell_keeps_shape (rnn_cell self) (S data_size) hidden_size' ->
  length ys = length ts ->
  Forall (fun y => length y = data_size) ys ->
  exists latent mean std,
    _latent self ts ys k = (Ok (latent, mean, std), [KeyNormal k latent_size'])
    /\ length latent = latent_size'
    /\ length mean = length std
    /\ Forall (fun s => 0 < s) std.
Proof.
  intros S Hcell Hl Hy.
  pose proof S as [Sh Sl Shl Smlp Sdata].
  destruct (@_latent_hidden_ok data_size self ts) with (ys := ys)
    as (hidden & Eh & Lh); [now rewrite Sh|exact Hl|exact Hy|].
  destruct (@_latent_draw_ok key _ self hidden k)
    as (latent & mean & std & Ed & Ll & Lm & Ls & Ps);
    [now rewrite Sh, Sl|exact Lh|].
  exists latent, mean, std.
  split; [|split; [congruence|split; [congruence|exact Ps]]].
  unfold _latent. rewrite Eh. cbn [lift bindM]. rewrite Ed, Sl. reflexivity.
Qed.

(** What [train] returns once the encoder and the decoder have. *)
Lemma train_after_sample {key} `{PRNG key} (data_size hidden_size' : nat)
  (self : LatentODE) (ts : vec) (ys : mat) (k : key)
  (latent mean std : vec) (log : list (event key)) (pred_ys : mat) :
  Linear_shape hidden_size' data_size (hidden_to_data self) ->
  length ys = length ts ->
  Forall (fun y => length y = data_size) ys ->
  length mean = length std ->
  Forall (fun s => 0 < s) std ->
  _latent self ts ys k = (Ok (latent, mean, std), log) ->
  _sample self ts latent = Ok pred_ys ->
  train self ts ys k = (Ok (loss_spec ys pred_ys mean std), log)
  /\ 0 <= loss_spec ys pred_ys mean std.
Proof.
  intros Sdata Hl Hy Elen Ps El Ep.
  destruct (@_sample_output_shape data_size hidden_size' self ts latent pred_ys Sdata Ep)
    as [Lp Fp].
  assert (Sshape : same_shape ys pred_ys)
    by (apply same_shape_rows with (n := data_size); auto; congruence).
  split.
  - unfold train. rewrite El. cbn [bindM]. rewrite Ep. cbn [lift bindM].
    unfold _loss.
    rewrite (reconstruction_loss_eq Sshape), (variational_loss_eq _ _ Elen).
    cbn. now rewrite app_nil_r.
  - unfold loss_spec.
    pose proof (sum_over2_squared_error_nonneg ys pred_ys).
    assert (0 <= sum_over kl_term mean std).
    { apply sum_over_nonneg. intros m s Hs. apply kl_term_nonneg.
      exact (proj1 (Forall_forall _ _) Ps s Hs). }
    lra.
Qed.

(** X5: on a model of consistent shapes whose cell keeps shapes, for
    every trajectory of [L] times and [L] observations of dimension
    [data_size], the encoder returns and the key is used for exactly one
    normal draw of [latent_size] components; whatever [train] returns is
    the loss of the reconstruction decoded from the latent the encoder
    drew, and is not negative (over the reals); and [train] does return
    when [L >= 1] and the solves from states of dimension [hidden_size]
    succeed on these times. *)
Theorem train_returns {key} `{PRNG key}
  (data_size hidden_size' latent_size' width_size depth : nat)
  (self : LatentODE) (ts : vec) (ys : mat) (k : key) :
  LatentODE_shape data_size hidden_size' latent_size' width_size depth self ->
  cell_keeps_shape (rnn_cell self) (S data_size) hidden_size' ->
  length ys = length ts ->
  Forall (fun y => length y = data_size) ys ->
  exists latent mean std,
    _latent self ts ys k = (Ok (latent, mean, std), [KeyNormal k latent_size'])
    /\ snd (train self ts ys k) = [KeyNormal k latent_size']
    /\ (forall v,
          fst (train self ts ys k) = Ok v ->
          exists pred_ys,
            _sample self ts latent = Ok pred_ys
            /\ v = loss_spec ys pred_ys mean std
            /\ 0 <= v)
    /\ (ts <> [] ->
        solves_on (solver self) hidden_size' (4 / 10) ts ->
        exists pred_ys,
          _sample self ts latent = Ok pred_ys
          /\ fst (train self ts ys k) = Ok (loss_spec ys pred_ys mean std)
          /\ 0 <= loss_spec ys pred_ys mean std).
Proof.
  intros S Hcell Hl Hy.
  destruct (@_latent_returns key _ data_size hidden_size' latent_size' width_size
              depth self ts ys k S Hcell Hl Hy)
    as (latent & mean & std & El & Ll & Elen & Ps).
  pose proof (shape_hidden_to_data S) as Sdata.
  assert (Hafter : forall pred_ys,
             _sample self ts latent = Ok pred_ys ->
             train self ts ys k
             = (Ok (loss_spec ys pred_ys mean std), [KeyNormal k latent_size'])
             /\ 0 <= loss_spec ys pred_ys mean std).
  { intros pred_ys Ep.
    exact (@train_after_sample key _ data_size hidden_size' self ts ys k latent mean
             std _ pred_ys Sdata Hl Hy Elen Ps El Ep). }
  exists latent, mean, std. split; [exact El|]. split; [|split].
  - unfold train. rewrite El. cbn [bindM].
    destruct (_sample self ts latent) as [pred_ys| |]; cbn [lift bindM snd];
      [|reflexivity|reflexivity].
    destruct (_loss ys pred_ys mean std); cbn [snd]; now rewrite app_nil_r.
  - intros v Ev.
    destruct (_sample self ts latent) as [pred_ys|e|] eqn:Ep.
    + destruct (Hafter pred_ys eq_refl) as [Et Hv]. rewrite Et in Ev.
      cbn [fst] in Ev. inversion Ev; subst. exists pred_ys. auto.
    + unfold train in Ev. rewrite El in Ev. cbn [bindM] in Ev.
      rewrite Ep in Ev. discriminate.
    + unfold train in Ev. rewrite El in Ev. cbn [bindM] in Ev.
      rewrite Ep in Ev. discriminate.
  - intros Hne Hsolves.
    destruct (@_sample_returns_on _ _ _ _ _ self ts latent S Hsolves Hne Ll)
      as (pred_ys & Ep).
    destruct (Hafter pred_ys Ep) as [Et Hv].
    exists pred_ys. split; [exact Ep|]. split; [now rewrite Et|exact Hv].
Qed.

Lemma zero_Linear_shape (i o : nat) (k : path_key) : Linear_shape i o (zero_Linear i o k).
Proof.
  unfold Linear_shape, zero_Linear. simpl. rewrite !repeat_length.
  repeat split. apply Forall_forall. intros row Hr.
  apply repeat_spec in Hr. subst. apply repeat_length.
Qed.

Lemma zero_layers_shape (w d : nat) :
  forall i o, MLP_layers_shape i o w d (zero_layers i o w d).
Proof.
  induction d as [|d IH]; intros i o; simpl.
  - apply zero_Linear_shape.
  - split; [apply zero_Linear_shape|apply IH].
Qed.

Lemma zero_MLP_shapes : MLP_init_shapes zero_MLP.
Proof. intros i o w d act fin k. repeat split. apply zero_layers_shape. Qed.

Lemma keep_cell_shapes : GRUCell_init_shapes keep_cell.
Proof.
  intros i h k x hidden Lx Lh. exists hidden. unfold keep_cell.
  rewrite (proj2 (Nat.eqb_eq _ _) Lx), (proj2 (Nat.eqb_eq _ _) Lh).
  split; [reflexivity|exact Lh].
Qed.

Lemma checked_model_shape : LatentODE_shape 2 2 1 3 1 checked_model.
Proof.
  constructor; cbn [checked_model hidden_size latent_size hidden_to_latent
                    latent_to_hidden hidden_to_data zero_MLP layers];
    try reflexivity; try apply zero_Linear_shape.
  apply zero_layers_shape.
Qed.

Lemma checked_model_cell : cell_keeps_shape (rnn_cell checked_model) 3 2.
Proof. apply keep_cell_shapes. Qed.

(** [field_solver] succeeds from the states its field is built for, and
    from no other. *)
Lemma field_solver_solves (f : Func) (n width_size depth : nat) (dt0 : R) (ts : vec) :
  MLP_layers_shape n n width_size depth (layers (mlp f)) ->
  solves_on (field_solver f) n dt0 ts.
Proof.
  intros Sf t0 t1 y0 _ _ Ly. apply Forall_forall. intros t _.
  exists y0. split; [|exact Ly]. cbn [field_solver solve_at].
  unfold Func_call, MLP_call.
  destruct (@MLP_layers_call_shape (activation (mlp f)) (final_activation (mlp f))
              depth _ _ _ _ _ Sf Ly) as (out & -> & _).
  reflexivity.
Qed.

Lemma checked_model_solves (ts : vec) :
  solves_on (solver checked_model) 2 (4 / 10) ts.
Proof.
  apply field_solver_solves with (width_size := 3%nat) (depth := 1%nat).
  apply zero_layers_shape.
Qed.

(** The solver of [checked_model] rejects a state of dimension 1: it does
    not succeed on every state, only on those of dimension
    [hidden_size]. *)
Lemma checked_solver_checks :
  solve_at (solver checked_model) 0 1 [0] (4 / 10) 0 = None
  /\ ~ solver_succeeds (solver checked_model).
Proof.
  assert (E : solve_at (solver checked_model) 0 1 [0] (4 / 10) 0 = None)
    by reflexivity.
  split; [exact E|]. intros Hs.
  specialize (Hs 0 0 [0] (4 / 10) [0]).
  assert (F : Forall (fun t => exists y,
                        solve_at (solver checked_model) 0 0 [0] (4 / 10) t = Some y
                        /\ length y = length [0]) [0]).
  { apply Hs; [repeat constructor|reflexivity|reflexivity]. }
  inversion F as [|? ? (y & Ey & _) _]. discriminate Ey.
Qed.

Lemma train_returns_witness :
  exists v,
    fst (train checked_model [0; 1] [[5; 7]; [1; 2]] ([] : path_key)) = Ok v
    /\ 0 <= v.
Proof.
  destruct (@train_returns path_key path_prng 2 2 1 3 1 checked_model
              [0; 1] [[5; 7]; [1; 2]] [])
    as (latent & mean & std & _ & _ & _ & Htotal).
  - exact checked_model_shape.
  - exact checked_model_cell.
  - reflexivity.
  - repeat constructor.
  - destruct Htotal as (pred_ys & _ & Et & Hv).
    + discriminate.
    + apply checked_model_solves.
    + eexists. split; [exact Et|exact Hv].
Defined.

(** X6: on a model of consistent shapes [sample] uses its key for
    exactly one normal draw of [latent_size] components; whatever it
    returns has one vector of dimension [data_size] per time of the grid;
    and it does return on a non-empty grid on which the solves from
    states of dimension [hidden_size] succeed. *)
Theorem sample_shape {key} `{PRNG key}
  (data_size hidden_size' latent_size' width_size depth : nat)
  (self : LatentODE) (ts : vec) (k : key) :
  LatentODE_shape data_size hidden_size' latent_size' width_size depth self ->
  snd (sample self ts k) = [KeyNormal k latent_size']
  /\ (forall out,
        fst (sample self ts k) = Ok out ->
        length out = length ts /\ Forall (fun y => length y = data_size) out)
  /\ (ts <> [] ->
      solves_on (solver self) hidden_size' (4 / 10) ts ->
      exists out,
        fst (sample self ts k) = Ok out
        /\ length out = length ts
        /\ Forall (fun y => length y = data_size) out).
Proof.
  intros S. pose proof S as [Sh Sl Shl Smlp Sdata].
  set (latent := map (normal_at k (latent_size self)) (seq 0 (latent_size self))).
  assert (Es : sample self ts k
               = (_sample self ts latent, [KeyNormal k latent_size'])).
  { unfold sample, jrandom_normal. cbn [bindM]. fold latent.
    destruct (_sample self ts latent); cbn; now rewrite Sl. }
  rewrite Es. cbn [fst snd]. split; [reflexivity|]. split.
  - intros out Eo.
    exact (@_sample_output_shape data_size hidden_size' self ts latent out Sdata Eo).
  - intros Hne Hsolves.
    destruct (@_sample_returns_on _ _ _ _ _ self ts latent S Hsolves Hne)
      as (out & Eo); [unfold latent; now rewrite length_map, length_seq|].
    exists out. split; [exact Eo|].
    exact (@_sample_output_shape data_size hidden_size' self ts latent out Sdata Eo).
Qed.

Lemma sample_shape_witness :
  exists out,
    fst (sample checked_model [0; 1; 3] ([] : path_key)) = Ok out
    /\ length out = 3%nat.
Proof.
  destruct (@sample_shape path_key path_prng 2 2 1 3 1 checked_model [0; 1; 3] [])
    as (_ & _ & Htotal).
  - exact checked_model_shape.
  - destruct Htotal as (out & Es & Lo & _).
    + discriminate.
    + apply checked_model_solves.
    + exists out. split; [exact Es|exact Lo].
Defined.

Lemma StronglySorted_map_seq (f : nat -> R) (n : nat) :
  (forall i j, (i < j)%nat -> f i < f j) ->
  forall a, StronglySorted Rlt (map f (seq a n)).
Proof.
  intros Hf. induction n as [|n IH]; intros a; simpl; constructor.
  - apply IH.
  - apply Forall_forall. intros x Hx. apply in_map_iff in Hx.
    destruct Hx as (j & <- & Hj). apply in_seq in Hj. apply Hf. lia.
Qed.

Lemma jnp_linspace_increasing (start stop : R) (num : nat) :
  start < stop -> (2 <= num)%nat ->
  StronglySorted Rlt (jnp_linspace start stop num)
  /\ length (jnp_linspace start stop num) = num.
Proof.
  intros Hlt Hnum. unfold jnp_linspace. split.
  - apply StronglySorted_map_seq. intros i j Hij.
    assert (Hd : 0 < (stop - start) / INR (num - 1)).
    { apply Rdiv_lt_0_compat; [lra|]. apply lt_0_INR. lia. }
    pose proof (lt_INR i j Hij). nra.
  - now rewrite length_map, length_seq.
Qed.

Lemma jnp_linspace_ends (start stop : R) (num : nat) :
  (2 <= num)%nat ->
  first_elt (jnp_linspace start stop num) = Ok start
  /\ last_elt (jnp_linspace start stop num) = Ok stop.
Proof.
  intros Hnum. unfold jnp_linspace, first_elt, last_elt.
  destruct num as [|n]; [lia|]. split.
  - simpl seq. cbn [map hd_error of_option]. f_equal. simpl INR. lra.
  - rewrite seq_S, map_app, rev_app_distr. cbn [map rev app hd_error of_option Nat.add].
    f_equal. replace (S n - 1)%nat with n by lia.
    assert (Hn : INR n <> 0) by (apply not_0_INR; lia).
    field. exact Hn.
Qed.

(** A column within the width of the rows is there, with one entry per
    row; a column beyond it is an index error. *)
Lemma column_ok (n j : nat) (a : mat) :
  Forall (fun row => length row = n) a -> (j < n)%nat ->
  exists c, column a j = Ok c /\ length c = length a.
Proof.
  intros F Hj. unfold column.
  destruct (@mapM_Forall_ok vec R (fun row => of_option IndexError (nth_error row j))
              (fun _ => True) a) as (c & Ec & Lc & _).
  - eapply Forall_impl; [|exact F]. intros row Lr.
    destruct (nth_error row j) as [x|] eqn:Ex.
    + exists x. split; [reflexivity|exact I].
    + apply nth_error_None in Ex. cbv beta in Lr. lia.
  - exists c. split; [exact Ec|exact Lc].
Qed.

Lemma column_beyond (n j : nat) (a : mat) :
  Forall (fun row => length row = n) a -> a <> [] -> (n <= j)%nat ->
  column a j = Raise IndexError.
Proof.
  intros F Hne Hj. destruct a as [|row a]; [congruence|].
  inversion F as [|? ? Lr _]; subst. unfold column. cbn [mapM].
  rewrite (proj2 (nth_error_None row j)) by lia. reflexivity.
Qed.

(** X7: the grid [linspace(0, 12, 300)] [main] samples on at a plotting
    step has 300 strictly increasing times from 0 to 12.  On a model of
    consistent shapes, whatever [sample] returns on it has 300 vectors of
    dimension [data_size], so that the two columns [main] plots are there
    when [data_size >= 2], and reading the second is an index error when
    [data_size < 2]; and [sample] does return when the solves from states
    of dimension [hidden_size] succeed on this grid. *)
Theorem main_sampling_shape {key} `{PRNG key}
  (data_size hidden_size' latent_size' width_size depth : nat)
  (self : LatentODE) (k : key) :
  let sample_t := jnp_linspace 0 12 300 in
  StronglySorted Rlt sample_t
  /\ length sample_t = 300%nat
  /\ first_elt sample_t = Ok 0
  /\ last_elt sample_t = Ok 12
  /\ (LatentODE_shape data_size hidden_size' latent_size' width_size depth self ->
      (forall sample_y,
          fst (sample self sample_t k) = Ok sample_y ->
          length sample_y = 300%nat
          /\ Forall (fun y => length y = data_size) sample_y
          /\ ((2 <= data_size)%nat ->
              exists c0 c1,
                column sample_y 0 = Ok c0 /\ column sample_y 1 = Ok c1
                /\ length c0 = 300%nat /\ length c1 = 300%nat)
          /\ ((data_size < 2)%nat -> column sample_y 1 = Raise IndexError))
      /\ (solves_on (solver self) hidden_size' (4 / 10) sample_t ->
          exists sample_y, fst (sample self sample_t k) = Ok sample_y)).
Proof.
  intros sample_t.
  destruct (@jnp_linspace_increasing 0 12 300) as [Hs Hl]; [lra|lia|].
  destruct (@jnp_linspace_ends 0 12 300) as [Hfirst Hlast]; [lia|].
  fold sample_t in Hs, Hl, Hfirst, Hlast.
  split; [exact Hs|]. split; [exact Hl|]. split; [exact Hfirst|].
  split; [exact Hlast|].
  intros S. pose proof S as [Sh Sl Shl Smlp Sdata].
  set (latent := map (normal_at k (latent_size self)) (seq 0 (latent_size self))).
  assert (Es : fst (sample self sample_t k) = _sample self sample_t latent).
  { unfold sample, jrandom_normal. cbn [bindM]. fold latent.
    now destruct (_sample self sample_t latent). }
  rewrite Es. split.
  - intros sample_y Eo.
    destruct (@_sample_output_shape data_size hidden_size' self sample_t latent
                sample_y Sdata Eo) as [Lo Fo].
    rewrite Hl in Lo. split; [exact Lo|]. split; [exact Fo|]. split.
    + intros Hd.
      destruct (@column_ok data_size 0 sample_y Fo) as (c0 & E0 & L0); [lia|].
      destruct (@column_ok data_size 1 sample_y Fo) as (c1 & E1 & L1); [lia|].
      exists c0, c1. repeat split; congruence.
    + intros Hd. apply column_beyond with (n := data_size); [exact Fo| |lia].
      intros ->. discriminate.
  - intros Hsolves.
    assert (Hne : sample_t <> []) by (intros E0; rewrite E0 in Hl; discriminate).
    apply (@_sample_returns_on _ _ _ _ _ self sample_t latent S Hsolves Hne).
    unfold latent. now rewrite length_map, length_seq.
Qed.

Lemma main_sampling_shape_witness :
  exists sample_y c0 c1,
    fst (sample checked_model (jnp_linspace 0 12 300) ([(5, 4)%nat] : path_key))
    = Ok sample_y
    /\ length sample_y = 300%nat
    /\ column sample_y 0 = Ok c0 /\ column sample_y 1 = Ok c1.
Proof.
  destruct (@main_sampling_shape path_key path_prng 2 2 1 3 1 checked_model
              [(5, 4)%nat])
    as (_ & _ & _ & _ & H).
  destruct (H checked_model_shape) as [Hpartial Htotal].
  destruct (Htotal (checked_model_solves _)) as (sample_y & Es).
  destruct (Hpartial sample_y Es) as (Lo & _ & Hcols & _).
  destruct Hcols as (c0 & c1 & E0 & E1 & _); [lia|].
  exists sample_y, c0, c1. repeat split; assumption.
Defined.

(** ** The vector field *)

Lemma tanh_bounded (x : R) : Rabs (tanh x) < 1.
Proof.
  unfold tanh, sinh, cosh.
  pose proof (exp_pos x) as Hp. pose proof (exp_pos (- x)) as Hn.
  assert (Hc : 0 < (exp x + exp (- x)) / 2) by lra.
  apply Rabs_def1.
  - apply (Rmult_lt_reg_r ((exp x + exp (- x)) / 2)); [exact Hc|].
    unfold Rdiv at 1. rewrite Rmult_assoc, Rinv_l by lra. lra.
  - apply (Rmult_lt_reg_r ((exp x + exp (- x)) / 2)); [exact Hc|].
    unfold Rdiv at 2. rewrite Rmult_assoc, Rinv_l by lra. lra.
Qed.

Lemma MLP_layers_final (ls : list Linear) (act fin : R -> R) :
  forall x y, MLP_layers ls act fin x = Ok y -> exists z, y = map fin z.
Proof.
  induction ls as [|l rest IH]; intros x y E; simpl in E; [discriminate|].
  destruct (Linear_call l x) as [z| |]; simpl in E; try discriminate.
  destruct rest as [|l' rest'].
  - inversion E. eauto.
  - exact (IH _ _ E).
Qed.

(** X8: the vector field is [scale * tanh(...)]: on a state of the
    dimension its network is built for it returns a derivative of the
    same dimension, every component of which is at most [|scale|] in
    absolute value, wherever the state is and whatever the weights. *)
Theorem Func_call_bounded (self : Func) (n width_size depth : nat)
  (t : R) (y : vec) (args : unit) :
  MLP_layers_shape n n width_size depth (layers (mlp self)) ->
  final_activation (mlp self) = tanh ->
  length y = n ->
  exists dy,
    Func_call self t y args = Ok dy
    /\ length dy = n
    /\ Forall (fun v => Rabs v <= Rabs (scale self)) dy.
Proof.
  intros S Hfin Hy. unfold Func_call, MLP_call.
  destruct (@MLP_layers_call_shape (activation (mlp self)) (final_activation (mlp self))
              depth _ _ _ _ _ S Hy) as (out & Eo & Lo).
  rewrite Eo. simpl. eexists. split; [reflexivity|]. split.
  - now rewrite length_map.
  - destruct (MLP_layers_final _ _ _ _ Eo) as (z & ->). rewrite Hfin.
    apply Forall_forall. intros v Hv.
    apply in_map_iff in Hv. destruct Hv as (u & <- & Hu).
    apply in_map_iff in Hu. destruct Hu as (w & <- & _).
    rewrite Rabs_mult.
    pose proof (tanh_bounded w). pose proof (Rabs_pos (scale self)). nra.
Qed.

Lemma Func_call_bounded_witness :
  exists dy,
    Func_call {| scale := 1; mlp := zero_MLP 2 2 3 1 softplus tanh [] |} 0 [5; 7] tt
    = Ok dy
    /\ length dy = 2%nat
    /\ Forall (fun v => Rabs v <= Rabs 1) dy.
Proof.
  apply (@Func_call_bounded
           {| scale := 1; mlp := zero_MLP 2 2 3 1 softplus tanh [] |} 2 3 1 0 [5; 7] tt).
  - simpl. repeat split; repeat constructor.
  - reflexivity.
  - reflexivity.
Defined.

(** ** Building the model *)

(** X9: whatever the configuration, [__init__] splits its key five ways
    and wires the layers so that the model has the shapes its methods
    rely on: the cell takes the [data_size + 1] entries of a time with
    its observation, the projection gives [2 * latent_size] components,
    the decoder network maps [latent_size] to [hidden_size] and the
    output layer [hidden_size] to [data_size]; the vector field handed to
    the solver has scale 1 and a [hidden_size] to [hidden_size] network
    ending in [tanh]. *)
Theorem LatentODE_init_shape {key} `{PRNG key}
  (Linear_init : nat -> nat -> key -> Linear)
  (MLP_init : nat -> nat -> nat -> nat -> (R -> R) -> (R -> R) -> key -> MLP)
  (GRUCell_init : nat -> nat -> key -> GRUCell)
  (dopri5 : Func -> AbstractSolver)
  (data_size hidden_size' latent_size' width_size depth : nat) (k : key) :
  Linear_init_shapes Linear_init ->
  MLP_init_shapes MLP_init ->
  GRUCell_init_shapes GRUCell_init ->
  exists self field,
    LatentODE_init Linear_init MLP_init GRUCell_init dopri5
                   data_size hidden_size' latent_size' width_size depth k
    = (Ok self, [KeySplit k 5])
    /\ LatentODE_shape data_size hidden_size' latent_size' width_size depth self
    /\ cell_keeps_shape (rnn_cell self) (S data_size) hidden_size'
    /\ activation (latent_to_hidden self) = relu
    /\ final_activation (latent_to_hidden self) = identity
    /\ solver self = dopri5 field
    /\ scale field = 1
    /\ MLP_layers_shape hidden_size' hidden_size' width_size depth (layers (mlp field))
    /\ activation (mlp field) = softplus
    /\ final_activation (mlp field) = tanh.
Proof.
  intros HL HM HG. unfold LatentODE_init, jrandom_split. cbn [bindM map seq retM].
  eexists _, _. split; [reflexivity|]. cbn [app].
  split; [|split; [|split; [|split; [|split; [reflexivity|]]]]].
  - constructor; cbn; try reflexivity; try apply HL. apply HM.
  - cbn. rewrite Nat.add_1_r. apply HG.
  - apply HM.
  - apply HM.
  - cbn. split; [reflexivity|]. split; [apply HM|]. split; apply HM.
Qed.

Lemma LatentODE_init_shape_witness :
  exists self,
    fst (LatentODE_init zero_Linear zero_MLP keep_cell still_solver 2 4 3 5 2
           ([] : path_key)) = Ok self
    /\ LatentODE_shape 2 4 3 5 2 self.
Proof.
  destruct (@LatentODE_init_shape path_key path_prng zero_Linear zero_MLP keep_cell
              still_solver 2 4 3 5 2 [])
    as (self & field & E & S & _).
  - intros i o k. apply zero_Linear_shape.
  - exact zero_MLP_shapes.
  - exact keep_cell_shapes.
  - exists self. rewrite E. split; [reflexivity|exact S].
Defined.

(** ** The synthetic dataset *)

Lemma sort_insert_Permutation (x : R) (l : vec) : Permutation (sort_insert x l) (x :: l).
Proof.
  induction l as [|y l IH]; simpl.
  - apply Permutation_refl.
  - destruct (Rle_dec x y).
    + apply Permutation_refl.
    + eapply Permutation_trans; [apply perm_skip, IH|apply perm_swap].
Qed.

Lemma jnp_sort_Permutation (v : vec) : Permutation (jnp_sort v) v.
Proof.
  induction v as [|x v IH]; simpl.
  - apply Permutation_refl.
  - eapply Permutation_trans; [apply sort_insert_Permutation|apply perm_skip, IH].
Qed.

Lemma sort_insert_sorted (x : R) (l : vec) :
  StronglySorted Rle l -> StronglySorted Rle (sort_insert x l).
Proof.
  induction l as [|y l IH]; intros S; simpl.
  - constructor; constructor.
  - inversion S as [|? ? Sl Fl]; subst. destruct (Rle_dec x y) as [L|L].
    + constructor; [exact S|]. constructor; [exact L|].
      eapply Forall_impl; [|exact Fl]. intros z Hz. cbv beta in Hz. lra.
    + constructor; [now apply IH|].
      eapply Permutation_Forall; [apply Permutation_sym, sort_insert_Permutation|].
      constructor; [lra|exact Fl].
Qed.

Lemma jnp_sort_sorted (v : vec) : StronglySorted Rle (jnp_sort v).
Proof.
  induction v as [|x v IH]; simpl.
  - constructor.
  - now apply sort_insert_sorted.
Qed.

Lemma mapM_ok_map {A B} (f : A -> result B) (g : A -> B) (l : list A) :
  Forall (fun a => f a = Ok (g a)) l -> mapM f l = Ok (map g l).
Proof.
  induction 1 as [|a l E _ IH]; simpl.
  - reflexivity.
  - now rewrite E, IH.
Qed.

Lemma mapM2_map {A B C D} (f : A -> B -> result C) (g : D -> A) (h : D -> B)
  (l : list D) :
  mapM2 f (map g l) (map h l) = mapM (fun i => f (g i) (h i)) l.
Proof.
  induction l as [|d l IH]; simpl.
  - reflexivity.
  - now rewrite IH.
Qed.

(** A row of at least two entries against a row of one: the single entry
    is stretched. *)
Lemma elementwise_stretch (op : R -> R -> R) (row : vec) (c : R) :
  (2 <= length row)%nat ->
  elementwise op row [c] = Ok (map (fun x => op x c) row).
Proof.
  intros L. destruct row as [|a [|b row]]; simpl in L; try lia.
  unfold elementwise, broadcast. cbn [length Nat.eqb].
  apply mapM_ok_map. apply Forall_forall. reflexivity.
Qed.

Lemma mapM_of_option {A B} (e : exn) (g : A -> option B) (l : list A) :
  (mapM (fun a => of_option e (g a)) l = Raise e /\ exists a, g a = None)
  \/ exists out, mapM (fun a => of_option e (g a)) l = Ok out /\ length out = length l.
Proof.
  induction l as [|a l IH]; simpl.
  - right. now exists [].
  - destruct (g a) as [b|] eqn:Ea; simpl; [|left; split; [reflexivity|now exists a]].
    destruct IH as [(-> & Q)|(out & -> & L)]; simpl; [now left|].
    right. exists (b :: out). simpl. now rewrite L.
Qed.

Lemma mapM2_outcome {A B C} (e : exn) (Q : Prop) (P : A -> C -> Prop)
  (f : A -> B -> result C) :
  forall xs ys,
    length xs = length ys ->
    Forall (fun x => forall y,
              (f x y = Raise e /\ Q) \/ exists c, f x y = Ok c /\ P x c) xs ->
    (mapM2 f xs ys = Raise e /\ Q)
    \/ exists cs, mapM2 f xs ys = Ok cs /\ Forall2 P xs cs.
Proof.
  induction xs as [|x xs IH]; intros [|y ys] L F; simpl in L; try discriminate.
  - right. exists []. split; [reflexivity|constructor].
  - inversion F as [|? ? Fx Fxs]; subst. simpl.
    destruct (Fx y) as [(-> & q)|(c & -> & Pc)]; simpl; [now left|].
    destruct (IH ys) as [(-> & q)|(cs & -> & Pcs)]; [lia|exact Fxs|now left|].
    right. exists (c :: cs). split; [reflexivity|now constructor].
Qed.

Lemma solve_outcome (tsit5 : (R -> vec -> unit -> result vec) -> AbstractSolver)
  (ts : vec) (y0 : vec) :
  ts <> [] ->
  (solve tsit5 ts y0 = Raise SolveFailure /\ solver_gives_up (tsit5 func))
  \/ exists states, solve tsit5 ts y0 = Ok states /\ length states = length ts.
Proof.
  intros Hne. unfold solve, first_elt, last_elt.
  destruct ts as [|t ts]; [congruence|]. cbn [hd_error of_option bind].
  destruct (rev (t :: ts)) as [|u r] eqn:Er.
  - apply (f_equal (@length R)) in Er. rewrite length_rev in Er. discriminate.
  - cbn [hd_error of_option bind]. unfold diffeqsolve. cbn [saveat_ts].
    destruct (mapM_of_option SolveFailure
                (solve_at (tsit5 func) t u y0 (1 / 10)) (t :: ts))
      as [(-> & a & Ea)|(out & -> & L)].
    + left. split; [reflexivity|]. now exists t, u, y0, (1 / 10), a.
    + right. exists out. split; [reflexivity|exact L].
Qed.

(** X10: for a positive dataset size, [get_data] fails only with a solve
    failure, and only when the solver reports no state at some output
    time; otherwise it returns one row of times and one trajectory per
    example, every row of times has 20 entries in non-decreasing order,
    all between 0 and 3, and every trajectory has one state per time of
    its row. *)
Theorem get_data_shape {key} `{PRNG key} `{Uniform key}
  (tsit5 : (R -> vec -> unit -> result vec) -> AbstractSolver)
  (dataset_size' : nat) (k : key) :
  (0 < dataset_size')%nat ->
  (get_data tsit5 dataset_size' k = Raise SolveFailure
   /\ solver_gives_up (tsit5 func))
  \/ exists ts ys,
       get_data tsit5 dataset_size' k = Ok (ts, ys)
       /\ length ts = dataset_size'
       /\ Forall (fun row => length row = 20%nat
                             /\ StronglySorted Rle row
                             /\ Forall (fun t => 0 <= t <= 3) row) ts
       /\ Forall2 (fun row states => length states = length row) ts ys.
Proof.
  intros _. unfold get_data. cbn [map seq].
  set (ykey := split_child k 3 0). set (tkey1 := split_child k 3 1).
  set (tkey2 := split_child k 3 2). set (N := dataset_size').
  set (scaled := map (fun i => map (fun x => x * (2 + uniform_at tkey1 N i - 0))
                                    (map (fun j => uniform_at tkey2 (N * 20)%nat (i * 20 + j)%nat)
                                         (seq 0 20)))
                     (seq 0 N)).
  assert (Es : elementwise2 Rmult (draw2 uniform_at tkey2 N 20)
                 (map (fun t => [t - 0]) (map (fun i => 2 + uniform_at tkey1 N i) (seq 0 N)))
               = Ok scaled).
  { unfold elementwise2, broadcast, draw2. rewrite map_map.
    rewrite !length_map, Nat.eqb_refl. rewrite mapM2_map.
    apply mapM_ok_map. apply Forall_forall. intros i _.
    apply elementwise_stretch. rewrite length_map, length_seq. lia. }
  rewrite Es. cbn [bind].
  set (ts := map jnp_sort (map (map (fun x => x + 0)) scaled)).
  assert (Hrows : Forall (fun row => length row = 20%nat
                                     /\ StronglySorted Rle row
                                     /\ Forall (fun t => 0 <= t <= 3) row) ts).
  { unfold ts, scaled. rewrite !map_map. apply Forall_forall. intros row Hin.
    apply in_map_iff in Hin. destruct Hin as (i & <- & _).
    split; [|split].
    - rewrite (Permutation_length (jnp_sort_Permutation _)).
      now rewrite !length_map, length_seq.
    - apply jnp_sort_sorted.
    - eapply Permutation_Forall; [apply Permutation_sym, jnp_sort_Permutation|].
      rewrite !map_map. apply Forall_forall. intros t Ht.
      apply in_map_iff in Ht. destruct Ht as (j & <- & _).
      pose proof (uniform_range tkey1 N i) as U1.
      pose proof (uniform_range tkey2 (N * 20) (i * 20 + j)) as U2.
      split; nra. }
  assert (Lts : length ts = N).
  { unfold ts, scaled. now rewrite !length_map, length_seq. }
  destruct (@mapM2_outcome vec vec mat SolveFailure (solver_gives_up (tsit5 func))
              (fun row states => length states = length row) (solve tsit5)
              ts (draw2 normal_at ykey N 2))
    as [(-> & Q)|(ys & -> & Hys)].
  - rewrite Lts. unfold draw2. now rewrite length_map, length_seq.
  - eapply Forall_impl; [|exact Hrows]. intros row (L & _) y0.
    apply solve_outcome. intros ->. discriminate.
  - now left.
  - right. exists ts, ys. repeat split; assumption.
Qed.

Lemma get_data_shape_witness :
  exists ts ys,
    get_data (key := path_key) still_solver 2 [] = Ok (ts, ys)
    /\ length ts = 2%nat /\ length ys = 2%nat.
Proof.
  destruct (@get_data_shape path_key path_prng path_uniform still_solver 2 [])
    as [(_ & t0 & t1 & y0 & dt0 & t & E)|(ts & ys & E & L & _ & F)].
  - lia.
  - discriminate E.
  - exists ts, ys. split; [exact E|]. split; [exact L|].
    rewrite <- L. symmetry. exact (Forall2_length F).
Defined.

(** ** The generator over many epochs *)

Lemma NoDup_chunk_at {A} (b i : nat) (l : list A) : NoDup l -> NoDup (chunk_at b l i).
Proof.
  intros N. unfold chunk_at.
  assert (N1 : NoDup (skipn (i * b) l)).
  { rewrite <- (firstn_skipn (i * b) l) in N. now apply NoDup_app_remove_l in N. }
  rewrite <- (firstn_skipn b (skipn (i * b) l)) in N1.
  now apply NoDup_app_remove_r in N1.
Qed.

Lemma proper_batch_lengths {A B} (arrays : list A * list B) (batch_size : Z) batch :
  proper_batch arrays batch_size batch ->
  (1 <= length (fst batch))%nat
  /\ (Z.of_nat (length (fst batch)) <= batch_size)%Z
  /\ length (snd batch) = length (fst batch).
Proof.
  intros (idx & (Et & Ey) & _ & _ & L1 & L2).
  apply mapM_length in Et. apply mapM_length in Ey. rewrite Et, Ey. auto.
Qed.

Section DataloaderForever.
Context {key : Type} `{PRNG key} {A B : Type}.
Variable arrays : list A * list B.
Variable batch_size : Z.
Hypothesis batch_size_pos : (1 <= batch_size)%Z.
Hypothesis same_rows : length (snd arrays) = dataset_size arrays.
Hypothesis some_rows : (0 < dataset_size arrays)%nat.

Lemma chunk_proper (perm : list nat) (i : nat) (batch : list A * list B) :
  Permutation perm (seq 0 (dataset_size arrays)) ->
  (i * Z.to_nat batch_size < dataset_size arrays)%nat ->
  batch_rows arrays batch (chunk_at (Z.to_nat batch_size) perm i) ->
  proper_batch arrays batch_size batch.
Proof.
  intros P Hi R. exists (chunk_at (Z.to_nat batch_size) perm i).
  split; [exact R|]. split; [|split].
  - apply NoDup_chunk_at.
    apply (Permutation_NoDup (Permutation_sym P)), seq_NoDup.
  - apply Forall_forall. intros j Hj. apply chunk_at_incl in Hj.
    apply (Permutation_in _ P) in Hj. apply in_seq in Hj. lia.
  - rewrite length_chunk_at, (Permutation_length P), length_seq. lia.
Qed.

Lemma loader_inv_head (fuel : nat) (st : loader_state key) (k : key) :
  (3 <= fuel)%nat -> epoch_boundary arrays st k ->
  exists batch st' log,
    dataloader_next arrays batch_size fuel st = (Ok (batch, st'), log)
    /\ loader_inv arrays batch_size st'
    /\ only_keys log
    /\ proper_batch arrays batch_size batch.
Proof.
  intros Hf Hb.
  destruct (@dataloader_next_boundary key _ A B arrays batch_size batch_size_pos
              same_rows fuel st k Hf Hb some_rows) as (batch & E & R).
  eexists batch, _, _. split; [exact E|]. split; [|split].
  - cbn [loader_inv]. split; [apply permutation_permutes|].
    split; [exists 1%nat; lia|reflexivity].
  - repeat constructor; discriminate.
  - apply (@chunk_proper (permutation k (seq 0 (dataset_size arrays))) 0%nat batch);
      [apply permutation_permutes|simpl; lia|exact R].
Qed.

Lemma loader_inv_next (fuel : nat) (st : loader_state key) :
  (3 <= fuel)%nat -> loader_inv arrays batch_size st ->
  exists batch st' log,
    dataloader_next arrays batch_size fuel st = (Ok (batch, st'), log)
    /\ loader_inv arrays batch_size st'
    /\ only_keys log
    /\ proper_batch arrays batch_size batch.
Proof.
  intros Hf Hinv. destruct st as [k|k|k perm start end_].
  - now apply (@loader_inv_head fuel _ k).
  - now apply (@loader_inv_head fuel _ k).
  - destruct Hinv as (P & (i & Es) & Ee).
    destruct (Nat.lt_ge_cases (i * Z.to_nat batch_size) (dataset_size arrays))
      as [Hi|Hi].
    + assert (F : Forall (fun j => (j < dataset_size arrays)%nat) perm).
      { apply Forall_forall. intros j Hj. apply (Permutation_in _ P) in Hj.
        apply in_seq in Hj. lia. }
      replace fuel with (S (fuel - 1)) by lia.
      destruct (@dataloader_next_in_epoch key _ A B arrays batch_size batch_size_pos
                  same_rows (fuel - 1) k perm i start end_ Es Ee Hi F)
        as (batch & E & R).
      eexists batch, _, _. split; [exact E|]. split; [|split].
      * cbn [loader_inv]. split; [exact P|]. split; [|reflexivity].
        exists (S i). subst. lia.
      * constructor.
      * now apply (@chunk_proper perm i batch).
    + apply (@loader_inv_head fuel _ k); [exact Hf|].
      cbn [epoch_boundary]. split; [reflexivity|]. subst start. lia.
Qed.

Lemma loader_inv_take (fuel : nat) (n : nat) :
  (3 <= fuel)%nat ->
  forall st, loader_inv arrays batch_size st ->
    exists batches st' log,
      dataloader_take arrays batch_size fuel n st = (Ok (batches, st'), log)
      /\ loader_inv arrays batch_size st'
      /\ length batches = n
      /\ only_keys log
      /\ Forall (proper_batch arrays batch_size) batches.
Proof.
  intros Hf. induction n as [|n IH]; intros st Hinv.
  - exists [], st, []. cbn. repeat split; auto; constructor.
  - destruct (@loader_inv_next fuel st Hf Hinv) as (batch & st1 & log1 & E1 & I1 & K1 & P1).
    destruct (IH st1 I1) as (batches & st2 & log2 & E2 & I2 & L2 & K2 & P2).
    exists (batch :: batches), st2, (log1 ++ log2).
    cbn [dataloader_take]. rewrite E1. cbn [bindM]. rewrite E2. cbn [bindM retM].
    rewrite app_nil_r. split; [reflexivity|]. split; [exact I2|].
    split; [simpl; now rewrite L2|]. split; [apply Forall_app; now split|].
    now constructor.
Qed.
End DataloaderForever.

(** X11: with [batch_size >= 1] and a dataset of at least one row, both
    arrays with as many rows, the generator serves any number of items,
    across as many epochs as that takes: each of the first [n] calls of
    [next] returns a batch of at least one and at most [batch_size]
    distinct rows of the dataset, the same rows from both arrays, and
    nothing but uses of keys is logged. *)
Theorem dataloader_never_ends {key} `{PRNG key} {A B : Type}
  (arrays : list A * list B) (batch_size : Z) (fuel : nat) (k : key) (n : nat) :
  (1 <= batch_size)%Z ->
  length (snd arrays) = dataset_size arrays ->
  (0 < dataset_size arrays)%nat ->
  (3 <= fuel)%nat ->
  exists batches st' log,
    dataloader_take arrays batch_size fuel n (LoaderStart k) = (Ok (batches, st'), log)
    /\ length batches = n
    /\ only_keys log
    /\ Forall (fun batch =>
                 proper_batch arrays batch_size batch
                 /\ (1 <= length (fst batch))%nat
                 /\ (Z.of_nat (length (fst batch)) <= batch_size)%Z
                 /\ length (snd batch) = length (fst batch)) batches.
Proof.
  intros Hb Hrows HN Hf.
  destruct (@loader_inv_take key _ A B arrays batch_size Hb Hrows HN fuel n Hf
              (LoaderStart k) I)
    as (batches & st' & log & E & _ & L & K & P).
  exists batches, st', log. split; [exact E|]. split; [exact L|]. split; [exact K|].
  eapply Forall_impl; [|exact P]. intros batch Pb.
  split; [exact Pb|]. exact (proper_batch_lengths Pb).
Qed.

Lemma dataloader_never_ends_witness :
  exists batches st' log,
    dataloader_take small_dataset 1 3 4 (LoaderStart ([] : path_key))
    = (Ok (batches, st'), log)
    /\ length batches = 4%nat.
Proof.
  destruct (@dataloader_never_ends path_key path_prng vec mat small_dataset 1 3 [] 4)
    as (batches & st' & log & E & L & _); [lia | reflexivity | vm_compute; lia | lia |].
  exists batches, st', log. split; [exact E|exact L].
Defined.

(** ** The generator with a batch size that is not positive *)

Lemma py_slice_incl {A} (l : list A) (start stop : Z) x :
  In x (py_slice l start stop) -> In x l.
Proof.
  unfold py_slice. cbv zeta.
  set (n := Z.to_nat _). set (m := Z.to_nat _). intros I.
  rewrite <- (firstn_skipn m l). apply in_or_app. right.
  rewrite <- (firstn_skipn n (skipn m l)). apply in_or_app. now left.
Qed.

Lemma py_slice_stalled {A} (l : list A) (start end_ : Z) :
  ((start < 0 /\ end_ <= start) \/ (start = 0 /\ end_ = 0))%Z ->
  py_slice l start end_ = [].
Proof.
  intros Hs. unfold py_slice, slice_bound. cbv zeta.
  destruct (Z.ltb_spec start 0), (Z.ltb_spec end_ 0);
    match goal with
    | |- firstn ?n _ = _ => replace n with 0%nat by lia
    end; reflexivity.
Qed.

Lemma length_py_slice_head {A} (l : list A) (b : Z) :
  (b <= 0)%Z ->
  length (py_slice l 0 b)
  = if (b =? 0)%Z then 0%nat else Z.to_nat (Z.of_nat (length l) + b).
Proof.
  intros Hb. unfold py_slice, slice_bound. cbv zeta.
  rewrite length_firstn, length_skipn.
  destruct (Z.eqb_spec b 0) as [->|Hnz].
  - simpl. lia.
  - rewrite (proj2 (Z.ltb_lt b 0)) by lia. cbn [Z.ltb Z.compare]. lia.
Qed.

Section DataloaderStalled.
Context {key : Type} `{PRNG key} {A B : Type}.
Variable arrays : list A * list B.
Variable batch_size : Z.
Hypothesis batch_size_nonpos : (batch_size <= 0)%Z.
Hypothesis same_rows : length (snd arrays) = dataset_size arrays.
Hypothesis some_rows : (0 < dataset_size arrays)%nat.

Lemma stalled_next (fuel : nat) (st : loader_state key) :
  stalled batch_size st ->
  exists st',
    dataloader_next arrays batch_size (S fuel) st = (Ok (([], []), st'), [])
    /\ stalled batch_size st'.
Proof.
  destruct st as [k|k|k perm start end_]; cbn [stalled]; try contradiction.
  intros Hs. eexists. cbn [dataloader_next].
  rewrite (proj2 (Z.ltb_lt start _)) by lia.
  rewrite py_slice_stalled by lia. split; [reflexivity|].
  cbn [stalled]. lia.
Qed.

Lemma stalled_take (fuel : nat) (n : nat) :
  forall st, stalled batch_size st ->
    exists st',
      dataloader_take arrays batch_size (S fuel) n st
      = (Ok (repeat ([], []) n, st'), [])
      /\ stalled batch_size st'.
Proof.
  induction n as [|n IH]; intros st Hs.
  - exists st. split; [reflexivity|exact Hs].
  - destruct (@stalled_next fuel st Hs) as (st1 & E1 & S1).
    destruct (IH st1 S1) as (st2 & E2 & S2).
    exists st2. split; [|exact S2].
    cbn [dataloader_take]. rewrite E1. cbn [bindM]. rewrite E2. reflexivity.
Qed.

Lemma stalled_first (fuel : nat) (k : key) :
  exists first st',
    dataloader_next arrays batch_size (S (S (S fuel))) (LoaderStart k)
    = (Ok (first, st'), [KeyPermutation k; KeySplit k 1])
    /\ stalled batch_size st'
    /\ length (fst first)
       = (if (batch_size =? 0)%Z then 0%nat
          else Z.to_nat (Z.of_nat (dataset_size arrays) + batch_size))
    /\ length (snd first) = length (fst first).
Proof.
  set (perm := permutation k (seq 0 (dataset_size arrays))).
  assert (F : Forall (fun j => (j < dataset_size arrays)%nat)
                (py_slice perm 0 batch_size)).
  { apply Forall_forall. intros j Hj. apply py_slice_incl in Hj.
    apply (proj1 (Forall_forall _ _) (permutation_in_range _ k)) in Hj. exact Hj. }
  destruct (take_rows_ok (fst arrays) F) as (ts_b & Et).
  destruct (take_rows_ok (snd arrays)) with (idx := py_slice perm 0 batch_size)
    as (ys_b & Ey).
  { now rewrite same_rows. }
  exists (ts_b, ys_b). eexists.
  cbn [dataloader_next]. rewrite same_rows, Nat.eqb_refl.
  unfold jrandom_permutation, split_one, jrandom_split.
  cbn [bindM map seq retM app]. fold perm.
  rewrite (proj2 (Z.ltb_lt 0 _)) by lia.
  rewrite Et, Ey. cbn [lift bindM retM app]. split; [reflexivity|].
  split; [cbn [stalled]; lia|].
  apply mapM_length in Et. apply mapM_length in Ey. cbn [fst snd].
  rewrite Et, Ey. split; [|reflexivity].
  rewrite length_py_slice_head by lia.
  unfold perm. now rewrite (Permutation_length (permutation_permutes _ _)), length_seq.
Qed.
End DataloaderStalled.

(** X12: with a [batch_size] that is zero or negative (and a dataset of at
    least one row) the generator never finishes its first epoch: [next]
    keeps returning, the first batch has no row when [batch_size] is 0 and
    [dataset_size + batch_size] rows (none if that is negative) otherwise,
    every later batch is empty, and the only keys ever used are those of
    the first shuffle. *)
Theorem dataloader_nonpositive_batch_size {key} `{PRNG key} {A B : Type}
  (arrays : list A * list B) (batch_size : Z) (fuel : nat) (k : key) (n : nat) :
  (batch_size <= 0)%Z ->
  length (snd arrays) = dataset_size arrays ->
  (0 < dataset_size arrays)%nat ->
  (3 <= fuel)%nat ->
  exists first st',
    dataloader_take arrays batch_size fuel (S n) (LoaderStart k)
    = (Ok (first :: repeat ([], []) n, st'), [KeyPermutation k; KeySplit k 1])
    /\ length (fst first)
       = (if (batch_size =? 0)%Z then 0%nat
          else Z.to_nat (Z.of_nat (dataset_size arrays) + batch_size))
    /\ length (snd first) = length (fst first).
Proof.
  intros Hb Hrows HN Hf.
  replace fuel with (S (S (S (fuel - 3)))) by lia.
  destruct (@stalled_first key _ A B arrays batch_size Hb Hrows HN (fuel - 3) k)
    as (first & st1 & E1 & S1 & L1 & L2).
  destruct (@stalled_take key _ A B arrays batch_size Hb Hrows HN
              (S (S (fuel - 3))) n st1 S1)
    as (st2 & E2 & _).
  exists first, st2. split; [|split; assumption].
  cbn [dataloader_take]. rewrite E1. cbn [bindM]. rewrite E2. reflexivity.
Qed.

Lemma dataloader_nonpositive_batch_size_witness :
  exists first st',
    dataloader_take small_dataset (-1) 3 3 (LoaderStart ([] : path_key))
    = (Ok ([first; ([], []); ([], [])], st'),
       [KeyPermutation []; KeySplit [] 1])
    /\ length (fst first) = 0%nat.
Proof.
  destruct (@dataloader_nonpositive_batch_size path_key path_prng vec mat
              small_dataset (-1) 3 [] 2)
    as (first & st' & E & L & _); [lia | reflexivity | vm_compute; lia | lia |].
  exists first, st'. split; [exact E|exact L].
Defined.

(** ** What a completed run has plotted *)

Lemma plots_of_app {key} (l1 l2 : list (event key)) :
  plots_of (l1 ++ l2) = plots_of l1 ++ plots_of l2.
Proof. apply filter_app. Qed.

Lemma plots_of_only_keys {key} (log : list (event key)) :
  only_keys log -> plots_of log = [].
Proof.
  unfold plots_of. induction 1 as [|e log He _ IH]; [reflexivity|].
  destruct e; simpl in *; auto; congruence.
Qed.

Section MainPlots.
Context {key : Type} `{PRNG key}.
Variables Grads OptState : Type.
Variable loss_grad : LatentODE -> list vec -> list mat -> key -> Grads.
Variable optim_update : Grads -> OptState -> Grads * OptState.
Variable apply_updates : LatentODE -> Grads -> LatentODE.
Variable dataset : list vec * list mat.
Variable batch_size : Z.
Variables steps save_every : Z.
Variable sample_key : key.

Local Notation "'body'" :=
  (main_step loss_grad optim_update apply_updates dataset batch_size
             steps save_every sample_key).

(** An iteration that comes back has plotted on the next free axis if it
    is a plotting step and not at all otherwise, and has replaced the
    training key by its only child. *)
Lemma main_step_plots (fuel : nat) (step : Z) (st st' : loop_state OptState) :
  fst (body fuel step st) = Ok st' ->
  plots_of (snd (body fuel step st))
  = (if plot_step steps save_every step
     then match axs st with ax :: _ => [Plot ax step] | [] => [] end
     else [])
  /\ train_key st' = split_child (train_key st) 1 0.
Proof.
  rewrite main_step_eq.
  destruct (dataloader_next_never_stops dataset batch_size fuel (loader st)) as [_ Kl].
  destruct (dataloader_next dataset batch_size fuel (loader st))
    as [[[batch loader']|e|] ll]; try discriminate.
  destruct (benignM_loss (model st) (fst batch) (snd batch) (train_key st)) as [_ Kv].
  destruct (loss (model st) (fst batch) (snd batch) (train_key st))
    as [[value|e|] lv]; try discriminate.
  cbn [fst snd] in Kl, Kv. cbv zeta.
  assert (Hpre : plots_of (ll ++ lv ++ [KeySplit (train_key st) 1; OptimUpdate step])
                 = []).
  { rewrite !plots_of_app, (plots_of_only_keys Kl), (plots_of_only_keys Kv).
    reflexivity. }
  destruct (plot_step steps save_every step).
  - destruct (axs st) as [|ax axs']; [discriminate|].
    match goal with
    | |- context [sample ?m ?t ?k] =>
        destruct (benignM_sample m t k) as [_ Ks]; destruct (sample m t k) as [[y|e|] ls]
    end; try discriminate.
    cbn [fst snd] in *. intros E. inversion E. split; [|reflexivity].
    rewrite (plots_of_app (ll ++ lv ++ _)), Hpre, plots_of_app,
      (plots_of_only_keys Ks). reflexivity.
  - cbn [fst snd]. intros E. inversion E. split; [exact Hpre|reflexivity].
Qed.

Lemma for_loop_plots (fuel : nat) (l : list Z) :
  forall st st' : loop_state OptState,
    fst (for_loopM (body fuel) l st) = Ok st' ->
    plots_of (snd (for_loopM (body fuel) l st))
    = zip_with Plot (axs st) (filter (plot_step steps save_every) l)
    /\ axs st' = skipn (length (filter (plot_step steps save_every) l)) (axs st)
    /\ train_key st'
       = Nat.iter (length l) (fun k => split_child k 1 0) (train_key st).
Proof.
  induction l as [|step l IH]; intros st st' E.
  - cbn in E. inversion E. cbn. unfold zip_with.
    destruct (axs st'); repeat split; reflexivity.
  - revert E. rewrite for_loopM_cons, bindM_unfold.
    pose proof (@main_step_plots fuel step st) as Hp.
    pose proof (@main_step_axs key _ Grads OptState loss_grad optim_update
                  apply_updates dataset batch_size steps save_every sample_key
                  fuel step st) as Ha.
    destruct (body fuel step st) as [[st1|e|] log]; cbn [fst snd] in *;
      try discriminate.
    intros E. destruct (Hp st1 eq_refl) as [Pl Tk]. specialize (Ha st1 eq_refl).
    destruct (IH st1 st' E) as (Pr & Ax & Tr).
    rewrite plots_of_app, Pl, Pr, Ax, Tr, Ha, Tk. cbn [filter length].
    rewrite Nat.iter_succ_r.
    destruct (plot_step steps save_every step); [|repeat split; reflexivity].
    destruct (axs st) as [|ax axs'].
    + cbn [tl]. rewrite skipn_nil. unfold zip_with. cbn.
      repeat split; reflexivity.
    + cbn [tl length skipn]. repeat split; reflexivity.
Qed.
End MainPlots.

(** X13: when a run of at least two steps with [save_every >= 1] comes to
    its end, every axis [main] allocated has been drawn on exactly once:
    the plots are those of the plotting steps in order, the [i]-th of them
    on axis [i], the axes iterator is exhausted, and the training key is
    the one reached from the initial key by one single-child split per
    step. *)
Theorem main_loop_plots {key} `{PRNG key} (Grads OptState : Type)
  (loss_grad : LatentODE -> list vec -> list mat -> key -> Grads)
  (optim_update : Grads -> OptState -> Grads * OptState)
  (apply_updates : LatentODE -> Grads -> LatentODE)
  (dataset : list vec * list mat) (batch_size steps save_every : Z)
  (sample_key : key) (fuel : nat) (model0 : LatentODE) (opt_state0 : OptState)
  (loader_key train_key0 : key) (st : loop_state OptState) :
  (2 <= steps)%Z -> (1 <= save_every)%Z ->
  let run := main_loop loss_grad optim_update apply_updates dataset batch_size
                       steps save_every sample_key fuel model0 opt_state0
                       loader_key train_key0 in
  fst run = Ok st ->
  exists n,
    num_plots steps save_every = Ok n
    /\ plots_of (snd run)
       = zip_with Plot (seq 0 (Z.to_nat n))
                  (filter (plot_step steps save_every) (range steps))
    /\ length (plots_of (snd run)) = Z.to_nat n
    /\ axs st = []
    /\ train_key st
       = Nat.iter (Z.to_nat steps) (fun k => split_child k 1 0) train_key0.
Proof.
  intros Hs Hk run. unfold run, main_loop.
  destruct (num_plots steps save_every) as [n|e|] eqn:En;
    [|rewrite bindM_unfold; discriminate|rewrite bindM_unfold; discriminate].
  assert (Hc : length (filter (plot_step steps save_every) (range steps)) = Z.to_nat n).
  { apply plot_steps_count; [lia|exact Hk|exact En]. }
  rewrite bindM_unfold. cbn [lift fst snd app]. intros E.
  destruct (for_loop_plots loss_grad optim_update apply_updates dataset batch_size
              steps save_every sample_key fuel (range steps) _ E)
    as (Pl & Ax & Tk).
  cbn [axs train_key] in Pl, Ax, Tk.
  exists n. split; [reflexivity|]. split; [exact Pl|]. split; [|split].
  - rewrite Pl. unfold zip_with. now rewrite length_map, length_combine, length_seq, Hc,
      Nat.min_id.
  - rewrite Ax, Hc. apply skipn_all2. rewrite length_seq. lia.
  - rewrite Tk. now rewrite length_range.
Qed.

Lemma main_loop_plots_witness :
  exists st,
    fst (small_run small_dataset 2 1 3) = Ok st
    /\ plots_of (snd (small_run small_dataset 2 1 3)) = [Plot 0 0; Plot 1 1]
    /\ axs st = [].
Proof.
  assert (E : exists st, fst (small_run small_dataset 2 1 3) = Ok st)
    by (eexists; run_eval; reflexivity).
  destruct E as (st & E). exists st. split; [exact E|].
  destruct (@main_loop_plots path_key path_prng unit unit frozen_grad
              frozen_update frozen_apply small_dataset 1 2 1 [(5, 4)%nat] 3
              small_model tt [(5, 2)%nat] [(5, 3)%nat] st)
    as (n & En & Pl & _ & Ax & _); [lia | lia | exact E |].
  assert (n = 2%Z) by (vm_compute in En; congruence). subst n.
  split; [exact Pl|exact Ax].
Defined.

(** ** A run that completes *)

Lemma Forall2_nth_error {A B} (P : A -> B -> Prop) (xs : list A) (ys : list B) :
  Forall2 P xs ys ->
  forall i a b, nth_error xs i = Some a -> nth_error ys i = Some b -> P a b.
Proof.
  induction 1 as [|x y xs ys Pxy _ IH]; intros [|i] a b Ea Eb; simpl in *;
    try discriminate.
  - inversion Ea; inversion Eb; subst. exact Pxy.
  - now apply (IH i).
Qed.

(** Rows taken from two arrays at the same positions are related as the
    rows of the arrays are. *)
Lemma take_rows_Forall2 {A B} (P : A -> B -> Prop) (xs : list A) (ys : list B) :
  Forall2 P xs ys ->
  forall idx bx by_,
    take_rows xs idx = Ok bx -> take_rows ys idx = Ok by_ -> Forall2 P bx by_.
Proof.
  intros F. unfold take_rows.
  induction idx as [|i idx IH]; intros bx by_ Ex Ey; simpl in *.
  - inversion Ex; inversion Ey. constructor.
  - destruct (nth_error xs i) as [a|] eqn:Ea; simpl in Ex; try discriminate.
    destruct (nth_error ys i) as [b|] eqn:Eb; simpl in Ey; try discriminate.
    destruct (mapM _ idx) as [rx| |] in Ex, IH; simpl in Ex; try discriminate.
    destruct (mapM _ idx) as [ry| |] in Ey, IH; simpl in Ey; try discriminate.
    inversion Ex; inversion Ey; subst.
    constructor; [exact (Forall2_nth_error F i Ea Eb)|now apply IH].
Qed.

Lemma Forall2_combine {A B} (P : A -> B -> Prop) (xs : list A) (ys : list B) :
  Forall2 P xs ys -> Forall (fun p => P (fst p) (snd p)) (combine xs ys).
Proof. induction 1; simpl; constructor; auto. Qed.

Lemma mapMM_returns {key A B} (f : A -> M key B) (l : list A) :
  Forall (fun a => exists r, fst (f a) = Ok r) l ->
  exists rs, fst (mapMM f l) = Ok rs.
Proof.
  induction 1 as [|a l (r & Er) _ (rs & IH)].
  - now exists [].
  - exists (r :: rs). cbn [mapMM]. now rewrite bindM_unfold, Er, bindM_unfold, IH.
Qed.

Lemma take_rows_incl {A} (xs : list A) (idx : list nat) (bx : list A) :
  take_rows xs idx = Ok bx -> forall x, In x bx -> In x xs.
Proof.
  unfold take_rows. revert bx.
  induction idx as [|i idx IH]; intros bx E x Hx; simpl in E.
  - inversion E; subst. contradiction.
  - destruct (nth_error xs i) as [a|] eqn:Ea; simpl in E; try discriminate.
    destruct (mapM _ idx) as [rx| |]; simpl in E; try discriminate.
    inversion E; subst. destruct Hx as [<-|Hx].
    + exact (nth_error_In xs i Ea).
    + exact (IH rx eq_refl x Hx).
Qed.

(** The sampling of a plotting step returns on a ready model. *)
Lemma plot_sample_returns {key} `{PRNG key} (dataset : list vec * list mat)
  (sample_key : key) (data_size hidden_size' latent_size' width_size depth : nat)
  (m : LatentODE) :
  model_ready data_size hidden_size' latent_size' width_size depth
              (main_grids dataset) m ->
  exists sample_y, fst (sample m (jnp_linspace 0 12 300) sample_key) = Ok sample_y.
Proof.
  intros (S & _ & Hsolves).
  destruct (@jnp_linspace_increasing 0 12 300) as [_ Hl]; [lra|lia|].
  assert (Hne : jnp_linspace 0 12 300 <> []).
  { intros E0. rewrite E0 in Hl. discriminate. }
  destruct (@_sample_returns_on _ _ _ _ _ m (jnp_linspace 0 12 300)
              (map (normal_at sample_key (latent_size m)) (seq 0 (latent_size m)))
              S (Hsolves _ (or_intror eq_refl)) Hne)
    as (out & Eo).
  { rewrite length_map, length_seq. now destruct S. }
  exists out. unfold sample, jrandom_normal. cbn [bindM]. now rewrite Eo.
Qed.

Section MainRuns.
Context {key : Type} `{PRNG key}.
Variables Grads OptState : Type.
Variable loss_grad : LatentODE -> list vec -> list mat -> key -> Grads.
Variable optim_update : Grads -> OptState -> Grads * OptState.
Variable apply_updates : LatentODE -> Grads -> LatentODE.
Variable dataset : list vec * list mat.
Variable batch_size : Z.
Variables steps save_every : Z.
Variable sample_key : key.
Variables data_size hidden_size' latent_size' width_size depth : nat.

Local Notation "'body'" :=
  (main_step loss_grad optim_update apply_updates dataset batch_size
             steps save_every sample_key).
Local Notation "'ready'" :=
  (model_ready data_size hidden_size' latent_size' width_size depth
               (main_grids dataset)).

Hypothesis updates_keep_ready : forall m u, ready m -> ready (apply_updates m u).
Hypothesis trajectories : Forall2 (trajectory data_size) (fst dataset) (snd dataset).
Hypothesis some_rows : (0 < dataset_size dataset)%nat.
Hypothesis batch_size_pos : (1 <= batch_size)%Z.

(** The minibatch loss returns on rows of the dataset. *)
Lemma loss_returns (m : LatentODE) (ts_i : list vec) (ys_i : list mat) (k : key) :
  ready m -> Forall2 (trajectory data_size) ts_i ys_i ->
  (forall ts, In ts ts_i -> In ts (fst dataset)) ->
  exists v, fst (loss m ts_i ys_i k) = Ok v.
Proof.
  intros (S & Hcell & Hsolves) F Hin. unfold loss, jrandom_split. cbn [bindM].
  set (keys := map (split_child k (length ts_i)) (seq 0 (length ts_i))).
  unfold vmap_train.
  assert (L1 : length ts_i = length ys_i) by exact (Forall2_length F).
  assert (L2 : length ys_i = length keys).
  { unfold keys. now rewrite length_map, length_seq. }
  rewrite (proj2 (Nat.eqb_eq _ _) L1), (proj2 (Nat.eqb_eq _ _) L2). cbn [andb].
  destruct (@mapMM_returns key _ R
              (fun a => train m (fst (fst a)) (snd (fst a)) (snd a))
              (combine (combine ts_i ys_i) keys)) as (rs & Ers).
  { apply Forall_forall. intros [[ts ys] k'] Hc. cbn [fst snd].
    apply in_combine_l in Hc.
    pose proof (proj1 (Forall_forall _ _) (Forall2_combine F) _ Hc) as T.
    destruct T as (Hne & Hl & Hy). cbn [fst snd] in *.
    apply in_combine_l in Hc.
    destruct (@_latent_returns key _ data_size hidden_size' latent_size' width_size
                depth m ts ys k' S Hcell Hl Hy)
      as (latent & mean & std & El & Ll & Elen & Ps).
    destruct (@_sample_returns_on _ _ _ _ _ m ts latent S
                (Hsolves ts (or_introl (Hin ts Hc))) Hne Ll)
      as (pred_ys & Ep).
    destruct (@train_after_sample key _ data_size hidden_size' m ts ys k' latent mean
                std _ pred_ys (shape_hidden_to_data S) Hl Hy Elen Ps El Ep)
      as [Et _].
    eexists. now rewrite Et. }
  destruct (mapMM _ _) as [[rs'|e|] lr]; cbn [fst] in Ers; try discriminate.
  eexists. reflexivity.
Qed.

Lemma main_step_returns (fuel : nat) (step : Z) (st : loop_state OptState) :
  (3 <= fuel)%nat -> ready (model st) -> loader_inv dataset batch_size (loader st) ->
  (plot_step steps save_every step = true -> axs st <> []) ->
  exists st',
    fst (body fuel step st) = Ok st'
    /\ ready (model st') /\ loader_inv dataset batch_size (loader st').
Proof.
  intros Hf Hm Hinv Hax. rewrite main_step_eq.
  destruct (@loader_inv_next key _ vec mat dataset batch_size batch_size_pos
              (eq_sym (Forall2_length trajectories)) some_rows fuel (loader st) Hf Hinv)
    as (batch & st1 & ll & E & I1 & _ & (idx & (Et & Ey) & _)).
  rewrite E.
  assert (Fb : Forall2 (trajectory data_size) (fst batch) (snd batch))
    by exact (take_rows_Forall2 trajectories idx Et Ey).
  destruct (@loss_returns (model st) (fst batch) (snd batch) (train_key st) Hm Fb
              (take_rows_incl _ _ Et))
    as (v & Ev).
  destruct (loss (model st) (fst batch) (snd batch) (train_key st))
    as [[v'|e|] lv]; cbn [fst] in Ev; try discriminate.
  cbv zeta.
  set (model' := apply_updates (model st) _).
  assert (Hm' : ready model') by (apply updates_keep_ready; exact Hm).
  destruct (plot_step steps save_every step).
  - destruct (axs st) as [|ax axs']; [now specialize (Hax eq_refl)|].
    destruct (plot_sample_returns sample_key Hm') as (out & Eo).
    destruct (sample model' (jnp_linspace 0 12 300) sample_key) as [[y|e|] ls];
      cbn [fst] in Eo; try discriminate.
    eexists. split; [reflexivity|]. cbn [model loader].
    split; [exact Hm'|exact I1].
  - eexists. split; [reflexivity|]. cbn [model loader]. split; [exact Hm'|exact I1].
Qed.

Lemma for_loop_returns (fuel : nat) (l : list Z) :
  (3 <= fuel)%nat ->
  forall st : loop_state OptState,
    ready (model st) -> loader_inv dataset batch_size (loader st) ->
    (length (filter (plot_step steps save_every) l) <= length (axs st))%nat ->
    exists st', fst (for_loopM (body fuel) l st) = Ok st' /\ ready (model st').
Proof.
  intros Hf. induction l as [|step l IH]; intros st Hm Hinv Hax.
  - exists st. split; [reflexivity|exact Hm].
  - cbn [filter] in Hax.
    destruct (@main_step_returns fuel step st Hf Hm Hinv) as (st1 & E1 & Hm1 & I1).
    { intros Hp. rewrite Hp in Hax. destruct (axs st); [simpl in Hax; lia|discriminate]. }
    pose proof (@main_step_axs key _ Grads OptState loss_grad optim_update
                  apply_updates dataset batch_size steps save_every sample_key
                  fuel step st st1 E1) as Ha.
    destruct (IH st1 Hm1 I1) as (st' & E' & Hm').
    { rewrite Ha. destruct (plot_step steps save_every step); [|exact Hax].
      destruct (axs st); simpl in *; lia. }
    exists st'. split; [|exact Hm'].
    rewrite for_loopM_cons, bindM_unfold, E1. exact E'.
Qed.
End MainRuns.

(** X14: the loop of [main] runs to its end.  Take observations of
    dimension [data_size >= 2] (two columns are plotted), a model of
    consistent shapes whose cell keeps them and whose solves from states
    of dimension [hidden_size] succeed on the rows of times of the
    dataset and on the grid of the plots, and which stays so under the
    optimizer's updates, a dataset of at least one trajectory, each with
    at least one time and as many observations, [batch_size >= 1], at
    least two steps and [save_every >= 1]: then no iteration raises,
    whatever the keys; the model the run ends with is the one sampled for
    the last plot, and the two columns plotted there exist, with 300
    entries each. *)
Theorem main_loop_completes {key} `{PRNG key} (Grads OptState : Type)
  (loss_grad : LatentODE -> list vec -> list mat -> key -> Grads)
  (optim_update : Grads -> OptState -> Grads * OptState)
  (apply_updates : LatentODE -> Grads -> LatentODE)
  (dataset : list vec * list mat) (batch_size steps save_every : Z)
  (sample_key : key) (fuel : nat) (model0 : LatentODE) (opt_state0 : OptState)
  (loader_key train_key0 : key)
  (data_size hidden_size' latent_size' width_size depth : nat) :
  let ready := model_ready data_size hidden_size' latent_size' width_size depth
                           (main_grids dataset) in
  (2 <= data_size)%nat ->
  ready model0 ->
  (forall m u, ready m -> ready (apply_updates m u)) ->
  Forall2 (trajectory data_size) (fst dataset) (snd dataset) ->
  (0 < dataset_size dataset)%nat ->
  (1 <= batch_size)%Z -> (2 <= steps)%Z -> (1 <= save_every)%Z -> (3 <= fuel)%nat ->
  exists st sample_y c0 c1,
    fst (main_loop loss_grad optim_update apply_updates dataset batch_size
                   steps save_every sample_key fuel model0 opt_state0
                   loader_key train_key0) = Ok st
    /\ ready (model st)
    /\ fst (sample (model st) (jnp_linspace 0 12 300) sample_key) = Ok sample_y
    /\ column sample_y 0 = Ok c0 /\ column sample_y 1 = Ok c1
    /\ length c0 = 300%nat /\ length c1 = 300%nat.
Proof.
  intros ready Hd Hm Hkeep Hdata HN Hb Hs Hk Hf. subst ready.
  assert (Hs1 : (1 <= steps)%Z) by lia.
  assert (Hk0 : save_every <> 0%Z) by lia.
  pose proof (plot_steps_count Hs1 Hk (num_plots_eq steps Hk0)) as Hc.
  assert (Hrun : exists st,
             fst (main_loop loss_grad optim_update apply_updates dataset batch_size
                            steps save_every sample_key fuel model0 opt_state0
                            loader_key train_key0) = Ok st
             /\ model_ready data_size hidden_size' latent_size' width_size depth
                            (main_grids dataset) (model st)).
  { unfold main_loop.
    rewrite bindM_unfold, num_plots_eq by exact Hk0. cbn [lift fst snd].
    eapply for_loop_returns; eauto.
    - exact I.
    - cbn [axs]. rewrite length_seq, Hc. lia. }
  destruct Hrun as (st & Est & Hst).
  destruct (plot_sample_returns sample_key Hst) as (sample_y & Ey).
  pose proof Hst as (S & _ & _).
  assert (Hshape : length sample_y = 300%nat
                   /\ Forall (fun y => length y = data_size) sample_y).
  { revert Ey. unfold sample, jrandom_normal. cbn [bindM].
    destruct (_sample (model st) _ _) as [out| |] eqn:Eo; cbn [lift fst];
      intros Ey; inversion Ey; subst.
    destruct (@_sample_output_shape data_size hidden_size' (model st) _ _ sample_y
                (shape_hidden_to_data S) Eo) as [Lo Fo].
    split; [|exact Fo]. rewrite Lo. unfold jnp_linspace.
    now rewrite length_map, length_seq. }
  destruct Hshape as [Lo Fo].
  destruct (@column_ok data_size 0 sample_y Fo) as (c0 & E0 & L0); [lia|].
  destruct (@column_ok data_size 1 sample_y Fo) as (c1 & E1 & L1); [lia|].
  exists st, sample_y, c0, c1.
  repeat (split; [first [assumption|congruence]|]). congruence.
Qed.

Lemma main_loop_completes_witness :
  exists st,
    fst (main_loop frozen_grad frozen_update frozen_apply checked_dataset 1 2 1
                   ([(5, 4)%nat] : path_key) 3 checked_model tt
                   [(5, 2)%nat] [(5, 3)%nat]) = Ok st.
Proof.
  destruct (@main_loop_completes path_key path_prng unit unit frozen_grad
              frozen_update frozen_apply checked_dataset 1 2 1 [(5, 4)%nat] 3
              checked_model tt [(5, 2)%nat] [(5, 3)%nat] 2 2 1 3 1)
    as (st & _ & _ & _ & E & _).
  - lia.
  - split; [exact checked_model_shape|]. split; [exact checked_model_cell|].
    intros ts _. apply checked_model_solves.
  - intros m u Hm. exact Hm.
  - repeat constructor; discriminate.
  - vm_compute. lia.
  - lia.
  - lia.
  - lia.
  - lia.
  - exists st. exact E.
Defined.

(** ** A dataset whose arrays disagree *)

(** X15: when the two arrays of the dataset have different numbers of
    rows, a run of at least two steps with [save_every >= 1] ends in its
    first iteration with the [AssertionError] of the generator, before
    any key is used, any update made or anything plotted. *)
Theorem main_loop_mismatched_dataset {key} `{PRNG key} (Grads OptState : Type)
  (loss_grad : LatentODE -> list vec -> list mat -> key -> Grads)
  (optim_update : Grads -> OptState -> Grads * OptState)
  (apply_updates : LatentODE -> Grads -> LatentODE)
  (dataset : list vec * list mat) (batch_size steps save_every : Z)
  (sample_key : key) (fuel : nat) (model0 : LatentODE) (opt_state0 : OptState)
  (loader_key train_key0 : key) :
  length (snd dataset) <> dataset_size dataset ->
  (2 <= steps)%Z -> (1 <= save_every)%Z -> (1 <= fuel)%nat ->
  main_loop loss_grad optim_update apply_updates dataset batch_size
            steps save_every sample_key fuel model0 opt_state0
            loader_key train_key0
  = (Raise AssertionError, []).
Proof.
  intros Hrows Hs Hk Hf. unfold main_loop.
  assert (Hk0 : save_every <> 0%Z) by lia.
  assert (Hs1 : (1 <= steps)%Z) by lia.
  rewrite num_plots_eq by exact Hk0. cbn [lift bindM].
  destruct (range_first Hs1) as (l & ->).
  rewrite for_loopM_cons, main_step_eq. cbn [loader].
  destruct fuel as [|fuel]; [lia|]. cbn [dataloader_next].
  rewrite (proj2 (Nat.eqb_neq _ _) Hrows). reflexivity.
Qed.

Lemma main_loop_mismatched_dataset_witness :
  small_run ([[0; 1]; [0; 2]], [[[0]; [0]]]) 2 1 3 = (Raise AssertionError, []).
Proof.
  apply (@main_loop_mismatched_dataset path_key path_prng unit unit frozen_grad
           frozen_update frozen_apply); [vm_compute; lia | lia | lia | lia].
Defined.

(** ** The generator epoch after epoch *)

Lemma dataloader_take_app {key} `{PRNG key} {A B : Type} (arrays : list A * list B)
  (batch_size : Z) (fuel : nat) (n m : nat) :
  forall st b1 st1 l1 b2 st2 l2,
    dataloader_take arrays batch_size fuel n st = (Ok (b1, st1), l1) ->
    dataloader_take arrays batch_size fuel m st1 = (Ok (b2, st2), l2) ->
    dataloader_take arrays batch_size fuel (n + m) st = (Ok (b1 ++ b2, st2), l1 ++ l2).
Proof.
  induction n as [|n IH]; intros st b1 st1 l1 b2 st2 l2 E1 E2.
  - cbn in E1. inversion E1; subst. exact E2.
  - cbn [Nat.add dataloader_take] in *.
    destruct (dataloader_next arrays batch_size fuel st) as [[[batch st0]|e|] l0];
      cbn [bindM] in *; try discriminate.
    destruct (dataloader_take arrays batch_size fuel n st0) as [[[bs st0']|e|] l0'] eqn:En;
      cbn [bindM retM] in *; try discriminate.
    inversion E1; subst.
    rewrite (IH st0 bs st1 l0' b2 st2 l2 En E2). cbn.
    rewrite !app_nil_r, app_assoc. reflexivity.
Qed.

Section DataloaderEpochs.
Context {key : Type} `{PRNG key} {A B : Type}.
Variable arrays : list A * list B.
Variable batch_size : Z.
Hypothesis batch_size_pos : (1 <= batch_size)%Z.
Hypothesis same_rows : length (snd arrays) = dataset_size arrays.
Hypothesis some_rows : (0 < dataset_size arrays)%nat.

Local Notation "'N'" := (dataset_size arrays).
Local Notation "'b'" := (Z.to_nat batch_size).

Lemma dataloader_one_epoch (fuel : nat) (st : loader_state key) (k : key) :
  (3 <= fuel)%nat -> epoch_boundary arrays st k ->
  exists batches st',
    dataloader_take arrays batch_size fuel (batches_per_epoch N b) st
    = (Ok (batches, st'), [KeyPermutation k; KeySplit k 1])
    /\ Forall2 (batch_rows arrays) batches (chunks b (permutation k (seq 0 N)))
    /\ epoch_boundary arrays st' (split_child k 1 0).
Proof.
  intros Hfuel Hst. set (perm := permutation k (seq 0 N)).
  assert (Hb : (1 <= b)%nat) by lia.
  assert (Lp : length perm = N).
  { unfold perm. rewrite (Permutation_length (permutation_permutes k _)).
    apply length_seq. }
  unfold chunks. rewrite Lp.
  destruct (batches_per_epoch_bounds N Hb) as [L U].
  destruct (batches_per_epoch N b) as [|m] eqn:Em; [simpl in L; lia|].
  destruct (@dataloader_next_boundary key _ A B arrays batch_size batch_size_pos
              same_rows fuel st k Hfuel Hst some_rows) as (batch & En & Rb).
  destruct (@dataloader_take_in_epoch key _ A B arrays batch_size batch_size_pos
              same_rows (fuel - 1) (split_child k 1 0) perm m 1%nat batch_size
              (batch_size + batch_size)%Z)
    as (batches & s' & e' & Et & Es' & Ee' & Rs).
  { lia. }
  { reflexivity. }
  { rewrite Em. lia. }
  { apply permutation_in_range. }
  replace (S (fuel - 1)) with fuel in Et by lia.
  exists (batch :: batches), (LoaderBatch (split_child k 1 0) perm s' e').
  split; [|split].
  - cbn [dataloader_take]. fold perm in En. rewrite En.
    rewrite bindM_unfold. cbn [fst snd]. rewrite Et. reflexivity.
  - simpl. constructor; assumption.
  - simpl. split; [reflexivity|]. subst s'. simpl in L. lia.
Qed.

Lemma dataloader_many_epochs (fuel : nat) (e : nat) :
  (3 <= fuel)%nat ->
  forall (st : loader_state key) (k : key),
    epoch_boundary arrays st k ->
    exists batches st',
      dataloader_take arrays batch_size fuel (e * batches_per_epoch N b) st
      = (Ok (batches, st'),
         flat_map (fun k' => [KeyPermutation k'; KeySplit k' 1]) (epoch_keys k e))
      /\ Forall2 (batch_rows arrays) batches
           (flat_map (fun k' => chunks b (permutation k' (seq 0 N))) (epoch_keys k e))
      /\ epoch_boundary arrays st' (Nat.iter e (fun k' => split_child k' 1 0) k).
Proof.
  intros Hfuel. induction e as [|e IH]; intros st k Hst.
  - exists [], st. cbn. split; [reflexivity|]. split; [constructor|exact Hst].
  - destruct (@dataloader_one_epoch fuel st k Hfuel Hst) as (b1 & st1 & E1 & R1 & B1).
    destruct (IH st1 (split_child k 1 0) B1) as (b2 & st2 & E2 & R2 & B2).
    exists (b1 ++ b2), st2. split; [|split].
    + cbn [Nat.mul epoch_keys flat_map].
      eapply dataloader_take_app; [exact E1|exact E2].
    + cbn [epoch_keys flat_map]. now apply Forall2_app.
    + rewrite Nat.iter_succ_r. exact B2.
Qed.
End DataloaderEpochs.

(** X16: with [batch_size >= 1] and a dataset of at least one row, the
    first [e] epochs of the generator are [e] full passes: the batches
    are the consecutive blocks of one permutation of all the positions
    per epoch, each epoch's permutation drawn with that epoch's key; the
    keys are the generator's key and its successive single children, each
    used for one permutation and one split and for nothing else. *)
Theorem dataloader_epochs {key} `{PRNG key} {A B : Type}
  (arrays : list A * list B) (batch_size : Z) (fuel : nat) (k : key) (e : nat) :
  (1 <= batch_size)%Z ->
  length (snd arrays) = dataset_size arrays ->
  (0 < dataset_size arrays)%nat ->
  (3 <= fuel)%nat ->
  let N := dataset_size arrays in
  let b := Z.to_nat batch_size in
  exists batches st',
    dataloader_take arrays batch_size fuel (e * batches_per_epoch N b) (LoaderStart k)
    = (Ok (batches, st'),
       flat_map (fun k' => [KeyPermutation k'; KeySplit k' 1]) (epoch_keys k e))
    /\ Forall2 (batch_rows arrays) batches
         (flat_map (fun k' => chunks b (permutation k' (seq 0 N))) (epoch_keys k e))
    /\ Forall (fun k' => Permutation (concat (chunks b (permutation k' (seq 0 N))))
                                     (seq 0 N)) (epoch_keys k e)
    /\ length (epoch_keys k e) = e
    /\ epoch_boundary arrays st' (Nat.iter e (fun k' => split_child k' 1 0) k).
Proof.
  intros Hb Hrows HN Hf N b.
  destruct (@dataloader_many_epochs key _ A B arrays batch_size Hb Hrows HN fuel e Hf
              (LoaderStart k) k eq_refl)
    as (batches & st' & E & R & Bd).
  exists batches, st'. split; [exact E|]. split; [exact R|].
  split; [|split; [|exact Bd]].
  - apply Forall_forall. intros k' _.
    rewrite concat_chunks by (unfold b; lia). apply permutation_permutes.
  - clear. revert k. induction e as [|e IH]; intros k; simpl; [reflexivity|].
    now rewrite IH.
Qed.

Lemma dataloader_epochs_witness :
  exists batches st',
    dataloader_take ([10; 11; 12]%nat, [20; 21; 22]%nat) 2 3 4
      (LoaderStart ([] : path_key))
    = (Ok (batches, st'),
       [KeyPermutation []; KeySplit [] 1;
        KeyPermutation [(1, 0)%nat]; KeySplit [(1, 0)%nat] 1])
    /\ length batches = 4%nat.
Proof.
  destruct (@dataloader_epochs path_key path_prng nat nat
              ([10; 11; 12]%nat, [20; 21; 22]%nat) 2 3 [] 2)
    as (batches & st' & E & R & _); [lia | reflexivity | vm_compute; lia | lia |].
  exists batches, st'. split; [exact E|].
  rewrite (Forall2_length R). reflexivity.
Defined.
